(** * Answer-evaluation pipeline: shallow embedding and checked properties

    The development follows the Python sources

      - [preprocessing/text_preprocessor.py]   (module [TextPreprocessor])
      - [preprocessing/context_analyzer.py]    (module [ContextAnalyzer])
      - [preprocessing/ensemble_evaluator.py]  (module [EnsembleEvaluator])
      - [preprocessing/scoring_algorithm.py]   (module [ScoringAlgorithm])
      - [preprocessing/error_handler.py]       (module [ErrorHandler])
      - [sbert_service.py]                     (module [Service])
      - [preprocessing/validation_framework.py] (module [ValidationFramework])
      - [preprocessing/accuracy_monitor.py]    (module [AccuracyMonitor])

    Modelling conventions.

      - Python [float] values are exact rationals ([Q]); [==] is the
        equality of rationals.  An operation returns the exact result, so a
        comparison can differ from the binary64 one only where the exact
        result lies within rounding error of the threshold.  Python [int]
        values are [Z]; results of [len] are [nat].
      - Python [str] values are [string]; a character is read as the code
        point of the same number, so the model covers texts whose code
        points are below 256.
      - A Python [set] of strings is a [gset string]; a [dict] that is
        iterated is an association list in insertion order.
      - A raised exception is the [Raise] case of [result]; [try]/[except]
        is [try_except].
      - Wall-clock times and log lines are not part of the model; the stage
        names handed to the performance monitor are, and so are the clock
        reading stored by the accuracy monitor, which is an argument, and
        the pauses of the retry wrapper. *)

From Stdlib Require Import ZArith QArith Qround Qminmax Lqa Lia Ascii String List Bool.
From stdpp Require Import gmap strings.
Import ListNotations.

(** ** Exceptions *)

Inductive exn : Type :=
| ZeroDivisionError
| ValueError
| RuntimeError.

Inductive result (A : Type) : Type :=
| Ok (a : A)
| Raise (e : exn).
Arguments Ok {A} a.
Arguments Raise {A} e.

Definition bind {A B : Type} (m : result A) (k : A -> result B) : result B :=
  match m with
  | Ok a => k a
  | Raise e => Raise e
  end.

Notation "'let*' x ':=' m 'in' k" := (bind m (fun x => k))
  (at level 10, x name, m at level 100, k at level 200).

Definition try_except {A : Type} (m : result A) (handler : exn -> A) : A :=
  match m with
  | Ok a => a
  | Raise e => handler e
  end.

(** ** Python numbers *)

Module PyNum.
Local Open Scope Q_scope.

(** [a < b] and [a > b] on floats. *)
Definition Qltb (a b : Q) : bool := negb (Qle_bool b a).
Definition Qgtb (a b : Q) : bool := Qltb b a.

Definition of_nat (n : nat) : Q := inject_Z (Z.of_nat n).

(** [a / b]: true division, raising on a zero divisor. *)
Definition truediv (a b : Q) : result Q :=
  if Qeq_bool b 0 then Raise ZeroDivisionError else Ok (a / b).

(** Nearest integer, ties to the even one. *)
Definition round_half_even (x : Q) : Z :=
  let f := Qfloor x in
  match Qcompare (x - inject_Z f) (1 # 2) with
  | Lt => f
  | Gt => (f + 1)%Z
  | Eq => if Z.even f then f else (f + 1)%Z
  end.

(** [round(x, ndigits)]. *)
Definition round (x : Q) (ndigits : nat) : Q :=
  let p := inject_Z (10 ^ Z.of_nat ndigits) in
  inject_Z (round_half_even (x * p)) / p.

(** [int(x)] on a float: truncation towards zero. *)
Definition int (x : Q) : Z :=
  if Qle_bool 0 x then Qfloor x else Qceiling x.

(** [x] is a decimal number with [ndigits] digits after the point. *)
Definition is_decimal (ndigits : nat) (x : Q) : Prop :=
  exists n : Z, x == inject_Z n / inject_Z (10 ^ Z.of_nat ndigits).

Definition sum (l : list Q) : Q := fold_left Qplus l 0.

(** [numpy.var]: population variance. *)
Definition var (l : list Q) : Q :=
  let n := of_nat (length l) in
  let mean := sum l / n in
  sum (map (fun x => (x - mean) * (x - mean)) l) / n.

End PyNum.

(** ** Python strings *)

Module PyStr.
Local Open Scope nat_scope.

Definition code (c : ascii) : nat := nat_of_ascii c.

Definition between (lo hi n : nat) : bool := (lo <=? n) && (n <=? hi).

(** [str.isspace], which is also the class [\s] of [re] on [str] patterns:
    tab to carriage return, the four separators 28-31, space, NEL and the
    no-break space. *)
Definition isspace (c : ascii) : bool :=
  let n := code c in
  between 9 13 n || between 28 32 n || (n =? 133) || (n =? 160).

(** [str.isalnum] on code points below 256. *)
Definition isalnum (c : ascii) : bool :=
  let n := code c in
  between 48 57 n || between 65 90 n || between 97 122 n
  || (n =? 170) || between 178 179 n || (n =? 181) || between 185 186 n
  || between 188 190 n || between 192 214 n || between 216 246 n
  || between 248 255 n.

(** The class [\w] of [re]: alphanumeric or underscore. *)
Definition isword (c : ascii) : bool := isalnum c || (code c =? 95).

Definition lower_char (c : ascii) : ascii :=
  let n := code c in
  if between 65 90 n || between 192 214 n || between 216 222 n
  then ascii_of_nat (n + 32)
  else c.

(** [s.lower()] *)
Fixpoint lower (s : string) : string :=
  match s with
  | EmptyString => EmptyString
  | String c s' => String (lower_char c) (lower s')
  end.

(** [not s] *)
Definition is_empty (s : string) : bool :=
  match s with
  | EmptyString => true
  | String _ _ => false
  end.

Definition cons_nonempty (w : string) (ws : list string) : list string :=
  if is_empty w then ws else w :: ws.

(** Scanner behind [s.split()]: the word that starts the text (empty when
    the text starts with whitespace) and the words after it. *)
Fixpoint split_scan (s : string) : string * list string :=
  match s with
  | EmptyString => (EmptyString, [])
  | String c s' =>
      let '(w, ws) := split_scan s' in
      if isspace c then (EmptyString, cons_nonempty w ws)
      else (String c w, ws)
  end.

(** [s.split()]: the maximal runs of non-whitespace characters. *)
Definition split (s : string) : list string :=
  let '(w, ws) := split_scan s in cons_nonempty w ws.

Fixpoint split_on_scan (sep : ascii) (s : string) : string * list string :=
  match s with
  | EmptyString => (EmptyString, [])
  | String c s' =>
      let '(w, ws) := split_on_scan sep s' in
      if Ascii.eqb c sep then (EmptyString, w :: ws)
      else (String c w, ws)
  end.

(** [s.split(sep)] for a one-character separator: empty segments are kept. *)
Definition split_on (sep : ascii) (s : string) : list string :=
  let '(w, ws) := split_on_scan sep s in w :: ws.

Fixpoint lstrip (s : string) : string :=
  match s with
  | EmptyString => EmptyString
  | String c s' => if isspace c then lstrip s' else s
  end.

Fixpoint rstrip (s : string) : string :=
  match s with
  | EmptyString => EmptyString
  | String c s' =>
      let r := rstrip s' in
      if isspace c && is_empty r then EmptyString else String c r
  end.

(** [s.strip()] *)
Definition strip (s : string) : string := rstrip (lstrip s).

(** [re.sub(r'\s+', ' ', s)]: every maximal run of whitespace becomes one
    space; [in_run] tells that the previous character was whitespace. *)
Fixpoint sub_whitespace_from (in_run : bool) (s : string) : string :=
  match s with
  | EmptyString => EmptyString
  | String c s' =>
      if isspace c then
        if in_run then sub_whitespace_from true s'
        else String " " (sub_whitespace_from true s')
      else String c (sub_whitespace_from false s')
  end.

Definition sub_whitespace (s : string) : string := sub_whitespace_from false s.

(** The characters kept by the class [[^\w\s.,]] being removed. *)
Definition is_kept (c : ascii) : bool :=
  isword c || isspace c || Ascii.eqb c "." || Ascii.eqb c ",".

(** [re.sub(r'[^\w\s.,]', '', s)] *)
Fixpoint sub_special (s : string) : string :=
  match s with
  | EmptyString => EmptyString
  | String c s' =>
      if is_kept c then String c (sub_special s') else sub_special s'
  end.

(** [k in s]: [k] occurs in [s] as a substring. *)
Fixpoint contains (k s : string) : bool :=
  String.prefix k s
  || match s with
     | EmptyString => false
     | String _ s' => contains k s'
     end.

(** The class [\d] of [re] on code points below 256: the digits 0 to 9. *)
Definition isdecimal (c : ascii) : bool := between 48 57 (code c).

(** [re.sub(r'\d+', '', s)]: every run of digits is removed. *)
Fixpoint sub_digits (s : string) : string :=
  match s with
  | EmptyString => EmptyString
  | String c s' =>
      if isdecimal c then sub_digits s' else String c (sub_digits s')
  end.

(** The text starts with a word character. *)
Definition starts_word (s : string) : bool :=
  match s with
  | EmptyString => false
  | String c _ => isword c
  end.

(** [re.sub(r'\b\w\b', '', s)]: a word character goes when neither the
    character before it nor the character after it in [s] is a word
    character; [prev_word] tells that the previous character of [s] was
    one. *)
Fixpoint sub_single_from (prev_word : bool) (s : string) : string :=
  match s with
  | EmptyString => EmptyString
  | String c s' =>
      if isword c && negb prev_word && negb (starts_word s')
      then sub_single_from (isword c) s'
      else String c (sub_single_from (isword c) s')
  end.

Definition sub_single (s : string) : string := sub_single_from false s.


(** [s[:n]] for [n >= 0] *)
Fixpoint take_chars (n : nat) (s : string) : string :=
  match n, s with
  | S n', String c s' => String c (take_chars n' s')
  | _, _ => EmptyString
  end.

End PyStr.

(** ** text_preprocessor.py *)

Module TextPreprocessor.
Import PyStr.

Record Preprocessed : Type := mkPreprocessed {
  normalized_text : string;
  corrections : list string;
  preserved_terms : list string
}.

Definition preprocess (text : string) : Preprocessed :=
  if is_empty text then
    {| normalized_text := ""; corrections := []; preserved_terms := [] |}
  else
    let original_text := text in
    let corrections := [] in
    let preserved_terms := [] in
    let text := lower text in
    let corrections :=
      if negb (String.eqb text original_text)
      then corrections ++ ["Converted to lowercase"] else corrections in
    let cleaned := sub_whitespace text in
    let corrections :=
      if negb (String.eqb cleaned text)
      then corrections ++ ["Normalized whitespace"] else corrections in
    let text := cleaned in
    let cleaned := sub_special text in
    let corrections :=
      if negb (String.eqb cleaned text)
      then corrections ++ ["Removed special punctuation"] else corrections in
    let text := cleaned in
    let normalized_text := strip text in
    {| normalized_text := normalized_text;
       corrections := corrections;
       preserved_terms := preserved_terms |}.

Definition clean_text (text : string) : string :=
  let preprocessed := preprocess text in
  let text := normalized_text preprocessed in
  let text := sub_digits text in
  let text := sub_single text in
  strip text.

End TextPreprocessor.

(** ** context_analyzer.py *)

Module ContextAnalyzer.
Import PyStr PyNum.

Inductive Complexity : Type := low | medium | high.

Record Analysis : Type := mkAnalysis {
  context : string;
  complexity : Complexity;
  domain : string;
  concepts : gset string;
  technical_terms : list string;
  word_count : nat;
  technical_score : nat
}.

(** [self.technical_keywords], in the order of the dict literal. *)
Definition technical_keywords : list (string * list string) :=
  [ ("CSE", ["algorithm"; "code"; "function"; "variable"; "loop"; "array";
             "database"; "network"; "software"; "programming"]);
    ("ECE", ["circuit"; "signal"; "frequency"; "voltage"; "current";
             "transistor"; "amplifier"; "digital"; "analog"]);
    ("EEE", ["power"; "motor"; "generator"; "transformer"; "electrical";
             "energy"; "voltage"; "current"]);
    ("Mechanical", ["force"; "motion"; "energy"; "heat"; "machine"; "engine";
                    "thermodynamics"; "mechanics"]);
    ("Civil", ["structure"; "concrete"; "steel"; "building"; "construction";
               "foundation"; "beam"; "load"]);
    ("programming", ["code"; "function"; "variable"; "algorithm"; "loop";
                     "array"]);
    ("mathematics", ["equation"; "formula"; "calculate"; "solve"; "theorem"]);
    ("science", ["experiment"; "hypothesis"; "theory"; "analysis";
                 "research"]) ].

(** [d[key] = value] on a dict kept in insertion order. *)
Fixpoint dict_set (d : list (string * nat)) (key : string) (value : nat)
  : list (string * nat) :=
  match d with
  | [] => [(key, value)]
  | (k, v) :: rest =>
      if String.eqb k key then (k, value) :: rest
      else (k, v) :: dict_set rest key value
  end.

(** The loop over the keywords of one domain. *)
Fixpoint scan_keywords (text_lower : string) (keywords : list string)
    (score : nat) (found_terms : list string) : nat * list string :=
  match keywords with
  | [] => (score, found_terms)
  | keyword :: rest =>
      if contains keyword text_lower
      then scan_keywords text_lower rest (score + 1) (found_terms ++ [keyword])
      else scan_keywords text_lower rest score found_terms
  end.

(** The loop over [self.technical_keywords.items()]. *)
Fixpoint scan_domains (text_lower : string)
    (table : list (string * list string))
    (domain_scores : list (string * nat)) (found_terms : list string)
  : list (string * nat) * list string :=
  match table with
  | [] => (domain_scores, found_terms)
  | (domain, keywords) :: rest =>
      let '(score, found_terms) :=
        scan_keywords text_lower keywords 0 found_terms in
      scan_domains text_lower rest (dict_set domain_scores domain score)
                   found_terms
  end.

(** [max(values)] on a list of ints. *)
Definition max_value (values : list nat) : result nat :=
  match values with
  | [] => Raise ValueError
  | v :: rest => Ok (fold_left Nat.max rest v)
  end.

(** [max(d, key=d.get)]: iterating a dict yields its keys in insertion
    order and [d.get] maps a key to the value of its own entry, the keys
    being unique; the running best is replaced only by a strictly greater
    one. *)
Fixpoint max_key_from (best : string * nat) (entries : list (string * nat))
  : string :=
  match entries with
  | [] => fst best
  | e :: rest =>
      if (snd best <? snd e)%nat then max_key_from e rest
      else max_key_from best rest
  end.

Definition max_key (d : list (string * nat)) : result string :=
  match d with
  | [] => Raise ValueError
  | e :: rest => Ok (max_key_from e rest)
  end.

Definition sum_values (values : list nat) : nat := fold_left Nat.add values 0%nat.

Definition analyze (text : string) : result Analysis :=
  if is_empty text then
    Ok {| context := "general"; complexity := low; domain := "general";
          concepts := ∅; technical_terms := []; word_count := 0;
          technical_score := 0 |}
  else
    let text_lower := lower text in
    let words := split text in
    let '(domain_scores, found_terms) :=
      scan_domains text_lower technical_keywords [] [] in
    let values := map snd domain_scores in
    let* top := max_value values in
    let* detected_domain :=
      if (0 <? top)%nat then max_key domain_scores else Ok "general" in
    let complexity := low in
    let complexity :=
      if (50 <? length words)%nat then medium else complexity in
    let complexity :=
      if (100 <? length words)%nat || (3 <? sum_values values)%nat
      then high else complexity in
    let concepts : gset string := list_to_set found_terms in
    Ok {| context := detected_domain; complexity := complexity;
          domain := detected_domain; concepts := concepts;
          technical_terms := found_terms; word_count := length words;
          technical_score := sum_values values |}.

Definition calculate_concept_coverage
    (student_concepts model_concepts : gset string) : result Q :=
  if bool_decide (model_concepts = ∅) then Ok 1.0%Q
  else
    let student_set := student_concepts in
    let model_set := model_concepts in
    if bool_decide (model_set = ∅) then Ok 1.0%Q
    else
      let matched := size (student_set ∩ model_set) in
      truediv (of_nat matched) (of_nat (size model_set)).

(** The value of the key ['complexity'] in the dict [analyze] returns. *)
Definition complexity_name (c : Complexity) : string :=
  match c with
  | low => "low"
  | medium => "medium"
  | high => "high"
  end.

Definition complexity_weights : gmap string Q :=
  {[ "low" := 1.0%Q; "medium" := 1.1%Q; "high" := 1.2%Q ]}.

(** [context_info] is a dict with text values. *)
Definition get_context_weight (context_info : gmap string string) : Q :=
  default 1.0%Q
    (complexity_weights !! default "low" (context_info !! "complexity")).

End ContextAnalyzer.

(** ** ensemble_evaluator.py *)

Module EnsembleEvaluator.
Import PyStr PyNum.
Local Open Scope Q_scope.

Record Weights : Type := mkWeights {
  w_semantic : Q;
  w_keyword : Q;
  w_length : Q;
  w_structure : Q
}.

Definition weights : Weights :=
  {| w_semantic := 0.6; w_keyword := 0.2; w_length := 0.1;
     w_structure := 0.1 |}.

Record Signals : Type := mkSignals {
  semantic_similarity : Q;
  keyword_matching : Q;
  length_similarity : Q;
  structure_similarity : Q
}.

Record EnsembleResult : Type := mkEnsembleResult {
  weighted_score : Q;
  confidence : Q;
  model_scores : option Signals;
  variance : Q
}.

Definition _calculate_semantic_similarity (text1 text2 : string) : result Q :=
  let words1 : gset string := list_to_set (split (lower text1)) in
  let words2 : gset string := list_to_set (split (lower text2)) in
  if bool_decide (words1 = ∅) || bool_decide (words2 = ∅) then Ok 0.0
  else
    let intersection := size (words1 ∩ words2) in
    let union := size (words1 ∪ words2) in
    if (0 <? union)%nat then truediv (of_nat intersection) (of_nat union)
    else Ok 0.0.

Definition _calculate_keyword_similarity (text1 text2 : string) : result Q :=
  let words1 := split (lower text1) in
  let words2 := split (lower text2) in
  if bool_decide (words1 = []) || bool_decide (words2 = []) then Ok 0.0
  else
    let matches :=
      length (List.filter (fun word => bool_decide (word ∈ words2)) words1) in
    truediv (of_nat matches) (of_nat (Nat.max (length words1) (length words2))).

Definition _calculate_length_similarity (text1 text2 : string) : result Q :=
  let len1 := length (split text1) in
  let len2 := length (split text2) in
  if (len1 =? 0)%nat && (len2 =? 0)%nat then Ok 1.0
  else if (len1 =? 0)%nat || (len2 =? 0)%nat then Ok 0.0
  else truediv (of_nat (Nat.min len1 len2)) (of_nat (Nat.max len1 len2)).

Definition count_sentences (text : string) : nat :=
  length (List.filter (fun s => negb (is_empty (strip s)))
                      (split_on "." text)).

Definition _calculate_structure_similarity (text1 text2 : string) : result Q :=
  let sentences1 := count_sentences text1 in
  let sentences2 := count_sentences text2 in
  if (sentences1 =? 0)%nat && (sentences2 =? 0)%nat then Ok 1.0
  else if (sentences1 =? 0)%nat || (sentences2 =? 0)%nat then Ok 0.5
  else truediv (of_nat (Nat.min sentences1 sentences2))
               (of_nat (Nat.max sentences1 sentences2)).

Definition ensemble_evaluate (model_answer student_answer : string)
  : result EnsembleResult :=
  if is_empty model_answer || is_empty student_answer then
    Ok {| weighted_score := 0.0; confidence := 0.0; model_scores := None;
          variance := 0.0 |}
  else
    let* semantic_score :=
      _calculate_semantic_similarity model_answer student_answer in
    let* keyword_score :=
      _calculate_keyword_similarity model_answer student_answer in
    let* length_score :=
      _calculate_length_similarity model_answer student_answer in
    let* structure_score :=
      _calculate_structure_similarity model_answer student_answer in
    let model_scores := {|
      semantic_similarity := semantic_score;
      keyword_matching := keyword_score;
      length_similarity := length_score;
      structure_similarity := structure_score |} in
    let weighted_score :=
      semantic_score * w_semantic weights
      + keyword_score * w_keyword weights
      + length_score * w_length weights
      + structure_score * w_structure weights in
    let weighted_score := Qmin (Qmax weighted_score 0.0) 1.0 in
    let scores_array :=
      [semantic_score; keyword_score; length_score; structure_score] in
    let variance :=
      if (1 <? length scores_array)%nat then var scores_array else 0.0 in
    let confidence := 1.0 - Qmin variance 1.0 in
    let confidence := Qmax 0.5 confidence in
    Ok {| weighted_score := weighted_score; confidence := confidence;
          model_scores := Some model_scores; variance := variance |}.

(** [evaluate], the legacy entry point. *)
Definition evaluate (model_answer student_answer : string) : result Q :=
  let* result := ensemble_evaluate model_answer student_answer in
  Ok (weighted_score result).

End EnsembleEvaluator.

(** ** scoring_algorithm.py *)

Module ScoringAlgorithm.
Import PyNum.
Local Open Scope Q_scope.

Record ScoringBreakdown : Type := mkScoringBreakdown {
  b_ensemble_score : Q;
  b_concept_coverage : Q;
  b_concept_bonus : Q;
  b_adjusted_similarity : Q;
  b_final_score : Q;
  b_confidence : Q;
  b_key_concepts_present : Z;
  b_total_key_concepts : Z
}.

Record ScoringResult : Type := mkScoringResult {
  similarity : Q;
  score : Q;
  confidence : Q;
  breakdown : ScoringBreakdown
}.

Definition max_score : Q := 6.0.

(** Lines 76-90 of [_calculate_confidence]: the confidence before the
    clamp of the [return]. *)
Definition base_confidence
    (ensemble_score concept_coverage : Q)
    (key_concepts_present total_key_concepts : Z) : Q :=
  let base_confidence := 0.7 in
  let base_confidence :=
    if Qgtb concept_coverage 0.8 then base_confidence + 0.2
    else if Qgtb concept_coverage 0.6 then base_confidence + 0.1
    else base_confidence in
  let base_confidence :=
    if Qltb ensemble_score 0.3 then base_confidence - 0.2
    else base_confidence in
  let base_confidence :=
    if (key_concepts_present =? 0)%Z && (total_key_concepts >? 0)%Z
    then base_confidence - 0.3
    else base_confidence in
  base_confidence.

Definition _calculate_confidence
    (ensemble_score concept_coverage : Q)
    (key_concepts_present total_key_concepts : Z) : Q :=
  Qmax 0.3 (Qmin 1.0 (base_confidence ensemble_score concept_coverage
                                      key_concepts_present
                                      total_key_concepts)).

(** The adjusted similarity of lines 29-40: bonus, cap at 1, partial credit. *)
Definition adjust_similarity
    (ensemble_score concept_coverage : Q)
    (key_concepts_present total_key_concepts : Z) : result Q :=
  let concept_bonus := concept_coverage * 0.15 in
  let adjusted_similarity := ensemble_score + concept_bonus in
  let adjusted_similarity := Qmin adjusted_similarity 1.0 in
  if Qltb adjusted_similarity 0.5 then
    if (key_concepts_present >? 0)%Z then
      let* ratio := truediv (inject_Z key_concepts_present)
                            (inject_Z total_key_concepts) in
      let partial_credit := ratio * 0.3 in
      Ok (Qmax adjusted_similarity partial_credit)
    else Ok adjusted_similarity
  else Ok adjusted_similarity.

Definition calculate_final_score
    (ensemble_score concept_coverage : Q)
    (key_concepts_present total_key_concepts : Z) : result ScoringResult :=
  let concept_bonus := concept_coverage * 0.15 in
  let* adjusted_similarity :=
    adjust_similarity ensemble_score concept_coverage
                      key_concepts_present total_key_concepts in
  let confidence :=
    _calculate_confidence ensemble_score concept_coverage
                          key_concepts_present total_key_concepts in
  let final_score := round (adjusted_similarity * max_score) 2 in
  let final_score := Qmax 0.0 (Qmin max_score final_score) in
  let breakdown := {|
    b_ensemble_score := round ensemble_score 4;
    b_concept_coverage := round concept_coverage 4;
    b_concept_bonus := round concept_bonus 4;
    b_adjusted_similarity := round adjusted_similarity 4;
    b_final_score := final_score;
    b_confidence := round confidence 4;
    b_key_concepts_present := key_concepts_present;
    b_total_key_concepts := total_key_concepts |} in
  Ok {| similarity := adjusted_similarity;
        score := final_score;
        confidence := confidence;
        breakdown := breakdown |}.

(** [self.score_ranges], in the order of the dict literal. *)
Definition score_ranges : list (string * (Q * Q)) :=
  [ ("excellent", (0.9, 1.0));
    ("good", (0.7, 0.9));
    ("average", (0.5, 0.7));
    ("poor", (0.3, 0.5));
    ("very_poor", (0.0, 0.3)) ].

(** [calculate_score]; [None] is the Python [None], and the two defaults of
    the signature, [context_weight=1.0] and [confidence=1.0], are passed by
    the caller. *)
Definition calculate_score (similarity : option Q)
    (context_weight confidence : Q) : Q :=
  match similarity with
  | None => 0.0
  | Some similarity =>
      if Qltb similarity 0 then 0.0
      else
        let adjusted_score := similarity * context_weight in
        let confidence_factor := Qmax 0.5 confidence in
        let final_score := adjusted_score * confidence_factor in
        let final_score := Qmin (Qmax final_score 0.0) 1.0 in
        final_score
  end.

(** The loop of [get_score_category] over [self.score_ranges.items()]. *)
Fixpoint find_category (ranges : list (string * (Q * Q))) (score : Q)
  : string :=
  match ranges with
  | [] => "unknown"
  | (category, (min_score, max_score)) :: rest =>
      if Qle_bool min_score score && Qle_bool score max_score then category
      else find_category rest score
  end.

Definition get_score_category (score : Q) : string :=
  find_category score_ranges score.

Definition calculate_percentage (score : Q) : Q := round (score * 100) 2.

Definition apply_penalty (score penalty_factor : Q) : Q :=
  Qmax 0.0 (score - penalty_factor).

Definition apply_bonus (score bonus_factor : Q) : Q :=
  Qmin 1.0 (score + bonus_factor).


End ScoringAlgorithm.

(** ** error_handler.py *)

Module ErrorHandler.

Definition handle_preprocessing_error (text : string) (error : exn)
  : TextPreprocessor.Preprocessed :=
  {| TextPreprocessor.normalized_text := text;
     TextPreprocessor.corrections := [];
     TextPreprocessor.preserved_terms := [] |}.

Record ErrorInfo : Type := mkErrorInfo {
  error_type : exn;
  fallback_score : Q;
  model_scores : option EnsembleEvaluator.Signals
}.

Definition handle_ensemble_evaluation_error (error : exn)
    (model_scores : option EnsembleEvaluator.Signals) (fallback_score : Q)
  : ErrorInfo :=
  {| error_type := error; fallback_score := fallback_score;
     model_scores := model_scores |}.

(** [type(error).__name__] *)
Definition exn_name (error : exn) : string :=
  match error with
  | ZeroDivisionError => "ZeroDivisionError"
  | ValueError => "ValueError"
  | RuntimeError => "RuntimeError"
  end.

(** The entries of the dict [handle_error] returns that depend on the
    handler's state; the text of the message and the traceback are left
    out. *)
Record ErrorReport : Type := mkErrorReport {
  report_error_type : string;
  report_context : string;
  report_count : nat
}.

(** [handle_error], on the dict [self.error_counts]; the lookup for
    ['count'] reads the entry that was just written. *)
Definition handle_error (error : exn) (context : string)
    (error_counts : gmap string nat) : ErrorReport * gmap string nat :=
  let error_type := exn_name error in
  let error_counts :=
    <[error_type := (default 0 (error_counts !! error_type) + 1)%nat]>
      error_counts in
  ({| report_error_type := error_type;
      report_context := context;
      report_count := default 0%nat (error_counts !! error_type) |},
   error_counts).

Definition get_error_stats (error_counts : gmap string nat)
  : gmap string nat := error_counts.

(** [range(n)] *)
Definition range (n : Z) : list Z := map Z.of_nat (seq 0 (Z.to_nat n)).

Section RetryHandler.

Variable A : Type.
Variable max_retries : Z.
Variable delay : Q.

(** The wrapped function may answer differently from call to call:
    [func k] is the outcome of its call number [k], counted from 0. *)
Variable func : Z -> result A.



End RetryHandler.

End ErrorHandler.

(** ** sbert_service.py *)

Module Service.
Import PyStr PyNum.
Local Open Scope Q_scope.

(** A computation that records stage names with the performance monitor and
    may raise; what was recorded before an exception stays recorded. *)
Definition Mon (A : Type) : Type := list string -> result A * list string.

Definition ret {A : Type} (a : A) : Mon A := fun log => (Ok a, log).

Definition mbind {A B : Type} (m : Mon A) (k : A -> Mon B) : Mon B :=
  fun log =>
    match m log with
    | (Ok a, log') => k a log'
    | (Raise e, log') => (Raise e, log')
    end.

Definition lift {A : Type} (r : result A) : Mon A := fun log => (r, log).

(** [performance_monitor.record_evaluation_time(_, stage)] *)
Definition record_evaluation_time (stage : string) : Mon unit :=
  fun log => (Ok tt, log ++ [stage]).

Notation "'let!' x ':=' m 'in' k" := (mbind m (fun x => k))
  (at level 10, x name, m at level 100, k at level 200).

Inductive Message : Type :=
| NoMessage
| ErrorText (text : string)
| ErrorOf (e : exn)
| Note (text : string).

Record Breakdown : Type := mkBreakdown {
  bd_ensemble_score : Q;
  bd_model_scores : option EnsembleEvaluator.Signals;
  bd_concept_coverage : Q;
  bd_key_concepts_found : Z;
  bd_total_key_concepts : Z;
  bd_preprocessing_changes : list string * list string;
  bd_technical_terms_found : list string;
  bd_scoring_breakdown : ScoringAlgorithm.ScoringBreakdown
}.

Record Response : Type := mkResponse {
  similarity : Q;
  score : Q;
  confidence : Q;
  needs_review : bool;
  fallback : bool;
  message : Message;
  breakdown : option Breakdown
}.

(** What the staged evaluation computes on the way, kept for the
    statements about the stages. *)
Record Stages : Type := mkStages {
  st_model_preprocessed : TextPreprocessor.Preprocessed;
  st_student_preprocessed : TextPreprocessor.Preprocessed;
  st_model_text : string;
  st_student_text : string;
  st_model_analysis : ContextAnalyzer.Analysis;
  st_student_analysis : ContextAnalyzer.Analysis;
  st_concept_coverage : Q;
  st_key_concepts_present : Z;
  st_total_key_concepts : Z;
  st_ensemble_score : Q;
  st_ensemble_confidence : Q;
  st_model_scores : option EnsembleEvaluator.Signals;
  st_scoring_result : ScoringAlgorithm.ScoringResult
}.

(** Lines 836-973 of [enhanced_evaluate]: the four stages. *)
Definition run_stages (model_answer student_answer : string) : Mon Stages :=
  (* Stage 1: preprocessing *)
  let '(model_preprocessed, student_preprocessed) :=
    try_except
      (Ok (TextPreprocessor.preprocess model_answer,
           TextPreprocessor.preprocess student_answer))
      (fun e => (ErrorHandler.handle_preprocessing_error model_answer e,
                 ErrorHandler.handle_preprocessing_error student_answer e)) in
  let model_text := TextPreprocessor.normalized_text model_preprocessed in
  let student_text := TextPreprocessor.normalized_text student_preprocessed in
  let! _ := record_evaluation_time "preprocessing" in
  (* Stage 2: context analysis *)
  let! model_analysis := lift (ContextAnalyzer.analyze model_text) in
  let! student_analysis := lift (ContextAnalyzer.analyze student_text) in
  let! concept_coverage :=
    lift (ContextAnalyzer.calculate_concept_coverage
            (ContextAnalyzer.concepts student_analysis)
            (ContextAnalyzer.concepts model_analysis)) in
  let key_concepts_present :=
    int (concept_coverage
         * of_nat (size (ContextAnalyzer.concepts model_analysis))) in
  let total_key_concepts :=
    Z.of_nat (size (ContextAnalyzer.concepts model_analysis)) in
  let! _ := record_evaluation_time "context_analysis" in
  (* Stage 3: ensemble evaluation *)
  let '(ensemble_score, ensemble_confidence, model_scores) :=
    try_except
      (let* ensemble_result :=
         EnsembleEvaluator.ensemble_evaluate model_text student_text in
       Ok (EnsembleEvaluator.weighted_score ensemble_result,
           EnsembleEvaluator.confidence ensemble_result,
           EnsembleEvaluator.model_scores ensemble_result))
      (fun e =>
         let error_info :=
           ErrorHandler.handle_ensemble_evaluation_error e None 0.5 in
         (ErrorHandler.fallback_score error_info, 0.3, None)) in
  let! _ := record_evaluation_time "ensemble_evaluation" in
  (* Stage 4: final scoring *)
  let! scoring_result :=
    lift (ScoringAlgorithm.calculate_final_score
            ensemble_score concept_coverage
            key_concepts_present total_key_concepts) in
  let! _ := record_evaluation_time "scoring" in
  ret {| st_model_preprocessed := model_preprocessed;
         st_student_preprocessed := student_preprocessed;
         st_model_text := model_text;
         st_student_text := student_text;
         st_model_analysis := model_analysis;
         st_student_analysis := student_analysis;
         st_concept_coverage := concept_coverage;
         st_key_concepts_present := key_concepts_present;
         st_total_key_concepts := total_key_concepts;
         st_ensemble_score := ensemble_score;
         st_ensemble_confidence := ensemble_confidence;
         st_model_scores := model_scores;
         st_scoring_result := scoring_result |}.

(** Lines 964-1024: the review decision and the response. *)
Definition build_response (st : Stages) (detailed : bool) : Response :=
  let scoring_result := st_scoring_result st in
  let final_similarity := ScoringAlgorithm.similarity scoring_result in
  let final_score := ScoringAlgorithm.score scoring_result in
  let final_confidence := ScoringAlgorithm.confidence scoring_result in
  let needs_review := Qltb final_confidence 0.7 in
  let breakdown :=
    if detailed then
      Some {| bd_ensemble_score := st_ensemble_score st;
              bd_model_scores := st_model_scores st;
              bd_concept_coverage := st_concept_coverage st;
              bd_key_concepts_found := st_key_concepts_present st;
              bd_total_key_concepts := st_total_key_concepts st;
              bd_preprocessing_changes :=
                (TextPreprocessor.corrections (st_model_preprocessed st),
                 TextPreprocessor.corrections (st_student_preprocessed st));
              bd_technical_terms_found :=
                ContextAnalyzer.technical_terms (st_student_analysis st);
              bd_scoring_breakdown :=
                ScoringAlgorithm.breakdown scoring_result |}
    else None in
  {| similarity := final_similarity;
     score := final_score;
     confidence := final_confidence;
     needs_review := needs_review;
     fallback := false;
     message := NoMessage;
     breakdown := breakdown |}.

Definition enhanced_evaluate (model_answer student_answer : string)
    (detailed : bool) : Mon Response :=
  let! st := run_stages model_answer student_answer in
  ret (build_response st detailed).

(** The stage names recorded by a complete run of [enhanced_evaluate]. *)
Definition stage_names : list string :=
  ["preprocessing"; "context_analysis"; "ensemble_evaluation"; "scoring"].

Definition simple_similarity (text1 text2 : string) : Q :=
  if is_empty text1 || is_empty text2 then 0.0
  else
    let words1 : gset string := list_to_set (split (lower text1)) in
    let words2 : gset string := list_to_set (split (lower text2)) in
    let words1 := filter (fun w => (3 < String.length w)%nat) words1 in
    let words2 := filter (fun w => (3 < String.length w)%nat) words2 in
    if bool_decide (words1 = ∅) || bool_decide (words2 = ∅) then 0.0
    else
      let intersection := words1 ∩ words2 in
      let union := words1 ∪ words2 in
      if bool_decide (union = ∅) then 0.0
      else of_nat (size intersection) / of_nat (size union).

Section Endpoint.

(** The sentence-embedding model is outside the repository: [model] is
    [None] when it failed to load, else the cosine similarity of the two
    encodings, which may raise.  [enhanced_mode_available] stands for the
    test [enhanced_mode_available and ensemble_evaluator and
    scoring_algorithm] on the objects built when the module is loaded. *)
Variable model : option (string -> string -> result Q).
Variable enhanced_mode_available : bool.

Definition basic_evaluate (model_answer student_answer : string)
  : result Response :=
  match model with
  | None =>
      let similarity := simple_similarity model_answer student_answer in
      let score := round (similarity * 6) 2 in
      Ok {| similarity := round similarity 4; score := score;
            confidence := 0.5; needs_review := true; fallback := true;
            message := NoMessage; breakdown := None |}
  | Some cos_sim =>
      let* similarity := cos_sim model_answer student_answer in
      let score := round (similarity * 6) 2 in
      let score := Qmax 0.0 (Qmin 6.0 score) in
      let similarity := Qmax 0.0 (Qmin 1.0 similarity) in
      Ok {| similarity := round similarity 4; score := score;
            confidence := 0.8; needs_review := false; fallback := true;
            message := NoMessage; breakdown := None |}
  end.

(** The handler of [/evaluate], from the two texts of the request on. *)
Definition evaluate (raw_model_answer raw_student_answer : string)
    (detailed : bool) (log : list string) : Response * list string :=
  let model_answer := strip raw_model_answer in
  let student_answer := strip raw_student_answer in
  if is_empty model_answer then
    ({| similarity := 0.0; score := 0.0; confidence := 0.0;
        needs_review := true; fallback := false;
        message := ErrorText "Empty model answer"; breakdown := None |},
     log)
  else if is_empty student_answer then
    ({| similarity := 0.0; score := 0.0; confidence := 1.0;
        needs_review := false; fallback := false;
        message := Note "No student answer provided"; breakdown := None |},
     log)
  else
    let attempt : Mon Response :=
      let enhanced : Mon (option Response) :=
        if enhanced_mode_available then
          fun log =>
            match enhanced_evaluate model_answer student_answer detailed log
            with
            | (Ok r, log') => (Ok (Some r), log' ++ ["total"])
            | (Raise _, log') => (Ok None, log')
            end
        else ret None in
      let! done := enhanced in
      match done with
      | Some r => ret r
      | None =>
          let! r := lift (basic_evaluate model_answer student_answer) in
          let! _ := record_evaluation_time "total" in
          ret r
      end in
    match attempt log with
    | (Ok r, log') => (r, log')
    | (Raise e, log') =>
        let similarity :=
          simple_similarity raw_model_answer raw_student_answer in
        let score := round (similarity * 6) 2 in
        ({| similarity := round similarity 4; score := score;
            confidence := 0.5; needs_review := true; fallback := true;
            message := ErrorOf e; breakdown := None |},
         log')
    end.

End Endpoint.

End Service.

(** ** validation_framework.py *)

Module ValidationFramework.
Import PyStr PyNum.
Local Open Scope Q_scope.

(** [self.validation_rules] *)
Definition score_range : Q * Q := (0.0, 1.0).
Definition min_text_length : Z := 1.
Definition max_text_length : Z := 10000.

(** [len(text)] *)
Definition len (text : string) : Z := Z.of_nat (String.length text).

(** The two error messages; the first one is formatted from the score and
    the range. *)
Inductive ValidationError : Type :=
| ScoreOutsideRange (score : Q) (range : Q * Q)
| StudentAnswerEmpty.

Record ValidationResults : Type := mkValidationResults {
  is_valid : bool;
  errors : list ValidationError;
  warnings : list string
}.

Definition _validate_score_range (score : Q) : bool :=
  let '(min_score, max_score) := score_range in
  Qle_bool min_score score && Qle_bool score max_score.

Definition _validate_text_length (text : string) : bool :=
  if is_empty text then false
  else
    let length := len text in
    let min_length := min_text_length in
    let max_length := max_text_length in
    ((min_length <=? length) && (length <=? max_length))%Z.

Definition set_invalid (r : ValidationResults) : ValidationResults :=
  {| is_valid := false; errors := errors r; warnings := warnings r |}.

Definition add_error (e : ValidationError) (r : ValidationResults)
  : ValidationResults :=
  {| is_valid := is_valid r; errors := errors r ++ [e];
     warnings := warnings r |}.

Definition add_warning (w : string) (r : ValidationResults)
  : ValidationResults :=
  {| is_valid := is_valid r; errors := errors r;
     warnings := warnings r ++ [w] |}.

(** [validate]; an argument left at its default [None] is [None]. *)
Definition validate (score : Q) (model_answer student_answer : option string)
  : ValidationResults :=
  let validation_results :=
    {| is_valid := true; errors := []; warnings := [] |} in
  let validation_results :=
    if negb (_validate_score_range score)
    then add_error (ScoreOutsideRange score score_range)
           (set_invalid validation_results)
    else validation_results in
  let validation_results :=
    match model_answer with
    | Some model_answer =>
        if negb (_validate_text_length model_answer)
        then add_warning "Model answer length is outside recommended range"
               validation_results
        else validation_results
    | None => validation_results
    end in
  let validation_results :=
    match student_answer with
    | Some student_answer =>
        let validation_results :=
          if negb (_validate_text_length student_answer)
          then add_warning
                 "Student answer length is outside recommended range"
                 validation_results
          else validation_results in
        if is_empty (strip student_answer)
        then add_error StudentAnswerEmpty (set_invalid validation_results)
        else validation_results
    | None => validation_results
    end in
  validation_results.

(** A Python value as the input checks see it: a text or something else. *)
Inductive Value : Type :=
| Str (s : string)
| NotStr.

(** The request body: a dict with text keys, or something else. *)
Inductive Data : Type :=
| Dict (d : gmap string Value)
| NotDict.

Definition required_fields : list string := ["model_answer"; "student_answer"].

(** The loop of [validate_input_format] over [required_fields]. *)
Fixpoint check_fields (fields : list string) (d : gmap string Value)
  : bool * string :=
  match fields with
  | [] => (true, "Valid input format")
  | field :: rest =>
      match d !! field with
      | None => (false, String.append "Missing required field: " field)
      | Some NotStr =>
          (false,
           String.append "Field " (String.append field " must be a string"))
      | Some (Str _) => check_fields rest d
      end
  end.

Definition validate_input_format (data : Data) : bool * string :=
  match data with
  | NotDict => (false, "Input must be a dictionary")
  | Dict d => check_fields required_fields d
  end.



End ValidationFramework.

(** ** accuracy_monitor.py *)

Module AccuracyMonitor.
Import PyNum.
Local Open Scope Q_scope.

(** [deque(maxlen=...).append(x)]: nothing is stored when [maxlen] is 0,
    and the oldest element leaves when the deque was full. *)
Definition deque_append {A : Type} (maxlen : nat) (d : list A) (x : A)
  : list A :=
  if (maxlen =? 0)%nat then d
  else
    let d := d ++ [x] in
    if (maxlen <? length d)%nat then tl d else d.

Record Monitor : Type := mkMonitor {
  window_size : nat;
  scores : list Q;
  timestamps : list Q;
  confidence_scores : list Q
}.

(** [AccuracyMonitor(window_size)] *)
Definition init (window_size : nat) : Monitor :=
  {| window_size := window_size; scores := []; timestamps := [];
     confidence_scores := [] |}.

Record Statistics : Type := mkStatistics {
  count : nat;
  average_score : Q;
  min_score : Q;
  max_score : Q;
  average_confidence : Q;
  score_variance : Q;
  reported_window_size : option nat
}.

(** [min(l)] and [max(l)]: the first element is replaced by a strictly
    smaller (greater) one. *)
Definition py_min (l : list Q) : result Q :=
  match l with
  | [] => Raise ValueError
  | x :: rest =>
      Ok (fold_left (fun best y => if Qltb y best then y else best) rest x)
  end.

Definition py_max (l : list Q) : result Q :=
  match l with
  | [] => Raise ValueError
  | x :: rest =>
      Ok (fold_left (fun best y => if Qgtb y best then y else best) rest x)
  end.

Definition get_statistics (m : Monitor) : result Statistics :=
  match scores m with
  | [] =>
      Ok {| count := 0; average_score := 0.0; min_score := 0.0;
            max_score := 0.0; average_confidence := 0.0;
            score_variance := 0.0; reported_window_size := None |}
  | _ :: _ =>
      let scores_list := scores m in
      let confidence_list := confidence_scores m in
      let* avg_score := truediv (sum scores_list) (of_nat (length scores_list)) in
      let* avg_confidence :=
        truediv (sum confidence_list) (of_nat (length confidence_list)) in
      let* variance :=
        truediv (sum (map (fun score => (score - avg_score) ^ 2) scores_list))
                (of_nat (length scores_list)) in
      let* lowest := py_min scores_list in
      let* highest := py_max scores_list in
      Ok {| count := length scores_list;
            average_score := round avg_score 4;
            min_score := round lowest 4;
            max_score := round highest 4;
            average_confidence := round avg_confidence 4;
            score_variance := round variance 4;
            reported_window_size := Some (window_size m) |}
  end.

(** [monitor]; [current_time] is the reading of [time.time()]. *)
Definition monitor (current_time : Q) (score confidence : Q) (m : Monitor)
  : result Statistics * Monitor :=
  let m :=
    {| window_size := window_size m;
       scores := deque_append (window_size m) (scores m) score;
       timestamps := deque_append (window_size m) (timestamps m) current_time;
       confidence_scores :=
         deque_append (window_size m) (confidence_scores m) confidence |} in
  (get_statistics m, m).

(** A slice bound [i] on a list of length [len]: a negative bound counts
    from the end, and bounds outside the list are clipped. *)
Definition slice_bound (len i : Z) : nat :=
  Z.to_nat (if (i <? 0)%Z then Z.max 0 (len + i) else Z.min i len).

(** [l[start:]] *)
Definition slice_from {A : Type} (l : list A) (start : Z) : list A :=
  skipn (slice_bound (Z.of_nat (length l)) start) l.

(** [l[:stop]] *)
Definition slice_to {A : Type} (l : list A) (stop : Z) : list A :=
  firstn (slice_bound (Z.of_nat (length l)) stop) l.

Definition get_recent_trend (n : Z) (m : Monitor) : result string :=
  if (Z.of_nat (length (scores m)) <? n)%Z then Ok "insufficient_data"
  else
    let recent_scores := slice_from (scores m) (- n) in
    let first_half := slice_to recent_scores (n / 2) in
    let second_half := slice_from recent_scores (n / 2) in
    let* avg_first := truediv (sum first_half) (of_nat (length first_half)) in
    let* avg_second :=
      truediv (sum second_half) (of_nat (length second_half)) in
    if Qgtb avg_second (avg_first + 0.05) then Ok "improving"
    else if Qltb avg_second (avg_first - 0.05) then Ok "declining"
    else Ok "stable".

Definition reset (m : Monitor) : Monitor :=
  {| window_size := window_size m; scores := []; timestamps := [];
     confidence_scores := [] |}.

End AccuracyMonitor.

(** ** The specification's wording, for comparison with the code *)

Module SpecWords.
Import PyStr PyNum.
Local Open Scope Q_scope.

(** Number of keywords of a domain that occur in the lowercased text. *)
Definition hit_count (text_lower : string) (keywords : list string) : nat :=
  length (List.filter (fun keyword => contains keyword text_lower) keywords).

(** The hit count of every domain, in table order. *)
Definition domain_hits (text : string) : list (string * nat) :=
  map (fun entry => (fst entry, hit_count (lower text) (snd entry)))
      ContextAnalyzer.technical_keywords.

(** The text is empty or consists of whitespace only. *)
Fixpoint blank (s : string) : bool :=
  match s with
  | EmptyString => true
  | String c s' => isspace c && blank s'
  end.

(** A word character, a period or a comma: what normalization keeps
    besides whitespace. *)
Definition is_content (c : ascii) : bool :=
  isword c || Ascii.eqb c "." || Ascii.eqb c ",".

(** The text has at least one word character, period or comma. *)
Fixpoint has_content (s : string) : bool :=
  match s with
  | EmptyString => false
  | String c s' => is_content c || has_content s'
  end.

(** Every character of the text satisfies [p]. *)
Fixpoint all_chars (p : ascii -> bool) (s : string) : bool :=
  match s with
  | EmptyString => true
  | String c s' => p c && all_chars p s'
  end.

(** The text does not start with whitespace. *)
Definition starts_nonspace (s : string) : bool :=
  match s with
  | EmptyString => true
  | String c _ => negb (isspace c)
  end.

(** The character is its own lowercase. *)
Definition is_lowered (c : ascii) : bool := Ascii.eqb (lower_char c) c.

(** The character is the space or is no whitespace at all. *)
Definition is_plain (c : ascii) : bool := negb (isspace c) || Ascii.eqb c " ".

(** No two spaces are adjacent in the text. *)
Fixpoint single_spaced (s : string) : bool :=
  match s with
  | EmptyString => true
  | String c s' =>
      match s' with
      | EmptyString => true
      | String c' _ =>
          negb (Ascii.eqb c " " && Ascii.eqb c' " ") && single_spaced s'
      end
  end.

(** Score-stage confidence as the specification words it: base 0.7, the two
    exclusive boosts, the two penalties, then the clamp to [0.3, 1.0]. *)
Definition score_stage_confidence
    (ensemble_score concept_coverage : Q)
    (key_concepts_present total_key_concepts : Z) : Q :=
  let boost :=
    if Qgtb concept_coverage 0.8 then 0.2
    else if Qgtb concept_coverage 0.6 then 0.1 else 0 in
  let low_score_penalty := if Qltb ensemble_score 0.3 then 0.2 else 0 in
  let no_concept_penalty :=
    if (key_concepts_present =? 0)%Z && (0 <? total_key_concepts)%Z
    then 0.3 else 0 in
  let raw := 0.7 + boost - low_score_penalty - no_concept_penalty in
  if Qltb raw 0.3 then 0.3 else if Qltb 1.0 raw then 1.0 else raw.

(** The values that reach the final scoring stage satisfy its
    preconditions, and the stage returned the recorded result. *)
Definition stages_sound (st : Service.Stages) : Prop :=
  ScoringAlgorithm.calculate_final_score
    (Service.st_ensemble_score st) (Service.st_concept_coverage st)
    (Service.st_key_concepts_present st) (Service.st_total_key_concepts st)
    = Ok (Service.st_scoring_result st)
  /\ 0 <= Service.st_ensemble_score st <= 1
  /\ 0 <= Service.st_ensemble_confidence st <= 1
  /\ 0 <= Service.st_concept_coverage st <= 1
  /\ (0 <= Service.st_key_concepts_present st
      <= Service.st_total_key_concepts st)%Z.

(** The two immediate results of the endpoint. *)
Definition empty_reference_response : Service.Response :=
  {| Service.similarity := 0.0; Service.score := 0.0;
     Service.confidence := 0.0;
     Service.needs_review := true; Service.fallback := false;
     Service.message := Service.ErrorText "Empty model answer";
     Service.breakdown := None |}.

Definition empty_candidate_response : Service.Response :=
  {| Service.similarity := 0.0; Service.score := 0.0;
     Service.confidence := 1.0;
     Service.needs_review := false; Service.fallback := false;
     Service.message := Service.Note "No student answer provided";
     Service.breakdown := None |}.

End SpecWords.

(** ** Further predicates for the statements *)

Module Shapes.
Import PyStr.

(** The text has a one-character word: a word character with no word
    character next to it; [prev_word] tells that the character before the
    text is a word character. *)
Fixpoint has_single_from (prev_word : bool) (s : string) : bool :=
  match s with
  | EmptyString => false
  | String c s' =>
      (isword c && negb prev_word && negb (starts_word s'))
      || has_single_from (isword c) s'
  end.

Definition has_single (s : string) : bool := has_single_from false s.

(** The text has a decimal digit. *)
Fixpoint has_digit (s : string) : bool :=
  match s with
  | EmptyString => false
  | String c s' => isdecimal c || has_digit s'
  end.

(** Number of the errors of a list whose type has the given name. *)
Definition count_of_type (name : string) (errors : list (exn * string)) : nat :=
  length (List.filter
            (fun e => String.eqb (ErrorHandler.exn_name (fst e)) name) errors).


(** The last [n] elements of a list, or all of it. *)
Definition last_n {A : Type} (n : nat) (l : list A) : list A :=
  skipn (length l - n) l.

(** The monitor after a run of [monitor] calls, one for every triple of a
    clock reading, a score and a confidence. *)
Definition monitor_all (inputs : list (Q * Q * Q)) (m : AccuracyMonitor.Monitor)
  : AccuracyMonitor.Monitor :=
  fold_left
    (fun m input =>
       snd (AccuracyMonitor.monitor (fst (fst input)) (snd (fst input))
                                    (snd input) m))
    inputs m.


(** A run of [handle_error] calls, one per error, with the reports in the
    order of the calls. *)
Fixpoint handle_errors (errors : list (exn * string))
    (error_counts : gmap string nat)
  : list ErrorHandler.ErrorReport * gmap string nat :=
  match errors with
  | [] => ([], error_counts)
  | (error, context) :: rest =>
      let '(report, error_counts) :=
        ErrorHandler.handle_error error context error_counts in
      let '(reports, error_counts) := handle_errors rest error_counts in
      (report :: reports, error_counts)
  end.

End Shapes.

(* ================================================================== *)
(** * Properties *)
(* ================================================================== *)

Section Examples.
Import PyStr PyNum.

Example split_words :
  split "  the quick  brown fox " = ["the"; "quick"; "brown"; "fox"].
Proof. reflexivity. Qed.

Example split_on_period :
  split_on "." "a. b..c." = ["a"; " b"; ""; "c"; ""]
  /\ split_on "." "" = [""].
Proof. split; reflexivity. Qed.

Example strip_both_ends : strip "  a b  " = "a b".
Proof. reflexivity. Qed.

Example contains_substring :
  contains "rit" "algorithm" = true /\ contains "rim" "algorithm" = false
  /\ contains "" "" = true.
Proof. repeat split. Qed.

Example preprocess_greeting :
  TextPreprocessor.preprocess "  Hello,   World!!  " =
  {| TextPreprocessor.normalized_text := "hello, world";
     TextPreprocessor.corrections :=
       ["Converted to lowercase"; "Normalized whitespace";
        "Removed special punctuation"];
     TextPreprocessor.preserved_terms := [] |}.
Proof. reflexivity. Qed.

Example round_ties_to_even :
  (round 0.125 2 == 0.12 /\ round 0.135 2 == 0.14 /\ round 2.295 2 == 2.3)%Q.
Proof. repeat split. Qed.

Example int_truncates : int (7 # 2) = 3%Z /\ int (- (7 # 2)) = (-3)%Z.
Proof. split; reflexivity. Qed.

Example var_of_signals : (var [0; 0; 1; 1] == 0.25)%Q.
Proof. reflexivity. Qed.

End Examples.

Section NumericFacts.
Import PyNum.
Local Open Scope Q_scope.

Lemma Qltb_lt (a b : Q) : Qltb a b = true <-> a < b.
Proof.
  unfold Qltb. rewrite negb_true_iff.
  split; intros H.
  - apply Qnot_le_lt. intros Hle. apply Qle_bool_iff in Hle. congruence.
  - apply not_true_is_false. intros Hle. apply Qle_bool_iff in Hle. lra.
Qed.

Lemma Qltb_ge (a b : Q) : Qltb a b = false <-> b <= a.
Proof.
  unfold Qltb. rewrite negb_false_iff. apply Qle_bool_iff.
Qed.

Lemma Qmin_cases (a b : Q) :
  (a <= b /\ Qmin a b = a) \/ (b < a /\ Qmin a b = b).
Proof.
  unfold Qmin, GenericMinMax.gmin.
  destruct (a ?= b) eqn:E.
  - left. split; [apply Qeq_alt in E; lra | reflexivity].
  - left. split; [apply Qlt_alt in E; lra | reflexivity].
  - right. split; [apply Qgt_alt in E; lra | reflexivity].
Qed.

Lemma Qmax_cases (a b : Q) :
  (b <= a /\ Qmax a b = a) \/ (a < b /\ Qmax a b = b).
Proof.
  unfold Qmax, GenericMinMax.gmax.
  destruct (a ?= b) eqn:E.
  - left. split; [apply Qeq_alt in E; lra | reflexivity].
  - right. split; [apply Qlt_alt in E; lra | reflexivity].
  - left. split; [apply Qgt_alt in E; lra | reflexivity].
Qed.

End NumericFacts.

Section DivisionFacts.
Import PyNum ScoringAlgorithm.
Local Open Scope Q_scope.

Lemma Qgtb_gt (a b : Q) : Qgtb a b = true <-> b < a.
Proof. apply Qltb_lt. Qed.

Lemma Qgtb_le (a b : Q) : Qgtb a b = false <-> a <= b.
Proof. apply Qltb_ge. Qed.

Lemma truediv_ok (a b : Q) : ~ b == 0 -> truediv a b = Ok (a / b).
Proof.
  intros Hb. unfold truediv.
  destruct (Qeq_bool b 0) eqn:E; [|reflexivity].
  apply Qeq_bool_iff in E. contradiction.
Qed.

Lemma truediv_zero (a b : Q) : b == 0 -> truediv a b = Raise ZeroDivisionError.
Proof.
  intros Hb. unfold truediv.
  apply Qeq_bool_iff in Hb. now rewrite Hb.
Qed.

Lemma inject_Z_pos (z : Z) : (0 < z)%Z -> 0 < inject_Z z.
Proof. intros H. change 0 with (inject_Z 0). now rewrite <- Zlt_Qlt. Qed.

(** The ratio of the partial credit is at most one when the concepts found
    do not exceed the concepts expected. *)
Lemma ratio_le_1 (k t : Z) :
  (0 < k)%Z -> (k <= t)%Z -> inject_Z k / inject_Z t <= 1.
Proof.
  intros Hk Hkt.
  assert (Ht : 0 < inject_Z t) by (apply inject_Z_pos; lia).
  apply Qle_shift_div_r; [exact Ht|].
  rewrite Qmult_1_l. now rewrite <- Zle_Qle.
Qed.

End DivisionFacts.

(** Case analysis on every [Qmin]/[Qmax] and float comparison in sight. *)
Ltac case_Qminmax :=
  repeat match goal with
  | |- context [Qmin ?a ?b] =>
      let E := fresh "E" in
      destruct (Qmin_cases a b) as [[? E]|[? E]]; rewrite E in *; clear E
  | |- context [Qmax ?a ?b] =>
      let E := fresh "E" in
      destruct (Qmax_cases a b) as [[? E]|[? E]]; rewrite E in *; clear E
  end.

Ltac case_Qcompare :=
  repeat match goal with
  | |- context [PyNum.Qltb ?a ?b] =>
      let E := fresh "E" in
      destruct (PyNum.Qltb a b) eqn:E;
      [apply Qltb_lt in E | apply Qltb_ge in E]
  | |- context [PyNum.Qgtb ?a ?b] =>
      let E := fresh "E" in
      destruct (PyNum.Qgtb a b) eqn:E;
      [apply Qgtb_gt in E | apply Qgtb_le in E]
  end.

Section RatioFacts.
Import PyNum.
Local Open Scope Q_scope.

Lemma of_nat_pos (n : nat) : (0 < n)%nat -> 0 < of_nat n.
Proof. intros H. apply inject_Z_pos. lia. Qed.

Lemma of_nat_nonneg (n : nat) : 0 <= of_nat n.
Proof.
  unfold of_nat. change 0 with (inject_Z 0). rewrite <- Zle_Qle. lia.
Qed.

Lemma of_nat_le (n m : nat) : (n <= m)%nat -> of_nat n <= of_nat m.
Proof. intros H. unfold of_nat. rewrite <- Zle_Qle. lia. Qed.

(** A count divided by a positive count that bounds it. *)
Lemma truediv_counts (n m : nat) :
  (n <= m)%nat -> (0 < m)%nat ->
  truediv (of_nat n) (of_nat m) = Ok (of_nat n / of_nat m)
  /\ 0 <= of_nat n / of_nat m <= 1.
Proof.
  intros Hnm Hm.
  pose proof (of_nat_pos m Hm) as Hp.
  pose proof (of_nat_nonneg n) as Hn.
  pose proof (of_nat_le n m Hnm) as Hle.
  split; [apply truediv_ok; lra|]. split.
  - apply Qle_shift_div_l; [exact Hp | lra].
  - apply Qle_shift_div_r; [exact Hp | lra].
Qed.

Lemma ratio_self (n : nat) : (0 < n)%nat -> of_nat n / of_nat n == 1.
Proof. intros H. pose proof (of_nat_pos n H). field. lra. Qed.

Lemma fold_left_Qplus_ge (l : list Q) (acc : Q) :
  Forall (fun x => 0 <= x) l -> acc <= fold_left Qplus l acc.
Proof.
  intros H. revert acc.
  induction H as [|x l Hx _ IH]; intros acc; cbn [fold_left]; [lra|].
  specialize (IH (acc + x)). lra.
Qed.

Lemma Qsquare_nonneg (x : Q) : 0 <= x * x.
Proof.
  destruct (Qlt_le_dec x 0) as [Hneg|Hpos].
  - assert (E : x * x == (- x) * (- x)) by ring.
    rewrite E. apply Qmult_le_0_compat; lra.
  - apply Qmult_le_0_compat; lra.
Qed.

Lemma var_nonneg (l : list Q) : 0 <= var l.
Proof.
  unfold var.
  set (mean := PyNum.sum l / of_nat (length l)).
  assert (Hs : 0 <= PyNum.sum (map (fun x => (x - mean) * (x - mean)) l)).
  { apply fold_left_Qplus_ge. apply List.Forall_forall. intros y Hy.
    apply in_map_iff in Hy as (x & <- & _). apply Qsquare_nonneg. }
  destruct (length l) as [|n] eqn:E.
  - unfold Qdiv. change (/ of_nat 0) with 0. lra.
  - apply Qle_shift_div_l; [apply of_nat_pos; lia | lra].
Qed.

End RatioFacts.

Section StringFacts.
Import PyStr SpecWords.

Ltac by_cases_on_char c :=
  destruct c as [[] [] [] [] [] [] [] []]; reflexivity.

Lemma isspace_lower_char (c : ascii) : isspace (lower_char c) = isspace c.
Proof. by_cases_on_char c. Qed.

Lemma is_content_lower_char (c : ascii) :
  is_content (lower_char c) = is_content c.
Proof. by_cases_on_char c. Qed.

Lemma lower_char_idempotent (c : ascii) :
  lower_char (lower_char c) = lower_char c.
Proof. by_cases_on_char c. Qed.

Lemma is_kept_split (c : ascii) : is_kept c = is_content c || isspace c.
Proof. by_cases_on_char c. Qed.

Lemma content_not_space (c : ascii) :
  is_content c = true -> isspace c = false.
Proof.
  destruct c as [[] [] [] [] [] [] [] []]; vm_compute; intros H;
    first [reflexivity | discriminate H].
Qed.

Lemma strip_blank (s : string) : is_empty (strip s) = blank s.
Proof.
  unfold strip. induction s as [|c s IH]; [reflexivity|].
  cbn [lstrip blank]. destruct (isspace c) eqn:E; [exact IH|].
  cbn [rstrip]. now rewrite E.
Qed.

Lemma blank_lower (s : string) : blank (lower s) = blank s.
Proof.
  induction s as [|c s IH]; [reflexivity|].
  cbn [lower blank]. now rewrite isspace_lower_char, IH.
Qed.

Lemma blank_not_empty (s : string) : blank s = false -> is_empty s = false.
Proof. destruct s; [discriminate | reflexivity]. Qed.

(** [s.split()] is empty exactly for a blank text. *)
Lemma split_scan_blank (s : string) :
  blank s = (is_empty (fst (split_scan s))
             && bool_decide (snd (split_scan s) = [])).
Proof.
  induction s as [|c s IH]; [reflexivity|].
  cbn [split_scan blank].
  destruct (split_scan s) as [w ws]. cbn [fst snd] in IH.
  destruct (isspace c); cbn [fst snd andb is_empty].
  - rewrite IH. unfold cons_nonempty.
    destruct (is_empty w); [reflexivity|].
    cbn [andb]. symmetry. apply bool_decide_eq_false_2. discriminate.
  - reflexivity.
Qed.

Lemma split_blank (s : string) : bool_decide (split s = []) = blank s.
Proof.
  rewrite split_scan_blank. unfold split, cons_nonempty.
  destruct (split_scan s) as [w ws]. cbn [fst snd].
  destruct (is_empty w); [reflexivity|].
  cbn [andb]. apply bool_decide_eq_false_2. discriminate.
Qed.

Lemma split_nonempty (s : string) : blank s = false -> split s <> [].
Proof.
  intros Hb Hnil. rewrite <- split_blank in Hb.
  now apply bool_decide_eq_false in Hb.
Qed.

Lemma not_content_of_space (c : ascii) :
  isspace c = true -> is_content c = false.
Proof.
  intros Hs. destruct (is_content c) eqn:E; [|reflexivity].
  apply content_not_space in E. congruence.
Qed.

Lemma blank_lstrip (s : string) : blank (lstrip s) = blank s.
Proof.
  induction s as [|c s IH]; [reflexivity|].
  cbn [lstrip]. destruct (isspace c) eqn:E; [|reflexivity].
  cbn [blank]. now rewrite E.
Qed.

Lemma blank_rstrip (s : string) : blank (rstrip s) = blank s.
Proof.
  induction s as [|c s IH]; [reflexivity|].
  cbn [rstrip blank]. destruct (isspace c) eqn:E; cbn [andb].
  - destruct (rstrip s) as [|c' r] eqn:Er; cbn [is_empty].
    + now rewrite <- IH.
    + cbn [blank]. now rewrite E, <- IH.
  - cbn [blank]. now rewrite E.
Qed.

Lemma blank_strip (s : string) : blank (strip s) = blank s.
Proof. unfold strip. now rewrite blank_rstrip, blank_lstrip. Qed.

Lemma has_content_not_blank (s : string) :
  has_content s = true -> blank s = false.
Proof.
  induction s as [|c s IH]; [discriminate|].
  cbn [has_content blank]. intros H.
  destruct (is_content c) eqn:E.
  - now rewrite (content_not_space c E).
  - rewrite (IH H). apply andb_false_r.
Qed.

Lemma has_content_lstrip (s : string) : has_content (lstrip s) = has_content s.
Proof.
  induction s as [|c s IH]; [reflexivity|].
  cbn [lstrip]. destruct (isspace c) eqn:E; [|reflexivity].
  cbn [has_content]. now rewrite (not_content_of_space c E).
Qed.

Lemma has_content_rstrip (s : string) : has_content (rstrip s) = has_content s.
Proof.
  induction s as [|c s IH]; [reflexivity|].
  cbn [rstrip has_content]. destruct (isspace c) eqn:E; cbn [andb].
  - rewrite (not_content_of_space c E). cbn [orb].
    destruct (rstrip s) as [|c' r] eqn:Er; cbn [is_empty].
    + now rewrite <- IH.
    + cbn [has_content] in *.
      now rewrite (not_content_of_space c E), IH.
  - cbn [has_content]. now rewrite IH.
Qed.

Lemma has_content_strip (s : string) : has_content (strip s) = has_content s.
Proof. unfold strip. now rewrite has_content_rstrip, has_content_lstrip. Qed.

Lemma has_content_lower (s : string) : has_content (lower s) = has_content s.
Proof.
  induction s as [|c s IH]; [reflexivity|].
  cbn [lower has_content]. now rewrite is_content_lower_char, IH.
Qed.

Lemma has_content_sub_whitespace_from (in_run : bool) (s : string) :
  has_content (sub_whitespace_from in_run s) = has_content s.
Proof.
  revert in_run. induction s as [|c s IH]; intros in_run; [reflexivity|].
  cbn [sub_whitespace_from has_content]. destruct (isspace c) eqn:E.
  - rewrite (not_content_of_space c E).
    destruct in_run; cbn [has_content orb]; apply IH.
  - cbn [has_content]. now rewrite IH.
Qed.

Lemma has_content_sub_special (s : string) :
  has_content (sub_special s) = has_content s.
Proof.
  induction s as [|c s IH]; [reflexivity|].
  cbn [sub_special has_content]. rewrite is_kept_split.
  destruct (is_content c) eqn:E; cbn [orb].
  - cbn [has_content]. now rewrite E.
  - destruct (isspace c); [cbn [has_content]; now rewrite E|exact IH].
Qed.

(** After the removal of special characters a text is blank exactly when
    it has no content. *)
Lemma blank_sub_special (s : string) :
  blank (sub_special s) = negb (has_content (sub_special s)).
Proof.
  induction s as [|c s IH]; [reflexivity|].
  cbn [sub_special]. rewrite is_kept_split.
  destruct (is_content c) eqn:E; cbn [orb].
  - cbn [blank has_content]. now rewrite E, (content_not_space c E).
  - destruct (isspace c) eqn:Es; [|exact IH].
    cbn [blank has_content]. now rewrite E, Es.
Qed.

(** The normalized text is empty exactly when the text has no word
    character, period or comma; it is never blank without being empty. *)
Lemma normalized_text_blank (t : string) :
  let n := TextPreprocessor.normalized_text (TextPreprocessor.preprocess t) in
  blank n = negb (has_content t) /\ is_empty n = negb (has_content t).
Proof.
  cbv zeta. unfold TextPreprocessor.preprocess.
  destruct (is_empty t) eqn:Et.
  { destruct t; [split; reflexivity | discriminate]. }
  cbn [TextPreprocessor.normalized_text].
  rewrite blank_strip, strip_blank, blank_sub_special,
    has_content_sub_special.
  unfold sub_whitespace.
  rewrite has_content_sub_whitespace_from, has_content_lower.
  split; reflexivity.
Qed.

End StringFacts.

Section PreprocessFacts.
Import PyStr SpecWords TextPreprocessor.

Ltac by_cases_on_char c :=
  destruct c as [[] [] [] [] [] [] [] []]; reflexivity.

Lemma is_lowered_lower_char (c : ascii) : is_lowered (lower_char c) = true.
Proof. by_cases_on_char c. Qed.

Lemma is_kept_lower_char (c : ascii) : is_kept (lower_char c) = is_kept c.
Proof. by_cases_on_char c. Qed.

Lemma plain_space_is_space (c : ascii) :
  is_plain c = true -> isspace c = Ascii.eqb c " ".
Proof.
  destruct c as [[] [] [] [] [] [] [] []]; vm_compute; intros H;
    first [reflexivity | discriminate H].
Qed.

(** *** Characters that survive the steps *)

Lemma all_chars_lstrip (p : ascii -> bool) (s : string) :
  all_chars p s = true -> all_chars p (lstrip s) = true.
Proof.
  induction s as [|c s IH]; [reflexivity|].
  cbn [lstrip]. destruct (isspace c); [|trivial].
  cbn [all_chars]. intros H. apply andb_prop in H as [_ H]. auto.
Qed.

Lemma all_chars_rstrip (p : ascii -> bool) (s : string) :
  all_chars p s = true -> all_chars p (rstrip s) = true.
Proof.
  induction s as [|c s IH]; [reflexivity|].
  cbn [rstrip all_chars]. intros H. apply andb_prop in H as [Hc H].
  destruct (isspace c && is_empty (rstrip s)); [reflexivity|].
  cbn [all_chars]. now rewrite Hc, IH.
Qed.

Lemma all_chars_strip (p : ascii -> bool) (s : string) :
  all_chars p s = true -> all_chars p (strip s) = true.
Proof. intros H. now apply all_chars_rstrip, all_chars_lstrip. Qed.

Lemma all_chars_sub_special (p : ascii -> bool) (s : string) :
  all_chars p s = true -> all_chars p (sub_special s) = true.
Proof.
  induction s as [|c s IH]; [reflexivity|].
  cbn [sub_special all_chars]. intros H. apply andb_prop in H as [Hc H].
  destruct (is_kept c); [|auto]. cbn [all_chars]. now rewrite Hc, IH.
Qed.

Lemma all_chars_sub_whitespace_from (p : ascii -> bool) (in_run : bool)
    (s : string) :
  p " "%char = true ->
  all_chars (fun c => isspace c || p c) s = true ->
  all_chars p (sub_whitespace_from in_run s) = true.
Proof.
  intros Hsp. revert in_run.
  induction s as [|c s IH]; intros in_run; [reflexivity|].
  cbn [sub_whitespace_from all_chars]. intros H.
  apply andb_prop in H as [Hc H].
  destruct (isspace c) eqn:E.
  - destruct in_run; [auto|]. cbn [all_chars]. now rewrite Hsp, IH.
  - cbn [orb] in Hc. cbn [all_chars]. now rewrite Hc, IH.
Qed.

Lemma all_chars_weaken (p q : ascii -> bool) (s : string) :
  (forall c, p c = true -> q c = true) ->
  all_chars p s = true -> all_chars q s = true.
Proof.
  intros Hpq. induction s as [|c s IH]; [reflexivity|].
  cbn [all_chars]. intros H. apply andb_prop in H as [Hc H].
  now rewrite (Hpq c Hc), IH.
Qed.

Lemma all_lowered_lower (s : string) : all_chars is_lowered (lower s) = true.
Proof.
  induction s as [|c s IH]; [reflexivity|].
  cbn [lower all_chars]. now rewrite is_lowered_lower_char, IH.
Qed.

Lemma all_kept_sub_special (s : string) :
  all_chars is_kept (sub_special s) = true.
Proof.
  induction s as [|c s IH]; [reflexivity|].
  cbn [sub_special]. destruct (is_kept c) eqn:E; [|exact IH].
  cbn [all_chars]. now rewrite E, IH.
Qed.

Lemma all_plain_sub_whitespace_from (in_run : bool) (s : string) :
  all_chars is_plain (sub_whitespace_from in_run s) = true.
Proof.
  apply all_chars_sub_whitespace_from; [reflexivity|].
  induction s as [|c s IH]; [reflexivity|].
  cbn [all_chars]. rewrite IH. unfold is_plain.
  now destruct (isspace c).
Qed.

(** *** Fixed points of the steps *)

Lemma lower_fixed (s : string) : all_chars is_lowered s = true -> lower s = s.
Proof.
  induction s as [|c s IH]; [reflexivity|].
  cbn [all_chars lower]. intros H. apply andb_prop in H as [Hc H].
  apply Ascii.eqb_eq in Hc. now rewrite Hc, IH.
Qed.

Lemma sub_special_fixed (s : string) :
  all_chars is_kept s = true -> sub_special s = s.
Proof.
  induction s as [|c s IH]; [reflexivity|].
  cbn [all_chars sub_special]. intros H. apply andb_prop in H as [Hc H].
  now rewrite Hc, IH.
Qed.

Lemma lstrip_fixed (s : string) : starts_nonspace s = true -> lstrip s = s.
Proof.
  destruct s as [|c s]; [reflexivity|].
  cbn [starts_nonspace lstrip]. intros H. apply negb_true_iff in H.
  now rewrite H.
Qed.

Lemma starts_nonspace_lstrip (s : string) : starts_nonspace (lstrip s) = true.
Proof.
  induction s as [|c s IH]; [reflexivity|].
  cbn [lstrip]. destruct (isspace c) eqn:E; [exact IH|].
  cbn [starts_nonspace]. now rewrite E.
Qed.

Lemma starts_nonspace_rstrip (s : string) :
  starts_nonspace s = true -> starts_nonspace (rstrip s) = true.
Proof.
  destruct s as [|c s]; [reflexivity|].
  cbn [starts_nonspace rstrip]. intros H. apply negb_true_iff in H.
  rewrite H. cbn [andb starts_nonspace]. now rewrite H.
Qed.

Lemma rstrip_idempotent (s : string) : rstrip (rstrip s) = rstrip s.
Proof.
  induction s as [|c s IH]; [reflexivity|].
  cbn [rstrip].
  destruct (isspace c && is_empty (rstrip s)) eqn:E; [reflexivity|].
  cbn [rstrip]. rewrite IH, E. reflexivity.
Qed.

Lemma rstrip_blank (s : string) : blank s = true -> rstrip s = EmptyString.
Proof.
  induction s as [|c s IH]; [reflexivity|].
  cbn [blank rstrip]. intros H. apply andb_prop in H as [Hc H].
  now rewrite Hc, (IH H).
Qed.

Lemma blank_sub_whitespace_from (in_run : bool) (s : string) :
  blank (sub_whitespace_from in_run s) = blank s.
Proof.
  revert in_run. induction s as [|c s IH]; intros in_run; [reflexivity|].
  cbn [sub_whitespace_from blank]. destruct (isspace c) eqn:E.
  - destruct in_run; cbn [blank andb]; apply IH.
  - cbn [blank]. now rewrite E.
Qed.

(** Collapsing whitespace keeps a text free of trailing whitespace so. *)
Lemma rstrip_sub_whitespace_from (in_run : bool) (s : string) :
  rstrip s = s ->
  rstrip (sub_whitespace_from in_run s) = sub_whitespace_from in_run s.
Proof.
  revert in_run. induction s as [|c s IH]; intros in_run; [reflexivity|].
  cbn [rstrip sub_whitespace_from].
  destruct (isspace c) eqn:E; cbn [andb].
  - destruct (is_empty (rstrip s)) eqn:Ee; [discriminate|].
    intros [= Hs].
    assert (Hnb : blank s = false).
    { destruct (blank s) eqn:Hb; [|reflexivity].
      rewrite (rstrip_blank s Hb) in Ee. discriminate. }
    destruct in_run; [now apply IH|].
    cbn [rstrip]. rewrite (IH true Hs).
    rewrite (blank_not_empty (sub_whitespace_from true s)).
    + reflexivity.
    + now rewrite blank_sub_whitespace_from.
  - intros [= Hs]. cbn [rstrip]. rewrite E. cbn [andb]. now rewrite IH.
Qed.

Lemma starts_nonspace_sub_whitespace (s : string) :
  starts_nonspace s = true -> starts_nonspace (sub_whitespace s) = true.
Proof.
  destruct s as [|c s]; [reflexivity|].
  unfold sub_whitespace. cbn [starts_nonspace sub_whitespace_from].
  intros H. apply negb_true_iff in H. rewrite H.
  cbn [starts_nonspace]. now rewrite H.
Qed.

Lemma length_sub_whitespace_from (in_run : bool) (s : string) :
  String.length (sub_whitespace_from in_run s) <= String.length s.
Proof.
  revert in_run. induction s as [|c s IH]; intros in_run; [reflexivity|].
  cbn [sub_whitespace_from]. destruct (isspace c).
  - destruct in_run; cbn [String.length].
    + specialize (IH true). lia.
    + specialize (IH true). lia.
  - cbn [String.length]. specialize (IH false). lia.
Qed.

Lemma single_spaced_cons_space (s : string) :
  all_chars is_plain s = true ->
  single_spaced (String " " s) = single_spaced s && starts_nonspace s.
Proof.
  destruct s as [|c s]; [reflexivity|].
  cbn [all_chars]. intros H. apply andb_prop in H as [Hc _].
  change (single_spaced (String " " (String c s)))
    with (negb (Ascii.eqb " " " " && Ascii.eqb c " ")
          && single_spaced (String c s)).
  cbn [starts_nonspace]. rewrite (plain_space_is_space c Hc).
  rewrite Ascii.eqb_refl. cbn [andb]. apply andb_comm.
Qed.

Lemma single_spaced_cons_other (c : ascii) (s : string) :
  Ascii.eqb c " " = false ->
  single_spaced (String c s) = single_spaced s.
Proof.
  intros Hne. destruct s as [|c' s]; [reflexivity|].
  change (single_spaced (String c (String c' s)))
    with (negb (Ascii.eqb c " " && Ascii.eqb c' " ")
          && single_spaced (String c' s)).
  now rewrite Hne.
Qed.

(** On a text whose only whitespace is the space, collapsing whitespace
    changes nothing exactly when no two spaces are adjacent (and, inside a
    run, the text does not start with one). *)
Lemma sub_whitespace_from_fixed (in_run : bool) (s : string) :
  all_chars is_plain s = true ->
  (sub_whitespace_from in_run s = s <->
   single_spaced s = true /\ (in_run = true -> starts_nonspace s = true)).
Proof.
  revert in_run. induction s as [|c s IH]; intros in_run Hplain.
  { cbn. tauto. }
  cbn [all_chars] in Hplain. apply andb_prop in Hplain as [Hc Hplain].
  pose proof (plain_space_is_space c Hc) as Hsp.
  cbn [sub_whitespace_from starts_nonspace].
  destruct (isspace c) eqn:E.
  - symmetry in Hsp. apply Ascii.eqb_eq in Hsp. subst c.
    destruct in_run.
    + split.
      * intros Heq. exfalso.
        pose proof (length_sub_whitespace_from true s) as Hlen.
        rewrite Heq in Hlen. cbn [String.length] in Hlen. lia.
      * intros [_ H]. specialize (H eq_refl). discriminate.
    + split.
      * intros [= Heq]. apply (IH true Hplain) in Heq as [Hss Hst].
        split; [|discriminate].
        rewrite (single_spaced_cons_space s Hplain), Hss, (Hst eq_refl).
        reflexivity.
      * intros [Hss _].
        rewrite (single_spaced_cons_space s Hplain) in Hss.
        apply andb_prop in Hss as [Hss Hst].
        f_equal. apply (IH true Hplain). auto.
  - assert (Hne : Ascii.eqb c " " = false) by congruence.
    pose proof (single_spaced_cons_other c s Hne) as Hss.
    rewrite Hss. split.
    + intros [= Heq]. apply (IH false Hplain) in Heq as [H _].
      split; [exact H | reflexivity].
    + intros [H _]. f_equal. apply (IH false Hplain). split; [exact H|].
      discriminate.
Qed.

Lemma sub_whitespace_fixed_iff (s : string) :
  all_chars is_plain s = true ->
  String.eqb (sub_whitespace s) s = single_spaced s.
Proof.
  intros Hplain.
  pose proof (sub_whitespace_from_fixed false s Hplain) as H.
  destruct (single_spaced s) eqn:E.
  - apply String.eqb_eq. apply H. split; [reflexivity | discriminate].
  - apply String.eqb_neq. intros Heq. apply H in Heq as [Heq _].
    discriminate.
Qed.

(** What every normalized text looks like. *)
Lemma normalized_text_shape (s : string) :
  let n := normalized_text (preprocess s) in
  all_chars is_lowered n = true
  /\ all_chars is_plain n = true
  /\ all_chars is_kept n = true
  /\ starts_nonspace n = true
  /\ rstrip n = n.
Proof.
  cbv zeta. unfold preprocess.
  destruct (is_empty s); [cbn; repeat split|].
  cbn [normalized_text]. unfold sub_whitespace.
  repeat split.
  - apply all_chars_strip, all_chars_sub_special.
    apply all_chars_sub_whitespace_from; [reflexivity|].
    apply (all_chars_weaken is_lowered); [|apply all_lowered_lower].
    intros c ->. apply orb_true_r.
  - apply all_chars_strip, all_chars_sub_special.
    apply all_plain_sub_whitespace_from.
  - apply all_chars_strip, all_kept_sub_special.
  - unfold strip. apply starts_nonspace_rstrip, starts_nonspace_lstrip.
  - unfold strip. apply rstrip_idempotent.
Qed.

(** The second pass over a normalized text: only the whitespace step can
    still change it, and it does exactly when two spaces are adjacent. *)
Lemma preprocess_normalized (n : string) :
  all_chars is_lowered n = true ->
  all_chars is_plain n = true ->
  all_chars is_kept n = true ->
  starts_nonspace n = true ->
  rstrip n = n ->
  preprocess n =
  {| normalized_text := sub_whitespace n;
     corrections :=
       if single_spaced n then [] else ["Normalized whitespace"];
     preserved_terms := [] |}.
Proof.
  intros Hlow Hplain Hkept Hstart Hend. unfold preprocess.
  destruct (is_empty n) eqn:Ee.
  { destruct n; [reflexivity | discriminate]. }
  rewrite (lower_fixed n Hlow), String.eqb_refl. cbn [negb app].
  rewrite (sub_whitespace_fixed_iff n Hplain).
  assert (Hk : all_chars is_kept (sub_whitespace n) = true).
  { apply all_chars_sub_whitespace_from; [reflexivity|].
    apply (all_chars_weaken is_kept); [|exact Hkept].
    intros c ->. apply orb_true_r. }
  rewrite (sub_special_fixed _ Hk), String.eqb_refl. cbn [negb].
  assert (Hstrip : strip (sub_whitespace n) = sub_whitespace n).
  { unfold strip.
    rewrite (lstrip_fixed _ (starts_nonspace_sub_whitespace n Hstart)).
    now apply rstrip_sub_whitespace_from. }
  rewrite Hstrip. destruct (single_spaced n); reflexivity.
Qed.

Lemma single_spaced_sub_whitespace_from (in_run : bool) (s : string) :
  single_spaced (sub_whitespace_from in_run s) = true
  /\ (in_run = true -> starts_nonspace (sub_whitespace_from in_run s) = true).
Proof.
  revert in_run. induction s as [|c s IH]; intros in_run.
  { cbn. tauto. }
  cbn [sub_whitespace_from]. destruct (isspace c) eqn:E.
  - destruct in_run; [apply IH|].
    split; [|discriminate].
    rewrite single_spaced_cons_space
      by apply all_plain_sub_whitespace_from.
    destruct (IH true) as [-> H]. now rewrite (H eq_refl).
  - split.
    + rewrite single_spaced_cons_other; [apply IH|].
      destruct (Ascii.eqb c " ") eqn:Ec; [|reflexivity].
      apply Ascii.eqb_eq in Ec. subst c. discriminate.
    + intros _. cbn [starts_nonspace]. now rewrite E.
Qed.

Lemma single_spaced_tail (c : ascii) (s : string) :
  single_spaced (String c s) = true -> single_spaced s = true.
Proof.
  destruct s as [|c' s]; [reflexivity|].
  change (single_spaced (String c (String c' s)))
    with (negb (Ascii.eqb c " " && Ascii.eqb c' " ")
          && single_spaced (String c' s)).
  intros H. now apply andb_prop in H as [_ H].
Qed.

Lemma single_spaced_lstrip (s : string) :
  single_spaced s = true -> single_spaced (lstrip s) = true.
Proof.
  induction s as [|c s IH]; [reflexivity|].
  intros H. cbn [lstrip]. destruct (isspace c); [|exact H].
  apply IH. now apply single_spaced_tail in H.
Qed.

Lemma single_spaced_rstrip (s : string) :
  single_spaced s = true -> single_spaced (rstrip s) = true.
Proof.
  induction s as [|c s IH]; [reflexivity|].
  intros H. pose proof (IH (single_spaced_tail c s H)) as IH'.
  cbn [rstrip]. destruct (isspace c && is_empty (rstrip s)); [reflexivity|].
  destruct s as [|c' s]; [reflexivity|].
  change (single_spaced (String c (String c' s)))
    with (negb (Ascii.eqb c " " && Ascii.eqb c' " ")
          && single_spaced (String c' s)) in H.
  apply andb_prop in H as [Hcc _].
  cbn [rstrip] in *.
  destruct (isspace c' && is_empty (rstrip s)); [reflexivity|].
  change (negb (Ascii.eqb c " " && Ascii.eqb c' " ")
          && single_spaced (String c' (rstrip s)) = true).
  now rewrite Hcc, IH'.
Qed.

Lemma all_kept_lower (s : string) :
  all_chars is_kept s = true -> all_chars is_kept (lower s) = true.
Proof.
  induction s as [|c s IH]; [reflexivity|].
  cbn [all_chars lower]. intros H. apply andb_prop in H as [Hc H].
  now rewrite is_kept_lower_char, Hc, IH.
Qed.

(** Without special characters in the input, the normalized text has no
    two adjacent spaces. *)
Lemma normalized_text_single_spaced (s : string) :
  all_chars is_kept s = true ->
  single_spaced (normalized_text (preprocess s)) = true.
Proof.
  intros Hkept. unfold preprocess.
  destruct (is_empty s); [reflexivity|].
  cbn [normalized_text].
  rewrite sub_special_fixed.
  - unfold strip. apply single_spaced_rstrip, single_spaced_lstrip.
    apply single_spaced_sub_whitespace_from.
  - apply all_chars_sub_whitespace_from; [reflexivity|].
    apply (all_chars_weaken is_kept); [|now apply all_kept_lower].
    intros c ->. apply orb_true_r.
Qed.

(** The second pass of normalization, in general: the lowercase and the
    punctuation step never fire again; the text comes back with its runs
    of spaces collapsed, unchanged and without corrections exactly when it
    has no two adjacent spaces, which is the case whenever the first input
    had no special character. *)
Theorem second_pass_only_collapses_spaces (s : string) :
  let n := normalized_text (preprocess s) in
  preprocess n =
    {| normalized_text := sub_whitespace n;
       corrections :=
         if single_spaced n then [] else ["Normalized whitespace"];
       preserved_terms := [] |}
  /\ (single_spaced n = true <->
      preprocess n =
        {| normalized_text := n; corrections := []; preserved_terms := [] |})
  /\ (all_chars is_kept s = true ->
      preprocess n =
        {| normalized_text := n; corrections := []; preserved_terms := [] |}).
Proof.
  cbv zeta.
  destruct (normalized_text_shape s) as (Hlow & Hplain & Hkept & Hstart & Hend).
  set (n := normalized_text (preprocess s)) in *.
  pose proof (preprocess_normalized n Hlow Hplain Hkept Hstart Hend) as Hpass.
  pose proof (sub_whitespace_fixed_iff n Hplain) as Hfix.
  assert (Hgood : single_spaced n = true ->
                  preprocess n = {| normalized_text := n; corrections := [];
                                    preserved_terms := [] |}).
  { intros Hss. rewrite Hpass, Hss. rewrite Hss in Hfix.
    apply String.eqb_eq in Hfix. now rewrite Hfix. }
  split; [exact Hpass|]. split; [split; [exact Hgood|]|].
  - intros Heq. rewrite Hpass in Heq.
    destruct (single_spaced n); [reflexivity | discriminate].
  - intros Hk. apply Hgood. now apply normalized_text_single_spaced.
Qed.

(** C7 fails on the code at "a ! b": the whitespace step runs before the
    punctuation step, so removing "!" leaves two adjacent spaces in the
    normalized text "a  b"; the second pass collapses them to "a b" and
    reports the correction "Normalized whitespace". *)
Theorem preprocess_second_pass_differs :
  let n := normalized_text (preprocess "a ! b") in
  n = "a  b"
  /\ corrections (preprocess "a ! b") = ["Removed special punctuation"]
  /\ normalized_text (preprocess n) = "a b"
  /\ corrections (preprocess n) = ["Normalized whitespace"]
  /\ normalized_text (preprocess n) <> n.
Proof.
  cbv zeta. repeat split. discriminate.
Qed.

End PreprocessFacts.

Section ScoringFacts.
Import PyNum ScoringAlgorithm.
Local Open Scope Q_scope.

Lemma round_half_even_between (x : Q) (a b : Z) :
  inject_Z a <= x -> x <= inject_Z b ->
  (a <= round_half_even x <= b)%Z.
Proof.
  intros Ha Hb. unfold round_half_even.
  pose proof (Qfloor_le x) as Hfl.
  assert (Haf : (a <= Qfloor x)%Z).
  { rewrite <- (Qfloor_Z a). now apply Qfloor_resp_le. }
  assert (Hfb : (Qfloor x <= b)%Z).
  { rewrite Zle_Qle. lra. }
  assert (Hstep : inject_Z (Qfloor x) < x -> (Qfloor x + 1 <= b)%Z).
  { intros Hlt. enough (Hq : (Qfloor x < b)%Z) by lia. rewrite Zlt_Qlt. lra. }
  destruct (Qcompare _ _) eqn:E.
  - apply Qeq_alt in E. destruct (Z.even _); [lia|]. split; [lia|].
    apply Hstep. lra.
  - lia.
  - apply Qgt_alt in E. split; [lia|]. apply Hstep. lra.
Qed.

Lemma pow10_pos (n : nat) : 0 < inject_Z (10 ^ Z.of_nat n).
Proof. apply inject_Z_pos. apply Z.pow_pos_nonneg; lia. Qed.

Lemma round_between (x : Q) (n : nat) (a b : Z) :
  inject_Z a <= x -> x <= inject_Z b ->
  inject_Z a <= round x n /\ round x n <= inject_Z b.
Proof.
  intros Ha Hb. unfold round.
  pose proof (pow10_pos n) as Hp.
  set (p := (10 ^ Z.of_nat n)%Z) in *.
  destruct (round_half_even_between (x * inject_Z p) (a * p)%Z (b * p)%Z)
    as [H1 H2].
  - rewrite inject_Z_mult. apply Qmult_le_compat_r; lra.
  - rewrite inject_Z_mult. apply Qmult_le_compat_r; lra.
  - split.
    + apply Qle_shift_div_l; [exact Hp|].
      rewrite <- inject_Z_mult. now rewrite <- Zle_Qle.
    + apply Qle_shift_div_r; [exact Hp|].
      rewrite <- inject_Z_mult. now rewrite <- Zle_Qle.
Qed.

Lemma round_is_decimal (x : Q) (n : nat) : is_decimal n (round x n).
Proof. exists (round_half_even (x * inject_Z (10 ^ Z.of_nat n))). reflexivity. Qed.

Lemma confidence_range (e c : Q) (k t : Z) :
  0.3 <= _calculate_confidence e c k t <= 0.9.
Proof.
  unfold _calculate_confidence, base_confidence.
  destruct ((k =? 0)%Z && (t >? 0)%Z); case_Qcompare; case_Qminmax; lra.
Qed.

Lemma base_confidence_le (e c : Q) (k t : Z) : base_confidence e c k t <= 0.9.
Proof.
  unfold base_confidence.
  destruct ((k =? 0)%Z && (t >? 0)%Z); case_Qcompare; lra.
Qed.

(** When does the adjusted similarity exist, and what is it. *)
Lemma adjust_similarity_ok (e c : Q) (k t : Z) :
  (k <= t)%Z ->
  exists a, adjust_similarity e c k t = Ok a
    /\ Qmin (e + c * 0.15) 1 <= a
    /\ (a <= Qmin (e + c * 0.15) 1 \/ (a <= 0.3 /\ Qmin (e + c * 0.15) 1 < 0.5)).
Proof.
  intros Hkt. unfold adjust_similarity.
  destruct (Qltb _ 0.5) eqn:Hlow.
  - apply Qltb_lt in Hlow.
    destruct (k >? 0)%Z eqn:Hk.
    + apply Z.gtb_lt in Hk.
      rewrite truediv_ok.
      2:{ intros H0. pose proof (inject_Z_pos t ltac:(lia)) as Hp. lra. }
      cbn [bind].
      pose proof (ratio_le_1 k t Hk Hkt) as Hr.
      eexists. split; [reflexivity|].
      case_Qminmax; (split; [lra | first [left; lra | right; split; lra]]).
    + eexists. split; [reflexivity|]. case_Qminmax; (split; [lra|left; lra]).
  - eexists. split; [reflexivity|]. case_Qminmax; (split; [lra|left; lra]).
Qed.

End ScoringFacts.

Section ScoringClaims.
Import PyNum ScoringAlgorithm.
Local Open Scope Q_scope.

Lemma calculate_final_score_unfold (e c : Q) (k t : Z) (a : Q) :
  adjust_similarity e c k t = Ok a ->
  exists r, calculate_final_score e c k t = Ok r
    /\ similarity r = a
    /\ confidence r = _calculate_confidence e c k t
    /\ score r = Qmax 0.0 (Qmin max_score (round (a * max_score) 2))
    /\ b_adjusted_similarity (breakdown r) = round a 4
    /\ b_confidence (breakdown r) = round (_calculate_confidence e c k t) 4
    /\ b_final_score (breakdown r) = score r.
Proof.
  intros Ha. unfold calculate_final_score. rewrite Ha. cbn [bind].
  eexists. split; [reflexivity|]. cbn. repeat split.
Qed.

Lemma calculate_final_score_inv (e c : Q) (k t : Z) (r : ScoringResult) :
  calculate_final_score e c k t = Ok r ->
  exists a, adjust_similarity e c k t = Ok a
    /\ similarity r = a
    /\ confidence r = _calculate_confidence e c k t
    /\ score r = Qmax 0.0 (Qmin max_score (round (a * max_score) 2)).
Proof.
  intros Hr.
  destruct (adjust_similarity e c k t) as [a|err] eqn:Ha.
  - destruct (calculate_final_score_unfold e c k t a Ha)
      as (r' & Hr' & Hs & Hc & Hsc & _).
    rewrite Hr in Hr'. injection Hr' as <-.
    exists a. auto.
  - unfold calculate_final_score in Hr. rewrite Ha in Hr. discriminate.
Qed.

Lemma final_score_range (a : Q) :
  let s := Qmax 0.0 (Qmin max_score (round (a * max_score) 2)) in
  0 <= s <= 6 /\ is_decimal 2 s.
Proof.
  cbv zeta. unfold max_score.
  pose proof (round_is_decimal (a * 6.0) 2) as Hd.
  case_Qminmax; (split; [lra|]);
    first [ exact Hd
          | exists 600%Z; reflexivity
          | exists 0%Z; reflexivity ].
Qed.

Lemma calculate_final_score_range (e c : Q) (k t : Z) :
  0 <= e -> e <= 1 -> 0 <= c -> (0 <= k)%Z -> (k <= t)%Z ->
  exists r, calculate_final_score e c k t = Ok r
    /\ 0 <= similarity r <= 1
    /\ 0 <= confidence r <= 1
    /\ (0 <= score r <= 6 /\ is_decimal 2 (score r))
    /\ 0 <= b_adjusted_similarity (breakdown r) <= 1
    /\ 0 <= b_confidence (breakdown r) <= 1
    /\ b_final_score (breakdown r) = score r.
Proof.
  intros He0 He1 Hc Hk Hkt.
  destruct (adjust_similarity_ok e c k t Hkt) as (a & Ha & Hlo & Hhi).
  destruct (calculate_final_score_unfold e c k t a Ha)
    as (r & Hr & Hs & Hconf & Hscore & Hba & Hbc & Hbf).
  pose proof (confidence_range e c k t) as Hcr.
  assert (Harange : 0 <= a <= 1).
  { revert Hlo Hhi. case_Qminmax; lra. }
  exists r. split; [exact Hr|].
  rewrite Hs, Hconf, Hba, Hbc, Hbf, Hscore.
  split; [exact Harange|]. split; [lra|].
  split; [apply final_score_range|].
  split; [|split; [|reflexivity]].
  - apply (round_between a 4 0 1); unfold inject_Z; lra.
  - apply (round_between _ 4 0 1); unfold inject_Z; lra.
Qed.

(** C10: for an ensemble score in [0,1], a non-negative coverage and
    [0 <= key_concepts_present <= total_key_concepts],
    [calculate_final_score] returns, and the similarity it returns is at
    least the ensemble score: bonus and partial credit only raise it. *)
Theorem finalizer_never_lowers (e c : Q) (k t : Z) :
  0 <= e -> e <= 1 -> 0 <= c -> (0 <= k)%Z -> (k <= t)%Z ->
  exists r, calculate_final_score e c k t = Ok r /\ e <= similarity r.
Proof.
  intros He0 He1 Hc Hk Hkt.
  destruct (adjust_similarity_ok e c k t Hkt) as (a & Ha & Hlo & _).
  destruct (calculate_final_score_unfold e c k t a Ha) as (r & Hr & Hs & _).
  exists r. split; [exact Hr|]. rewrite Hs.
  revert Hlo. case_Qminmax; lra.
Qed.

Lemma finalizer_never_lowers_witness :
  exists r, calculate_final_score 0.2 0.5 1 2 = Ok r /\ 0.2 <= similarity r.
Proof.
  apply (finalizer_never_lowers 0.2 0.5 1 2); first [lra | lia].
Defined.

(** The partial-credit division raises exactly on a low adjusted
    similarity with concepts reported present and none expected. *)
Lemma adjust_similarity_raises (e c : Q) (k t : Z) (err : exn) :
  adjust_similarity e c k t = Raise err <->
  err = ZeroDivisionError /\ Qmin (e + c * 0.15) 1.0 < 0.5
  /\ (0 < k)%Z /\ t = 0%Z.
Proof.
  unfold adjust_similarity.
  destruct (Qltb _ 0.5) eqn:Hlow.
  - apply Qltb_lt in Hlow.
    destruct (k >? 0)%Z eqn:Hk.
    + apply Z.gtb_lt in Hk.
      destruct (Z.eq_dec t 0%Z) as [->|Ht].
      * rewrite truediv_zero by reflexivity. cbn [bind].
        split; [intros [= <-]; auto | intros (-> & _); reflexivity].
      * rewrite truediv_ok.
        2:{ intros H0. apply Ht. unfold Qeq in H0. simpl in H0. lia. }
        cbn [bind]. split; [discriminate | intros (_ & _ & _ & ?); lia].
    + split; [discriminate|]. intros (_ & _ & ? & _).
      apply Z.gtb_lt in H. congruence.
  - apply Qltb_ge in Hlow. split; [discriminate|]. intros (_ & ? & _). lra.
Qed.

Lemma calculate_final_score_total (e c : Q) (k t : Z) :
  (k <= t)%Z -> exists r, calculate_final_score e c k t = Ok r.
Proof.
  intros Hkt.
  destruct (adjust_similarity_ok e c k t Hkt) as (a & Ha & _).
  destruct (calculate_final_score_unfold e c k t a Ha) as (r & Hr & _).
  now exists r.
Qed.

(** C9: the partial-credit division is guarded by
    [key_concepts_present > 0] only.  With
    [key_concepts_present <= total_key_concepts] the function returns a
    result; with [key_concepts_present > 0], [total_key_concepts = 0] and
    [ensemble_score + 0.15 * concept_coverage < 0.5] it raises
    ZeroDivisionError, and such inputs exist; it raises in no other case. *)
Theorem partial_credit_division_guard :
  (forall (e c : Q) (k t : Z),
      (k <= t)%Z -> exists r, calculate_final_score e c k t = Ok r)
  /\ (forall (e c : Q) (k t : Z),
      (0 < k)%Z -> t = 0%Z -> e + 0.15 * c < 0.5 ->
      calculate_final_score e c k t = Raise ZeroDivisionError)
  /\ (exists (e c : Q) (k t : Z),
      (0 < k)%Z /\ t = 0%Z /\ e + 0.15 * c < 0.5
      /\ calculate_final_score e c k t = Raise ZeroDivisionError)
  /\ (forall (e c : Q) (k t : Z) (err : exn),
      calculate_final_score e c k t = Raise err ->
      (0 < k)%Z /\ t = 0%Z /\ err = ZeroDivisionError).
Proof.
  assert (Hraise : forall (e c : Q) (k t : Z),
      (0 < k)%Z -> t = 0%Z -> e + 0.15 * c < 0.5 ->
      calculate_final_score e c k t = Raise ZeroDivisionError).
  { intros e c k t Hk Ht Hlow.
    assert (Ha : adjust_similarity e c k t = Raise ZeroDivisionError).
    { apply adjust_similarity_raises. repeat split; try assumption.
      case_Qminmax; lra. }
    unfold calculate_final_score. now rewrite Ha. }
  split; [|split; [exact Hraise|split]].
  - exact calculate_final_score_total.
  - exists 0.2, 0.5, 1%Z, 0%Z.
    split; [lia|]. split; [reflexivity|]. split; [lra|].
    apply Hraise; [lia | reflexivity | lra].
  - intros e c k t err H. unfold calculate_final_score in H.
    destruct (adjust_similarity e c k t) as [a|err'] eqn:Ha; [discriminate|].
    cbn [bind] in H. injection H as ->.
    apply adjust_similarity_raises in Ha. tauto.
Qed.

Lemma partial_credit_division_guard_witness :
  (exists r, calculate_final_score 0.2 0.5 1 2 = Ok r)
  /\ calculate_final_score 0.2 0.5 1 0 = Raise ZeroDivisionError.
Proof.
  split.
  - apply (proj1 partial_credit_division_guard 0.2 0.5 1%Z 2%Z). lia.
  - apply (proj1 (proj2 partial_credit_division_guard) 0.2 0.5 1%Z 0%Z);
      [lia | reflexivity | lra].
Defined.

(** C6 as stated fails: with more concepts reported present than expected
    the partial credit exceeds 0.5, and raising the coverage from 0 to 1
    moves the score out of the partial-credit branch and lowers it. *)
Lemma coverage_monotone_needs_bound :
  exists r1 r2,
    calculate_final_score 0.4 0 2 1 = Ok r1
    /\ calculate_final_score 0.4 1 2 1 = Ok r2
    /\ 0 <= 0 /\ 0 <= 1 /\ 1 <= 1
    /\ similarity r2 < similarity r1.
Proof.
  eexists. eexists.
  split; [reflexivity|]. split; [reflexivity|].
  split; [lra|]. split; [lra|]. split; [lra|].
  vm_compute. reflexivity.
Qed.

(** C6, amended: with [ensemble_score], [key_concepts_present] and
    [total_key_concepts] fixed, [key_concepts_present <=
    total_key_concepts], and coverages [c1 <= c2] in [0,1],
    [calculate_final_score] returns for both and the adjusted similarity
    for [c2] is at least the one for [c1]. *)
Theorem coverage_monotone (e : Q) (k t : Z) (c1 c2 : Q) :
  (k <= t)%Z -> 0 <= c1 -> c1 <= c2 -> c2 <= 1 ->
  exists r1 r2,
    calculate_final_score e c1 k t = Ok r1
    /\ calculate_final_score e c2 k t = Ok r2
    /\ similarity r1 <= similarity r2.
Proof.
  intros Hkt H0 H12 H1.
  destruct (adjust_similarity_ok e c1 k t Hkt) as (a1 & Ha1 & Hlo1 & Hhi1).
  destruct (adjust_similarity_ok e c2 k t Hkt) as (a2 & Ha2 & Hlo2 & Hhi2).
  destruct (calculate_final_score_unfold e c1 k t a1 Ha1) as (r1 & Hr1 & Hs1 & _).
  destruct (calculate_final_score_unfold e c2 k t a2 Ha2) as (r2 & Hr2 & Hs2 & _).
  exists r1, r2. split; [exact Hr1|]. split; [exact Hr2|].
  rewrite Hs1, Hs2.
  (* both results are [max adjusted partial] with the same partial credit,
     unless the second adjusted value has left the branch *)
  unfold adjust_similarity in Ha1, Ha2.
  destruct (Qltb (Qmin (e + c1 * 0.15) 1.0) 0.5) eqn:L1;
    [apply Qltb_lt in L1 | apply Qltb_ge in L1];
  (destruct (Qltb (Qmin (e + c2 * 0.15) 1.0) 0.5) eqn:L2;
    [apply Qltb_lt in L2 | apply Qltb_ge in L2]).
  - destruct (k >? 0)%Z.
    + destruct (truediv (inject_Z k) (inject_Z t)) as [q|]; [|discriminate].
      cbn [bind] in Ha1, Ha2. injection Ha1 as <-. injection Ha2 as <-.
      revert L1 L2. case_Qminmax; lra.
    + injection Ha1 as <-. injection Ha2 as <-.
      revert L1 L2. case_Qminmax; lra.
  - injection Ha2 as <-.
    revert Hhi1 Hlo1 L1 L2. case_Qminmax; lra.
  - revert L1 L2. case_Qminmax; lra.
  - injection Ha1 as <-. injection Ha2 as <-.
    revert L1 L2. case_Qminmax; lra.
Qed.

Lemma coverage_monotone_witness :
  exists r1 r2,
    calculate_final_score 0.2 0.1 1 2 = Ok r1
    /\ calculate_final_score 0.2 0.9 1 2 = Ok r2
    /\ similarity r1 <= similarity r2.
Proof.
  apply (coverage_monotone 0.2 1 2 0.1 0.9); first [lia | lra].
Defined.

End ScoringClaims.

Section EnsembleFacts.
Import PyStr PyNum EnsembleEvaluator.
Local Open Scope Q_scope.

Lemma semantic_similarity_ok (text1 text2 : string) :
  exists q, _calculate_semantic_similarity text1 text2 = Ok q /\ 0 <= q <= 1.
Proof.
  unfold _calculate_semantic_similarity.
  set (words1 := list_to_set (split (lower text1)) : gset string).
  set (words2 := list_to_set (split (lower text2)) : gset string).
  destruct (bool_decide (words1 = ∅) || bool_decide (words2 = ∅)).
  { exists 0.0. split; [reflexivity | lra]. }
  destruct (0 <? size (words1 ∪ words2))%nat eqn:Hu.
  - apply Nat.ltb_lt in Hu.
    destruct (truediv_counts (size (words1 ∩ words2)) (size (words1 ∪ words2)))
      as [Hdiv Hrange]; [|exact Hu|].
    + apply subseteq_size. intros x Hx.
      apply elem_of_intersection in Hx as [Hx _].
      apply elem_of_union. now left.
    + eexists. split; [exact Hdiv | exact Hrange].
  - exists 0.0. split; [reflexivity | lra].
Qed.

Lemma keyword_similarity_ok (text1 text2 : string) :
  exists q, _calculate_keyword_similarity text1 text2 = Ok q /\ 0 <= q <= 1.
Proof.
  unfold _calculate_keyword_similarity.
  set (words1 := split (lower text1)).
  set (words2 := split (lower text2)).
  destruct (bool_decide (words1 = [])) eqn:H1; cbn [orb].
  { exists 0.0. split; [reflexivity | lra]. }
  destruct (bool_decide (words2 = [])) eqn:H2.
  { exists 0.0. split; [reflexivity | lra]. }
  apply bool_decide_eq_false in H1.
  set (f := fun word : string => bool_decide (word ∈ words2)).
  destruct (truediv_counts (length (List.filter f words1))
                           (Nat.max (length words1) (length words2)))
    as [Hdiv Hrange].
  - pose proof (List.filter_length_le f words1). lia.
  - destruct words1; [congruence | cbn [length]; lia].
  - eexists. split; [exact Hdiv | exact Hrange].
Qed.

(** The shape shared by the length and the structure signal. *)
Lemma count_ratio_ok (n1 n2 : nat) (both_zero one_zero : Q) :
  0 <= both_zero <= 1 -> 0 <= one_zero <= 1 ->
  exists q,
    (if (n1 =? 0)%nat && (n2 =? 0)%nat then Ok both_zero
     else if (n1 =? 0)%nat || (n2 =? 0)%nat then Ok one_zero
     else truediv (of_nat (Nat.min n1 n2)) (of_nat (Nat.max n1 n2))) = Ok q
    /\ 0 <= q <= 1.
Proof.
  intros Hb Ho.
  destruct n1 as [|n1], n2 as [|n2]; cbn [Nat.eqb andb orb];
    try (eexists; split; [reflexivity | assumption]).
  destruct (truediv_counts (Nat.min (S n1) (S n2)) (Nat.max (S n1) (S n2)))
    as [Hdiv Hrange]; [lia | lia |].
  eexists. split; [exact Hdiv | exact Hrange].
Qed.

Lemma length_similarity_ok (text1 text2 : string) :
  exists q, _calculate_length_similarity text1 text2 = Ok q /\ 0 <= q <= 1.
Proof. apply count_ratio_ok; lra. Qed.

Lemma structure_similarity_ok (text1 text2 : string) :
  exists q, _calculate_structure_similarity text1 text2 = Ok q /\ 0 <= q <= 1.
Proof. apply count_ratio_ok; lra. Qed.

(** [ensemble_evaluate] never raises, and its numbers are in range. *)
Lemma ensemble_evaluate_ok (model_answer student_answer : string) :
  exists r, ensemble_evaluate model_answer student_answer = Ok r
    /\ 0 <= weighted_score r <= 1
    /\ 0 <= confidence r <= 1
    /\ 0 <= variance r.
Proof.
  unfold ensemble_evaluate.
  destruct (is_empty model_answer || is_empty student_answer).
  { eexists. split; [reflexivity|]. cbn. lra. }
  destruct (semantic_similarity_ok model_answer student_answer) as (s1 & -> & _).
  destruct (keyword_similarity_ok model_answer student_answer) as (s2 & -> & _).
  destruct (length_similarity_ok model_answer student_answer) as (s3 & -> & _).
  destruct (structure_similarity_ok model_answer student_answer) as (s4 & -> & _).
  cbn [bind]. eexists. split; [reflexivity|].
  cbn [weighted_score confidence variance length Nat.ltb Nat.leb].
  pose proof (var_nonneg [s1; s2; s3; s4]) as Hv.
  split; [|split; [|exact Hv]]; case_Qminmax; lra.
Qed.

End EnsembleFacts.

Section AnalyzerFacts.
Import PyStr ContextAnalyzer SpecWords.

Lemma scan_keywords_spec (text_lower : string) (keywords : list string)
    (score : nat) (found_terms : list string) :
  scan_keywords text_lower keywords score found_terms =
  (score + hit_count text_lower keywords,
   found_terms ++ List.filter (fun k => contains k text_lower) keywords).
Proof.
  unfold hit_count. revert score found_terms.
  induction keywords as [|keyword rest IH]; intros score found_terms.
  - cbn. now rewrite Nat.add_0_r, app_nil_r.
  - cbn [scan_keywords List.filter].
    destruct (contains keyword text_lower).
    + rewrite IH. cbn [length]. rewrite <- app_assoc. f_equal. lia.
    + apply IH.
Qed.

Lemma dict_set_fresh (d : list (string * nat)) (key : string) (value : nat) :
  ~ In key (map fst d) -> dict_set d key value = d ++ [(key, value)].
Proof.
  induction d as [|[k v] d IH]; intros Hfresh; [reflexivity|].
  cbn [dict_set]. cbn [map fst In] in Hfresh.
  destruct (String.eqb k key) eqn:E.
  - apply String.eqb_eq in E. tauto.
  - cbn. f_equal. apply IH. tauto.
Qed.

Lemma scan_domains_spec (text_lower : string)
    (table : list (string * list string))
    (domain_scores : list (string * nat)) (found_terms : list string) :
  List.NoDup (map fst domain_scores ++ map fst table) ->
  fst (scan_domains text_lower table domain_scores found_terms) =
  domain_scores
    ++ map (fun entry => (fst entry, hit_count text_lower (snd entry))) table.
Proof.
  revert domain_scores found_terms.
  induction table as [|[name keywords] table IH];
    intros domain_scores found_terms Hnodup.
  - cbn. now rewrite app_nil_r.
  - cbn [scan_domains]. rewrite scan_keywords_spec. cbn [Nat.add].
    rewrite IH.
    + rewrite dict_set_fresh.
      * now rewrite <- app_assoc.
      * cbn [map fst] in Hnodup.
        apply List.NoDup_remove_2 in Hnodup.
        intros Hin. apply Hnodup. apply in_or_app. now left.
    + rewrite dict_set_fresh.
      * rewrite map_app. cbn [map fst]. rewrite <- app_assoc. exact Hnodup.
      * cbn [map fst] in Hnodup.
        apply List.NoDup_remove_2 in Hnodup.
        intros Hin. apply Hnodup. apply in_or_app. now left.
Qed.

Lemma technical_keywords_names :
  map fst technical_keywords =
  ["CSE"; "ECE"; "EEE"; "Mechanical"; "Civil"; "programming"; "mathematics";
   "science"].
Proof. reflexivity. Qed.

Lemma domain_scores_are_hits (text : string) :
  fst (scan_domains (lower text) technical_keywords [] []) = domain_hits text.
Proof.
  rewrite scan_domains_spec; [reflexivity|].
  cbn [map app]. rewrite technical_keywords_names.
  repeat (apply List.NoDup_cons;
          [cbn [In]; intros H; repeat (destruct H as [H|H]; [discriminate|]);
           exact H |]).
  apply List.NoDup_nil.
Qed.

Lemma fold_max_spec (rest : list nat) (v : nat) :
  let m := fold_left Nat.max rest v in
  List.Forall (fun x => x <= m) (v :: rest) /\ In m (v :: rest).
Proof.
  revert v. induction rest as [|x rest IH]; intros v; cbn [fold_left].
  - split; [repeat constructor | now left].
  - destruct (IH (Nat.max v x)) as [Hall Hin].
    apply List.Forall_cons_iff in Hall as [Hmax Hall].
    split.
    + repeat (apply List.Forall_cons); [lia | lia | exact Hall].
    + destruct Hin as [Hin|Hin]; [|right; now right].
      rewrite <- Hin.
      destruct (Nat.max_spec v x) as [[_ E]|[_ E]]; rewrite E.
      * right. now left.
      * now left.
Qed.

(** [max(d, key=d.get)] picks the first entry whose value is maximal. *)
Lemma max_key_from_spec (entries : list (string * nat)) (best : string * nat) :
  exists before e after,
    best :: entries = before ++ e :: after
    /\ max_key_from best entries = fst e
    /\ List.Forall (fun x => snd x < snd e) before
    /\ List.Forall (fun x => snd x <= snd e) after.
Proof.
  revert best. induction entries as [|x entries IH]; intros best.
  - exists [], best, []. repeat split; constructor.
  - cbn [max_key_from]. destruct (snd best <? snd x) eqn:E.
    + apply Nat.ltb_lt in E.
      destruct (IH x) as (before & e & after & Hsplit & Hres & Hb & Ha).
      exists (best :: before), e, after.
      split; [cbn; now rewrite Hsplit|]. split; [exact Hres|].
      split; [|exact Ha].
      apply List.Forall_cons; [|exact Hb].
      (* [x] is [e] or comes before or after it *)
      destruct before as [|b before]; cbn in Hsplit.
      * injection Hsplit as -> _. exact E.
      * injection Hsplit as <- _.
        apply List.Forall_cons_iff in Hb as [Hb _]. lia.
    + apply Nat.ltb_ge in E.
      destruct (IH best) as (before & e & after & Hsplit & Hres & Hb & Ha).
      destruct before as [|b before]; cbn in Hsplit.
      * injection Hsplit as <- <-.
        exists [], best, (x :: entries).
        split; [reflexivity|]. split; [exact Hres|].
        split; [constructor|]. apply List.Forall_cons; assumption.
      * injection Hsplit as <- ->.
        exists (best :: x :: before), e, after.
        split; [reflexivity|]. split; [exact Hres|].
        split; [|exact Ha].
        apply List.Forall_cons_iff in Hb as [Hbest Hb].
        repeat (apply List.Forall_cons); [exact Hbest | lia | exact Hb].
Qed.

Lemma domain_hits_empty_text :
  List.Forall (fun e : string * nat => snd e = 0) (domain_hits "").
Proof. vm_compute. repeat constructor. Qed.

Lemma Forall_zero_not_Exists_pos (l : list (string * nat)) :
  List.Forall (fun e => snd e = 0) l ->
  List.Exists (fun e => 0 < snd e) l -> False.
Proof.
  intros Hz Hp. apply List.Exists_exists in Hp as (e & Hin & Hpos).
  rewrite List.Forall_forall in Hz. specialize (Hz e Hin). lia.
Qed.

(** What [analyze] computes on a non-empty text. *)
Lemma analyze_nonempty (text : string) :
  is_empty text = false ->
  exists detected_domain,
    analyze text = Ok {|
      context := detected_domain;
      complexity :=
        (let words := split text in
         let values := map snd (domain_hits text) in
         if (100 <? length words) || (3 <? sum_values values) then high
         else if 50 <? length words then medium else low);
      domain := detected_domain;
      concepts :=
        list_to_set (snd (scan_domains (lower text) technical_keywords [] []));
      technical_terms := snd (scan_domains (lower text) technical_keywords [] []);
      word_count := length (split text);
      technical_score := sum_values (map snd (domain_hits text)) |}
    /\ (List.Forall (fun e => snd e = 0) (domain_hits text) ->
        detected_domain = "general")
    /\ (List.Exists (fun e => 0 < snd e) (domain_hits text) ->
        exists before name n after,
          domain_hits text = before ++ (name, n) :: after
          /\ detected_domain = name
          /\ List.Forall (fun e => snd e < n) before
          /\ List.Forall (fun e => snd e <= n) after).
Proof.
  intros Hne. unfold analyze. rewrite Hne.
  pose proof (domain_scores_are_hits text) as Hhits.
  destruct (scan_domains (lower text) technical_keywords [] [])
    as [domain_scores found_terms].
  cbn [fst snd] in *. subst domain_scores.
  destruct (domain_hits text) as [|e0 rest] eqn:Eh.
  { apply (f_equal (@length _)) in Eh. unfold domain_hits in Eh.
    rewrite length_map in Eh. discriminate. }
  cbn [map max_value bind].
  destruct (fold_max_spec (map snd rest) (snd e0)) as [Hall Hin].
  set (top := fold_left Nat.max (map snd rest) (snd e0)) in *.
  change (snd e0 :: map snd rest) with (map snd (e0 :: rest)) in *.
  destruct (0 <? top) eqn:Etop.
  - apply Nat.ltb_lt in Etop. cbn [max_key bind].
    destruct (max_key_from_spec rest e0)
      as (before & e & after & Hsplit & Hres & Hb & Ha).
    exists (max_key_from e0 rest). split; [|split].
    + reflexivity.
    + intros Hzero. exfalso.
      apply in_map_iff in Hin as (x & Hx & Hxin).
      rewrite List.Forall_forall in Hzero. specialize (Hzero x Hxin). lia.
    + intros _. destruct e as [name n]. exists before, name, n, after.
      cbn [fst snd] in *. auto.
  - apply Nat.ltb_ge in Etop. cbn [bind].
    exists "general". split; [|split].
    + reflexivity.
    + reflexivity.
    + intros Hpos. exfalso.
      apply List.Exists_exists in Hpos as (x & Hxin & Hx).
      rewrite List.Forall_forall in Hall.
      specialize (Hall (snd x) (in_map snd _ _ Hxin)). lia.
Qed.

Lemma analyze_empty (text : string) :
  is_empty text = true ->
  analyze text = Ok {| context := "general"; complexity := low;
                       domain := "general"; concepts := ∅;
                       technical_terms := []; word_count := 0;
                       technical_score := 0 |}.
Proof. intros H. unfold analyze. now rewrite H. Qed.

(** [analyze] never raises. *)
Lemma analyze_ok (text : string) : exists a, analyze text = Ok a.
Proof.
  destruct (is_empty text) eqn:E.
  - eexists. now apply analyze_empty.
  - destruct (analyze_nonempty text E) as (d & H & _). eexists. exact H.
Qed.

(** C5: [analyze] never raises; its domain is "general" when every domain
    of the table scores 0, and otherwise the first entry, in the order CSE,
    ECE, EEE, Mechanical, Civil, programming, mathematics, science, whose
    keyword hit count is the maximum: every entry before it scores strictly
    less and every entry after it scores at most as much. *)
Theorem analyze_domain_first_max (text : string) :
  map fst technical_keywords =
    ["CSE"; "ECE"; "EEE"; "Mechanical"; "Civil"; "programming";
     "mathematics"; "science"]
  /\ exists a, analyze text = Ok a
     /\ (List.Forall (fun e => snd e = 0) (domain_hits text) ->
         domain a = "general")
     /\ (List.Exists (fun e => 0 < snd e) (domain_hits text) ->
         exists before name n after,
           domain_hits text = before ++ (name, n) :: after
           /\ domain a = name
           /\ List.Forall (fun e => snd e < n) before
           /\ List.Forall (fun e => snd e <= n) after).
Proof.
  split; [reflexivity|].
  destruct (is_empty text) eqn:E.
  - eexists. split; [now apply analyze_empty|]. split; [reflexivity|].
    intros Hpos. exfalso.
    destruct text; [|discriminate].
    exact (Forall_zero_not_Exists_pos _ domain_hits_empty_text Hpos).
  - destruct (analyze_nonempty text E) as (d & Ha & Hzero & Hpos).
    eexists. split; [exact Ha|]. split; [exact Hzero | exact Hpos].
Qed.

Lemma analyze_domain_first_max_witness :
  exists a before name n after,
    analyze "voltage and current" = Ok a
    /\ domain_hits "voltage and current" = before ++ (name, n) :: after
    /\ domain a = name
    /\ List.Forall (fun e => snd e < n) before
    /\ List.Forall (fun e => snd e <= n) after.
Proof.
  destruct (analyze_domain_first_max "voltage and current")
    as (_ & a & Ha & _ & Hpos).
  destruct Hpos as (before & name & n & after & Hsplit & Hd & Hb & Hafter).
  - apply List.Exists_exists. exists ("ECE", 2). split.
    + vm_compute. right. left. reflexivity.
    + cbn. lia.
  - exists a, before, name, n, after. auto.
Defined.

(** A tie between ECE and EEE, two hits each, goes to ECE. *)
Example analyze_tie_goes_to_earlier_domain :
  domain_hits "voltage and current" =
    [("CSE", 0); ("ECE", 2); ("EEE", 2); ("Mechanical", 0); ("Civil", 0);
     ("programming", 0); ("mathematics", 0); ("science", 0)]
  /\ exists a, analyze "voltage and current" = Ok a /\ domain a = "ECE".
Proof.
  split; [reflexivity|]. eexists. split; [vm_compute; reflexivity|].
  reflexivity.
Qed.

End AnalyzerFacts.

Section PipelineFacts.
Import PyStr PyNum.
Local Open Scope Q_scope.

Lemma int_of_count (q : Q) (n : nat) : q == of_nat n -> int q = Z.of_nat n.
Proof.
  intros Hq. unfold int.
  pose proof (of_nat_nonneg n) as Hn.
  assert (Hle : Qle_bool 0 q = true) by (apply Qle_bool_iff; lra).
  rewrite Hle. rewrite Hq. apply Qfloor_Z.
Qed.

(** The coverage never raises, lies in [0,1], and multiplied back by the
    number of expected concepts gives the number of matched concepts. *)
Lemma concept_coverage_ok (student_concepts model_concepts : gset string) :
  exists q,
    ContextAnalyzer.calculate_concept_coverage student_concepts model_concepts
      = Ok q
    /\ 0 <= q <= 1
    /\ int (q * of_nat (size model_concepts))
       = Z.of_nat (size (student_concepts ∩ model_concepts))
    /\ (model_concepts = ∅ -> q = 1.0).
Proof.
  unfold ContextAnalyzer.calculate_concept_coverage.
  destruct (bool_decide (model_concepts = ∅)) eqn:E.
  - apply bool_decide_eq_true in E. subst model_concepts.
    exists 1.0. split; [reflexivity|]. split; [lra|]. split; [|reflexivity].
    rewrite intersection_empty_r_L, size_empty. reflexivity.
  - apply bool_decide_eq_false in E.
    assert (Hm : (0 < size model_concepts)%nat).
    { apply Nat.neq_0_lt_0. apply size_non_empty_iff.
      intros Hempty. apply E. now apply leibniz_equiv. }
    destruct (truediv_counts (size (student_concepts ∩ model_concepts))
                             (size model_concepts)) as [Hdiv Hrange].
    + apply subseteq_size. apply intersection_subseteq_r.
    + exact Hm.
    + eexists. split; [exact Hdiv|]. split; [exact Hrange|]. split.
      * apply int_of_count. pose proof (of_nat_pos _ Hm). field. lra.
      * intros ->. contradiction.
Qed.

(** The staged evaluation never raises: every stage returns, the ensemble
    fallback is not taken, and the four stages are recorded in order. *)
Lemma run_stages_ok (model_answer student_answer : string) (log : list string) :
  let model_preprocessed := TextPreprocessor.preprocess model_answer in
  let student_preprocessed := TextPreprocessor.preprocess student_answer in
  let model_text := TextPreprocessor.normalized_text model_preprocessed in
  let student_text := TextPreprocessor.normalized_text student_preprocessed in
  exists model_analysis student_analysis coverage ensemble_result scoring_result,
    ContextAnalyzer.analyze model_text = Ok model_analysis
    /\ ContextAnalyzer.analyze student_text = Ok student_analysis
    /\ ContextAnalyzer.calculate_concept_coverage
         (ContextAnalyzer.concepts student_analysis)
         (ContextAnalyzer.concepts model_analysis) = Ok coverage
    /\ EnsembleEvaluator.ensemble_evaluate model_text student_text
       = Ok ensemble_result
    /\ let present :=
         Z.of_nat (size (ContextAnalyzer.concepts student_analysis
                         ∩ ContextAnalyzer.concepts model_analysis)) in
       let total := Z.of_nat (size (ContextAnalyzer.concepts model_analysis)) in
       ScoringAlgorithm.calculate_final_score
         (EnsembleEvaluator.weighted_score ensemble_result) coverage
         present total = Ok scoring_result
       /\ Service.run_stages model_answer student_answer log =
          (Ok {| Service.st_model_preprocessed := model_preprocessed;
                 Service.st_student_preprocessed := student_preprocessed;
                 Service.st_model_text := model_text;
                 Service.st_student_text := student_text;
                 Service.st_model_analysis := model_analysis;
                 Service.st_student_analysis := student_analysis;
                 Service.st_concept_coverage := coverage;
                 Service.st_key_concepts_present := present;
                 Service.st_total_key_concepts := total;
                 Service.st_ensemble_score :=
                   EnsembleEvaluator.weighted_score ensemble_result;
                 Service.st_ensemble_confidence :=
                   EnsembleEvaluator.confidence ensemble_result;
                 Service.st_model_scores :=
                   EnsembleEvaluator.model_scores ensemble_result;
                 Service.st_scoring_result := scoring_result |},
           log ++ Service.stage_names).
Proof.
  cbv zeta.
  set (model_text :=
         TextPreprocessor.normalized_text (TextPreprocessor.preprocess model_answer)).
  set (student_text :=
         TextPreprocessor.normalized_text (TextPreprocessor.preprocess student_answer)).
  destruct (analyze_ok model_text) as (ma & Hma).
  destruct (analyze_ok student_text) as (sa & Hsa).
  destruct (concept_coverage_ok (ContextAnalyzer.concepts sa)
                                (ContextAnalyzer.concepts ma))
    as (cov & Hcov & Hrange & Hint & _).
  destruct (ensemble_evaluate_ok model_text student_text) as (er & Her & _).
  set (present := Z.of_nat (size (ContextAnalyzer.concepts sa
                                  ∩ ContextAnalyzer.concepts ma))).
  set (total := Z.of_nat (size (ContextAnalyzer.concepts ma))).
  assert (Hle : (present <= total)%Z).
  { unfold present, total. apply inj_le. apply subseteq_size.
    apply intersection_subseteq_r. }
  destruct (calculate_final_score_total
              (EnsembleEvaluator.weighted_score er) cov present total Hle)
    as (sr & Hsr).
  exists ma, sa, cov, er, sr.
  repeat (split; [assumption|]).
  unfold Service.run_stages. cbn [try_except].
  fold model_text student_text.
  unfold Service.mbind, Service.lift, Service.record_evaluation_time,
    Service.ret.
  rewrite Hma, Hsa, Hcov, Her. cbn [bind try_except].
  rewrite Hint. fold present total. rewrite Hsr.
  unfold Service.stage_names. repeat rewrite <- app_assoc. reflexivity.
Qed.

End PipelineFacts.

Section ServiceFacts.
Import PyStr PyNum SpecWords.
Local Open Scope Q_scope.

Lemma enhanced_evaluate_ok (model_answer student_answer : string)
    (detailed : bool) (log : list string) :
  exists st,
    Service.run_stages model_answer student_answer log
      = (Ok st, log ++ Service.stage_names)
    /\ stages_sound st
    /\ Service.enhanced_evaluate model_answer student_answer detailed log
       = (Ok (Service.build_response st detailed), log ++ Service.stage_names).
Proof.
  destruct (run_stages_ok model_answer student_answer log)
    as (ma & sa & cov & er & sr & Hma & Hsa & Hcov & Her & Hsr & Hrun).
  eexists. split; [exact Hrun|]. split.
  - unfold stages_sound. cbn.
    destruct (ensemble_evaluate_ok
                (TextPreprocessor.normalized_text
                   (TextPreprocessor.preprocess model_answer))
                (TextPreprocessor.normalized_text
                   (TextPreprocessor.preprocess student_answer)))
      as (er' & Her' & Hws & Hconf & _).
    rewrite Her in Her'. injection Her' as <-.
    destruct (concept_coverage_ok (ContextAnalyzer.concepts sa)
                                  (ContextAnalyzer.concepts ma))
      as (cov' & Hcov' & Hrange & _).
    rewrite Hcov in Hcov'. injection Hcov' as <-.
    repeat split; try assumption; try lra; try lia.
    apply inj_le. apply subseteq_size. apply intersection_subseteq_r.
  - unfold Service.enhanced_evaluate, Service.mbind. rewrite Hrun.
    reflexivity.
Qed.

Lemma calculate_confidence_matches_spec (e c : Q) (k t : Z) :
  ScoringAlgorithm._calculate_confidence e c k t
  == score_stage_confidence e c k t.
Proof.
  unfold ScoringAlgorithm._calculate_confidence,
    ScoringAlgorithm.base_confidence, score_stage_confidence.
  rewrite Z.gtb_ltb.
  destruct ((k =? 0)%Z && (0 <? t)%Z); case_Qcompare; case_Qminmax; lra.
Qed.

Section Endpoint.
Variable model : option (string -> string -> result Q).
Variable enhanced_mode_available : bool.

Lemma evaluate_empty_reference (m s : string) (detailed : bool)
    (log : list string) :
  blank m = true ->
  Service.evaluate model enhanced_mode_available m s detailed log
  = (empty_reference_response, log).
Proof.
  intros Hm. unfold Service.evaluate. rewrite strip_blank, Hm. reflexivity.
Qed.

Lemma evaluate_empty_candidate (m s : string) (detailed : bool)
    (log : list string) :
  blank m = false -> blank s = true ->
  Service.evaluate model enhanced_mode_available m s detailed log
  = (empty_candidate_response, log).
Proof.
  intros Hm Hs. unfold Service.evaluate. rewrite !strip_blank, Hm, Hs.
  reflexivity.
Qed.

Lemma basic_evaluate_confidence (m s : string) (r : Service.Response) :
  Service.basic_evaluate model m s = Ok r ->
  Service.confidence r <= 0.9.
Proof.
  unfold Service.basic_evaluate. destruct model as [cos_sim|].
  - destruct (cos_sim m s); cbn [bind]; [|discriminate].
    intros [= <-]. cbn. lra.
  - intros [= <-]. cbn. lra.
Qed.

End Endpoint.

(** With the enhanced components available, the endpoint answers a pair of
    non-blank texts with the response of [enhanced_evaluate] on the
    stripped texts; the embedding model is not consulted. *)
Lemma evaluate_enhanced (model : option (string -> string -> result Q))
    (m s : string) (detailed : bool) (log : list string) :
  blank m = false -> blank s = false ->
  exists st,
    Service.run_stages (strip m) (strip s) log
      = (Ok st, log ++ Service.stage_names)
    /\ stages_sound st
    /\ Service.evaluate model true m s detailed log
       = (Service.build_response st detailed,
          (log ++ Service.stage_names) ++ ["total"]).
Proof.
  intros Hm Hs.
  destruct (enhanced_evaluate_ok (strip m) (strip s) detailed log)
    as (st & Hrun & Hsound & Henh).
  exists st. split; [exact Hrun|]. split; [exact Hsound|].
  unfold Service.evaluate. rewrite !strip_blank, Hm, Hs.
  unfold Service.mbind, Service.ret. rewrite Henh. reflexivity.
Qed.

(** Outside the two immediate results, no path of the endpoint reports a
    confidence above 0.9. *)
Lemma evaluate_confidence_le (model : option (string -> string -> result Q))
    (mode : bool) (m s : string) (detailed : bool) (log : list string) :
  blank m = false -> blank s = false ->
  Service.confidence (fst (Service.evaluate model mode m s detailed log))
  <= 0.9.
Proof.
  intros Hm Hs. destruct mode.
  - destruct (evaluate_enhanced model m s detailed log Hm Hs)
      as (st & _ & Hsound & ->).
    destruct Hsound as (Hcalc & _).
    cbn [fst Service.build_response Service.confidence].
    apply calculate_final_score_inv in Hcalc as (a & _ & _ & -> & _).
    apply confidence_range.
  - unfold Service.evaluate. rewrite !strip_blank, Hm, Hs.
    unfold Service.mbind, Service.ret, Service.lift,
      Service.record_evaluation_time.
    destruct (Service.basic_evaluate model (strip m) (strip s)) as [r|e] eqn:E.
    + cbn [fst]. exact (basic_evaluate_confidence model _ _ r E).
    + cbn. lra.
Qed.

(** On every path of the endpoint the review flag is the comparison of
    the reported confidence with 0.7. *)
Lemma evaluate_review_flag (model : option (string -> string -> result Q))
    (mode : bool) (m s : string) (detailed : bool) (log : list string) :
  let r := fst (Service.evaluate model mode m s detailed log) in
  Service.needs_review r = Qltb (Service.confidence r) 0.7.
Proof.
  cbv zeta. destruct (blank m) eqn:Hm.
  { now rewrite (evaluate_empty_reference model mode m s detailed log Hm). }
  destruct (blank s) eqn:Hs.
  { now rewrite (evaluate_empty_candidate model mode m s detailed log Hm Hs). }
  destruct mode.
  - destruct (evaluate_enhanced model m s detailed log Hm Hs)
      as (st & _ & _ & ->).
    reflexivity.
  - unfold Service.evaluate. rewrite !strip_blank, Hm, Hs.
    unfold Service.mbind, Service.ret, Service.lift,
      Service.record_evaluation_time, Service.basic_evaluate.
    destruct model as [cos_sim|].
    + destruct (cos_sim (strip m) (strip s)); reflexivity.
    + reflexivity.
Qed.

End ServiceFacts.

Section ServiceClaims.
Import PyStr PyNum SpecWords.
Local Open Scope Q_scope.

(** C1: [ensemble_evaluate] returns with weighted score and confidence in
    [0,1]; for an ensemble score and a coverage in [0,1] and
    [0 <= key_concepts_present <= total_key_concepts],
    [calculate_final_score] returns with adjusted similarity and confidence
    (also as rounded in the breakdown) in [0,1] and a final score in [0,6]
    that is a two-decimal number; and the staged evaluation of any two texts
    meets these preconditions and returns a response within these ranges. *)
Theorem scores_in_range :
  (forall model_answer student_answer : string,
      exists r,
        EnsembleEvaluator.ensemble_evaluate model_answer student_answer = Ok r
        /\ 0 <= EnsembleEvaluator.weighted_score r <= 1
        /\ 0 <= EnsembleEvaluator.confidence r <= 1)
  /\ (forall (e c : Q) (k t : Z),
      0 <= e -> e <= 1 -> 0 <= c -> c <= 1 -> (0 <= k)%Z -> (k <= t)%Z ->
      exists r,
        ScoringAlgorithm.calculate_final_score e c k t = Ok r
        /\ 0 <= ScoringAlgorithm.similarity r <= 1
        /\ 0 <= ScoringAlgorithm.confidence r <= 1
        /\ 0 <= ScoringAlgorithm.score r <= 6
        /\ is_decimal 2 (ScoringAlgorithm.score r)
        /\ 0 <= ScoringAlgorithm.b_adjusted_similarity
                  (ScoringAlgorithm.breakdown r) <= 1
        /\ 0 <= ScoringAlgorithm.b_confidence
                  (ScoringAlgorithm.breakdown r) <= 1
        /\ ScoringAlgorithm.b_final_score (ScoringAlgorithm.breakdown r)
           = ScoringAlgorithm.score r)
  /\ (forall (model_answer student_answer : string) (detailed : bool)
             (log : list string),
      exists st r,
        Service.enhanced_evaluate model_answer student_answer detailed log
          = (Ok r, log ++ Service.stage_names)
        /\ r = Service.build_response st detailed
        /\ stages_sound st
        /\ 0 <= Service.similarity r <= 1
        /\ 0 <= Service.confidence r <= 1
        /\ 0 <= Service.score r <= 6
        /\ is_decimal 2 (Service.score r)).
Proof.
  split; [|split].
  - intros m s.
    destruct (ensemble_evaluate_ok m s) as (r & Hr & Hws & Hc & _).
    now exists r.
  - intros e c k t He0 He1 Hc0 _ Hk Hkt.
    destruct (calculate_final_score_range e c k t He0 He1 Hc0 Hk Hkt)
      as (r & Hr & Hs & Hc & [Hsc Hdec] & Hba & Hbc & Hbf).
    exists r. repeat split; try assumption; tauto.
  - intros m s detailed log.
    destruct (enhanced_evaluate_ok m s detailed log)
      as (st & _ & Hsound & Henh).
    exists st, (Service.build_response st detailed).
    split; [exact Henh|]. split; [reflexivity|]. split; [exact Hsound|].
    destruct Hsound as (Hcalc & [He0 He1] & _ & [Hc0 Hc1] & [Hk Hkt]).
    destruct (calculate_final_score_range _ _ _ _ He0 He1 Hc0 Hk Hkt)
      as (r & Hr & Hs & Hc & [Hsc Hdec] & _).
    rewrite Hcalc in Hr. injection Hr as <-.
    cbn [Service.build_response Service.similarity Service.confidence
         Service.score].
    repeat split; try assumption; tauto.
Qed.

Lemma scores_in_range_witness :
  exists r,
    ScoringAlgorithm.calculate_final_score 0.5 0.5 1 2 = Ok r
    /\ 0 <= ScoringAlgorithm.similarity r <= 1
    /\ 0 <= ScoringAlgorithm.confidence r <= 1
    /\ 0 <= ScoringAlgorithm.score r <= 6
    /\ is_decimal 2 (ScoringAlgorithm.score r).
Proof.
  destruct (proj1 (proj2 scores_in_range) 0.5 0.5 1%Z 2%Z)
    as (r & Hr & Hs & Hc & Hsc & Hd & _); try lra; try lia.
  exists r. auto.
Defined.

(** C2: the staged evaluation returns; the confidence of its response is
    the one [_calculate_confidence] computes from the ensemble score, the
    coverage and the two concept counts, which is the confidence in the
    specification's wording (0.7, +0.2 above 0.8 coverage else +0.1 above
    0.6, -0.2 below 0.3 ensemble score, -0.3 without matched concepts when
    some are expected, clamped to [0.3, 1.0]); [needs_review] is true
    exactly when that confidence is below 0.7; on some input it differs
    from the ensemble confidence; and on every path of the endpoint the
    flag is true exactly when the reported confidence is below 0.7. *)
Theorem needs_review_iff_low_confidence :
  (forall (model_answer student_answer : string) (detailed : bool)
          (log : list string),
      exists st r,
        Service.run_stages model_answer student_answer log
          = (Ok st, log ++ Service.stage_names)
        /\ Service.enhanced_evaluate model_answer student_answer detailed log
           = (Ok r, log ++ Service.stage_names)
        /\ Service.confidence r
           = ScoringAlgorithm._calculate_confidence
               (Service.st_ensemble_score st) (Service.st_concept_coverage st)
               (Service.st_key_concepts_present st)
               (Service.st_total_key_concepts st)
        /\ Service.confidence r
           == score_stage_confidence
                (Service.st_ensemble_score st) (Service.st_concept_coverage st)
                (Service.st_key_concepts_present st)
                (Service.st_total_key_concepts st)
        /\ (Service.needs_review r = true <-> Service.confidence r < 0.7))
  /\ (exists (st : Service.Stages) (r : Service.Response),
      Service.run_stages "a" "a" [] = (Ok st, Service.stage_names)
      /\ Service.enhanced_evaluate "a" "a" false []
         = (Ok r, Service.stage_names)
      /\ Service.st_ensemble_confidence st == 1
      /\ Service.confidence r == 0.9)
  /\ (forall (model : option (string -> string -> result Q)) (mode : bool)
             (model_answer student_answer : string) (detailed : bool)
             (log : list string),
      let r := fst (Service.evaluate model mode model_answer student_answer
                                     detailed log) in
      Service.needs_review r = true <-> Service.confidence r < 0.7).
Proof.
  split; [|split].
  - intros m s detailed log.
    destruct (enhanced_evaluate_ok m s detailed log)
      as (st & Hrun & Hsound & Henh).
    exists st, (Service.build_response st detailed).
    split; [exact Hrun|]. split; [exact Henh|].
    destruct Hsound as (Hcalc & _).
    apply calculate_final_score_inv in Hcalc as (a & _ & _ & Hconf & _).
    cbn [Service.build_response Service.confidence Service.needs_review].
    rewrite Hconf. split; [reflexivity|].
    split; [apply calculate_confidence_matches_spec|].
    apply Qltb_lt.
  - eexists. eexists.
    split; [vm_compute; reflexivity|].
    split; [vm_compute; reflexivity|].
    split; vm_compute; reflexivity.
  - intros model mode m s detailed log. cbv zeta.
    rewrite (evaluate_review_flag model mode m s detailed log).
    apply Qltb_lt.
Qed.

Lemma needs_review_iff_low_confidence_witness :
  exists st r,
    Service.run_stages "code" "loop" []
      = (Ok st, [] ++ Service.stage_names)
    /\ Service.enhanced_evaluate "code" "loop" false []
       = (Ok r, [] ++ Service.stage_names)
    /\ (Service.needs_review r = true <-> Service.confidence r < 0.7).
Proof.
  destruct (proj1 needs_review_iff_low_confidence "code" "loop" false [])
    as (st & r & Hrun & Henh & _ & _ & Hiff).
  exists st, r. auto.
Defined.

(** C3 as stated fails: the handler strips both texts first, so a
    reference that is not empty but holds only whitespace is answered as an
    empty reference, also when the candidate is empty. *)
Lemma whitespace_reference_counts_as_empty :
  is_empty " " = false
  /\ is_empty "" = true
  /\ Service.evaluate None true " " "" false []
     = (empty_reference_response, [])
  /\ Service.needs_review
       (fst (Service.evaluate None true " " "" false [])) = true
  /\ ~ Service.confidence
         (fst (Service.evaluate None true " " "" false [])) == 1.0.
Proof.
  split; [reflexivity|]. split; [reflexivity|].
  split; [reflexivity|]. split; [reflexivity|].
  vm_compute. discriminate.
Qed.

(** C3, amended: whatever the embedding model and the mode, a request
    whose reference is empty or holds only whitespace gets, for any
    candidate, the response (similarity 0, score 0, confidence 0,
    needs_review true), and a request whose reference has a non-whitespace
    character and whose candidate is empty or holds only whitespace gets
    (similarity 0, score 0, confidence 1.0, needs_review false); in both
    cases no stage is recorded. *)
Theorem boundary_results
    (model : option (string -> string -> result Q)) (mode : bool)
    (model_answer student_answer : string) (detailed : bool)
    (log : list string) :
  (blank model_answer = true ->
   Service.evaluate model mode model_answer student_answer detailed log
   = (empty_reference_response, log))
  /\ (blank model_answer = false -> blank student_answer = true ->
      Service.evaluate model mode model_answer student_answer detailed log
      = (empty_candidate_response, log)).
Proof.
  split.
  - apply evaluate_empty_reference.
  - apply evaluate_empty_candidate.
Qed.

Lemma boundary_results_witness :
  Service.evaluate None true "" "an answer" false []
    = (empty_reference_response, [])
  /\ Service.evaluate None true "algorithm complexity analysis" "" false []
     = (empty_candidate_response, []).
Proof.
  split.
  - apply (proj1 (boundary_results None true "" "an answer" false [])).
    reflexivity.
  - apply (proj2 (boundary_results None true
                    "algorithm complexity analysis" "" false []));
      reflexivity.
Defined.

(** C8: the score-stage confidence is at most 0.9 and never 1.0, for every
    input: the confidence before the clamp is at most 0.9, as at most one of
    the two boosts applies, so the clamp from above never replaces it; and
    a response of the endpoint with confidence 1.0 is the immediate
    response for an empty candidate, with a reference that is not blank. *)
Theorem score_confidence_at_most_09 :
  (forall (e c : Q) (k t : Z),
      ScoringAlgorithm._calculate_confidence e c k t <= 0.9
      /\ ~ ScoringAlgorithm._calculate_confidence e c k t == 1.0
      /\ ScoringAlgorithm.base_confidence e c k t <= 0.9
      /\ Qmin 1.0 (ScoringAlgorithm.base_confidence e c k t)
         = ScoringAlgorithm.base_confidence e c k t)
  /\ (forall (model : option (string -> string -> result Q)) (mode : bool)
             (model_answer student_answer : string) (detailed : bool)
             (log : list string),
      Service.confidence
        (fst (Service.evaluate model mode model_answer student_answer
                               detailed log)) == 1.0 ->
      blank model_answer = false
      /\ blank student_answer = true
      /\ Service.evaluate model mode model_answer student_answer detailed log
         = (empty_candidate_response, log)).
Proof.
  split.
  - intros e c k t. pose proof (confidence_range e c k t).
    pose proof (base_confidence_le e c k t) as Hbase.
    split; [lra|]. split; [lra|]. split; [exact Hbase|].
    destruct (Qmin_cases 1.0 (ScoringAlgorithm.base_confidence e c k t))
      as [[Hle _]|[_ E]]; [lra | exact E].
  - intros model mode m s detailed log Hone.
    destruct (blank m) eqn:Hm.
    + rewrite (evaluate_empty_reference model mode m s detailed log Hm)
        in Hone.
      vm_compute in Hone. discriminate.
    + destruct (blank s) eqn:Hs.
      * split; [reflexivity|]. split; [reflexivity|].
        now apply evaluate_empty_candidate.
      * pose proof (evaluate_confidence_le model mode m s detailed log Hm Hs).
        lra.
Qed.

Lemma score_confidence_at_most_09_witness :
  blank "reference" = false
  /\ blank "" = true
  /\ Service.evaluate None true "reference" "" false []
     = (empty_candidate_response, []).
Proof.
  apply (proj2 score_confidence_at_most_09 None true "reference" ""
           false []).
  vm_compute. reflexivity.
Defined.

End ServiceClaims.

Section IdenticalTexts.
Import PyStr PyNum SpecWords EnsembleEvaluator.
Local Open Scope Q_scope.

Lemma filter_all_true {A : Type} (f : A -> bool) (l : list A) :
  (forall x, In x l -> f x = true) -> List.filter f l = l.
Proof.
  induction l as [|x l IH]; intros H; [reflexivity|].
  cbn [List.filter]. rewrite (H x (or_introl eq_refl)).
  f_equal. apply IH. intros y Hy. apply H. now right.
Qed.

Lemma list_to_set_nonempty (l : list string) :
  l <> [] -> (list_to_set l : gset string) <> ∅.
Proof.
  destruct l as [|x l]; [congruence|]. intros _ Hempty.
  assert (Hx : x ∈ (list_to_set (x :: l) : gset string)).
  { apply elem_of_list_to_set. left. }
  rewrite Hempty in Hx. now apply not_elem_of_empty in Hx.
Qed.

Lemma size_nonempty (X : gset string) : X <> ∅ -> (0 < size X)%nat.
Proof.
  intros HX. apply Nat.neq_0_lt_0. apply size_non_empty_iff.
  intros Hempty. apply HX. now apply leibniz_equiv.
Qed.

Lemma set_intersection_self (X : gset string) : X ∩ X = X.
Proof.
  apply set_eq. intros x. rewrite elem_of_intersection. tauto.
Qed.

Lemma set_union_self (X : gset string) : X ∪ X = X.
Proof.
  apply set_eq. intros x. rewrite elem_of_union. tauto.
Qed.

Lemma truediv_self (n : nat) :
  (0 < n)%nat ->
  truediv (of_nat n) (of_nat n) = Ok (of_nat n / of_nat n)
  /\ of_nat n / of_nat n == 1.
Proof.
  intros Hn. split; [|now apply ratio_self].
  apply truediv_counts; [lia | exact Hn].
Qed.

Lemma semantic_identical (t : string) :
  blank t = false ->
  exists q, _calculate_semantic_similarity t t = Ok q /\ q == 1.
Proof.
  intros Hb. unfold _calculate_semantic_similarity.
  set (words := list_to_set (split (lower t)) : gset string).
  assert (Hne : words <> ∅).
  { apply list_to_set_nonempty, split_nonempty. now rewrite blank_lower. }
  rewrite (bool_decide_eq_false_2 _ Hne). cbn [orb].
  rewrite (set_intersection_self words), (set_union_self words).
  pose proof (size_nonempty words Hne) as Hsize.
  rewrite (proj2 (Nat.ltb_lt _ _) Hsize).
  destruct (truediv_self _ Hsize) as [-> Hone].
  eexists. split; [reflexivity | exact Hone].
Qed.

Lemma keyword_identical (t : string) :
  blank t = false ->
  exists q, _calculate_keyword_similarity t t = Ok q /\ q == 1.
Proof.
  intros Hb. unfold _calculate_keyword_similarity.
  set (words := split (lower t)).
  assert (Hne : words <> []).
  { apply split_nonempty. now rewrite blank_lower. }
  rewrite (bool_decide_eq_false_2 _ Hne). cbn [orb].
  rewrite filter_all_true.
  2:{ intros w Hw. apply bool_decide_eq_true_2. now apply list_elem_of_In. }
  rewrite Nat.max_id.
  assert (Hlen : (0 < length words)%nat).
  { destruct words; [congruence | cbn [length]; lia]. }
  destruct (truediv_self _ Hlen) as [-> Hone].
  eexists. split; [reflexivity | exact Hone].
Qed.

(** Equal counts on both sides give 1.0, whatever the convention for a
    single zero count. *)
Lemma count_ratio_identical (n : nat) (one_zero : Q) :
  exists q,
    (if (n =? 0)%nat && (n =? 0)%nat then Ok 1.0
     else if (n =? 0)%nat || (n =? 0)%nat then Ok one_zero
     else truediv (of_nat (Nat.min n n)) (of_nat (Nat.max n n))) = Ok q
    /\ q == 1.
Proof.
  destruct n as [|n]; cbn [Nat.eqb andb orb].
  - exists 1.0. split; reflexivity.
  - rewrite Nat.min_id, Nat.max_id.
    destruct (truediv_self (S n)) as [-> Hone]; [lia|].
    eexists. split; [reflexivity | exact Hone].
Qed.

Lemma var_of_ones (s1 s2 s3 s4 : Q) :
  s1 == 1 -> s2 == 1 -> s3 == 1 -> s4 == 1 -> var [s1; s2; s3; s4] == 0.
Proof.
  intros H1 H2 H3 H4. unfold var, PyNum.sum.
  cbn [map fold_left length]. rewrite H1, H2, H3, H4. reflexivity.
Qed.

(** Identical texts with at least one word: every signal is 1, so are the
    weighted score and the confidence, and the variance is 0. *)
Lemma ensemble_identical (t : string) :
  blank t = false ->
  exists r sig,
    ensemble_evaluate t t = Ok r
    /\ model_scores r = Some sig
    /\ semantic_similarity sig == 1
    /\ keyword_matching sig == 1
    /\ length_similarity sig == 1
    /\ structure_similarity sig == 1
    /\ weighted_score r == 1
    /\ variance r == 0
    /\ confidence r == 1.
Proof.
  intros Hb. unfold ensemble_evaluate.
  rewrite (blank_not_empty t Hb). cbn [orb].
  destruct (semantic_identical t Hb) as (s1 & -> & H1).
  destruct (keyword_identical t Hb) as (s2 & -> & H2).
  destruct (count_ratio_identical (length (split t)) 0.0) as (s3 & Hs3 & H3).
  destruct (count_ratio_identical (count_sentences t) 0.5) as (s4 & Hs4 & H4).
  unfold _calculate_length_similarity, _calculate_structure_similarity.
  rewrite Hs3, Hs4. cbn [bind].
  eexists. eexists. split; [reflexivity|]. split; [reflexivity|].
  cbn [semantic_similarity keyword_matching length_similarity
       structure_similarity weighted_score variance confidence
       w_semantic w_keyword w_length w_structure weights
       length Nat.ltb Nat.leb].
  pose proof (var_of_ones s1 s2 s3 s4 H1 H2 H3 H4) as Hvar.
  repeat (split; [assumption|]).
  split; [|split; [exact Hvar|]]; case_Qminmax; lra.
Qed.

Lemma coverage_identical (concepts : gset string) :
  exists q,
    ContextAnalyzer.calculate_concept_coverage concepts concepts = Ok q
    /\ q == 1.
Proof.
  unfold ContextAnalyzer.calculate_concept_coverage.
  destruct (bool_decide (concepts = ∅)) eqn:E.
  - exists 1.0. split; reflexivity.
  - apply bool_decide_eq_false in E.
    rewrite set_intersection_self.
    destruct (truediv_self _ (size_nonempty concepts E)) as [-> Hone].
    eexists. split; [reflexivity | exact Hone].
Qed.

(** The final stage on a full ensemble score and full coverage, with every
    expected concept found. *)
Lemma final_score_full (ws cov : Q) (k : Z) (r : ScoringAlgorithm.ScoringResult) :
  ws == 1 -> cov == 1 ->
  ScoringAlgorithm.calculate_final_score ws cov k k = Ok r ->
  ScoringAlgorithm.similarity r == 1
  /\ ScoringAlgorithm.score r == 6
  /\ ScoringAlgorithm.confidence r == 0.9
  /\ Qltb (ScoringAlgorithm.confidence r) 0.7 = false.
Proof.
  intros Hws Hcov Hr.
  apply calculate_final_score_inv in Hr as (a & Ha & Hs & Hc & Hsc).
  assert (Hadj : a = 1.0).
  { unfold ScoringAlgorithm.adjust_similarity in Ha.
    destruct (Qmin_cases (ws + cov * 0.15) 1.0) as [[Hle _]|[_ E]]; [lra|].
    rewrite E in Ha. change (Qltb 1.0 0.5) with false in Ha. congruence. }
  rewrite Hadj in Hs, Hsc.
  assert (Hconf : ScoringAlgorithm.confidence r == 0.9).
  { rewrite Hc. unfold ScoringAlgorithm._calculate_confidence,
      ScoringAlgorithm.base_confidence.
    assert (Hk : (k =? 0)%Z && (k >? 0)%Z = false) by (destruct k; reflexivity).
    rewrite Hk. case_Qcompare; case_Qminmax; lra. }
  split; [rewrite Hs; reflexivity|].
  split; [rewrite Hsc; vm_compute; reflexivity|].
  split; [exact Hconf|].
  apply Qltb_ge. lra.
Qed.

(** The endpoint on two copies of a text with content: the stages see all
    four signals at 1, and the response has score 6 and no review flag. *)
Lemma evaluate_identical (model : option (string -> string -> result Q))
    (t : string) (detailed : bool) (log : list string) :
  has_content t = true ->
  exists st sig,
    Service.evaluate model true t t detailed log
      = (Service.build_response st detailed,
         (log ++ Service.stage_names) ++ ["total"])
    /\ Service.st_model_scores st = Some sig
    /\ semantic_similarity sig == 1
    /\ keyword_matching sig == 1
    /\ length_similarity sig == 1
    /\ structure_similarity sig == 1
    /\ Service.st_ensemble_score st == 1
    /\ Service.st_ensemble_confidence st == 1
    /\ Service.similarity (Service.build_response st detailed) == 1
    /\ Service.score (Service.build_response st detailed) == 6
    /\ Service.confidence (Service.build_response st detailed) == 0.9
    /\ Service.needs_review (Service.build_response st detailed) = false.
Proof.
  intros Hcontent.
  assert (Hb : blank t = false) by now apply has_content_not_blank.
  destruct (normalized_text_blank (strip t)) as [Hn _].
  rewrite has_content_strip, Hcontent in Hn. cbn [negb] in Hn.
  destruct (run_stages_ok (strip t) (strip t) log)
    as (ma & sa & cov & er & sr & Hma & Hsa & Hcov & Her & Hsr & Hrun).
  rewrite Hma in Hsa. injection Hsa as <-.
  destruct (coverage_identical (ContextAnalyzer.concepts ma))
    as (cov' & Hcov' & Hcov1).
  rewrite Hcov in Hcov'. injection Hcov' as <-.
  destruct (ensemble_identical _ Hn)
    as (er' & sig & Her' & Hsig & H1 & H2 & H3 & H4 & Hws & _ & Hconf).
  rewrite Her in Her'. injection Her' as <-.
  rewrite set_intersection_self in Hsr, Hrun.
  destruct (final_score_full _ _ _ _ Hws Hcov1 Hsr) as (Hs & Hsc & Hc & Hrev).
  eexists. exists sig.
  split.
  { unfold Service.evaluate. rewrite !strip_blank, Hb.
    unfold Service.enhanced_evaluate, Service.mbind, Service.ret.
    rewrite Hrun. reflexivity. }
  cbn [Service.st_model_scores Service.st_ensemble_score
       Service.st_ensemble_confidence Service.build_response
       Service.st_scoring_result Service.similarity Service.score
       Service.confidence Service.needs_review].
  repeat (split; [assumption|]). exact Hrev.
Qed.

(** The staged evaluation on two copies of a text with content, whatever
    the caller: all four signals are 1, the response has score 6 and no
    review flag. *)
Lemma enhanced_evaluate_identical (t : string) (detailed : bool)
    (log : list string) :
  has_content t = true ->
  exists st sig,
    Service.run_stages t t log = (Ok st, log ++ Service.stage_names)
    /\ Service.enhanced_evaluate t t detailed log
       = (Ok (Service.build_response st detailed),
          log ++ Service.stage_names)
    /\ Service.st_model_scores st = Some sig
    /\ semantic_similarity sig == 1
    /\ keyword_matching sig == 1
    /\ length_similarity sig == 1
    /\ structure_similarity sig == 1
    /\ Service.st_ensemble_score st == 1
    /\ Service.st_ensemble_confidence st == 1
    /\ Service.similarity (Service.build_response st detailed) == 1
    /\ Service.score (Service.build_response st detailed) == 6
    /\ Service.confidence (Service.build_response st detailed) == 0.9
    /\ Service.needs_review (Service.build_response st detailed) = false.
Proof.
  intros Hcontent.
  destruct (normalized_text_blank t) as [Hn _].
  rewrite Hcontent in Hn. cbn [negb] in Hn.
  destruct (run_stages_ok t t log)
    as (ma & sa & cov & er & sr & Hma & Hsa & Hcov & Her & Hsr & Hrun).
  rewrite Hma in Hsa. injection Hsa as <-.
  destruct (coverage_identical (ContextAnalyzer.concepts ma))
    as (cov' & Hcov' & Hcov1).
  rewrite Hcov in Hcov'. injection Hcov' as <-.
  destruct (ensemble_identical _ Hn)
    as (er' & sig & Her' & Hsig & H1 & H2 & H3 & H4 & Hws & _ & Hconf).
  rewrite Her in Her'. injection Her' as <-.
  rewrite set_intersection_self in Hsr, Hrun.
  destruct (final_score_full _ _ _ _ Hws Hcov1 Hsr) as (Hs & Hsc & Hc & Hrev).
  eexists. exists sig.
  split; [exact Hrun|]. split.
  { unfold Service.enhanced_evaluate, Service.mbind, Service.ret.
    rewrite Hrun. reflexivity. }
  cbn [Service.st_model_scores Service.st_ensemble_score
       Service.st_ensemble_confidence Service.build_response
       Service.st_scoring_result Service.similarity Service.score
       Service.confidence Service.needs_review].
  repeat (split; [assumption|]). exact Hrev.
Qed.

(** Without the enhanced components the endpoint does not run the stages:
    with no embedding model it answers from the word overlap of the words
    longer than three characters, with confidence 0.5 and the review flag
    set, also on two copies of one text. *)
Lemma identical_texts_basic_mode :
  (forall (m s : string) (detailed : bool) (log : list string),
      blank m = false -> blank s = false ->
      Service.needs_review
        (fst (Service.evaluate None false m s detailed log)) = true)
  /\ Service.needs_review
       (fst (Service.evaluate None false "the quick brown fox jumps"
                              "the quick brown fox jumps" false [])) = true
  /\ Service.score (fst (Service.evaluate None false "fox" "fox" false []))
     == 0.
Proof.
  split; [|split; vm_compute; reflexivity].
  intros m s detailed log Hm Hs.
  unfold Service.evaluate. rewrite !strip_blank, Hm, Hs. reflexivity.
Qed.

(** C4 as stated fails at the non-empty text made of one space: the
    ensemble finds no word, so the semantic and keyword signals are 0, the
    weighted score is 0.2 and the variance 0.25; the endpoint strips the
    text and answers with the empty-reference response, score 0 and
    needs_review true. *)
Lemma one_space_text_scores_low :
  is_empty " " = false
  /\ (exists r sig,
        ensemble_evaluate " " " " = Ok r
        /\ model_scores r = Some sig
        /\ semantic_similarity sig == 0
        /\ keyword_matching sig == 0
        /\ weighted_score r == 0.2
        /\ variance r == 0.25
        /\ confidence r == 0.75)
  /\ Service.score (fst (Service.evaluate None true " " " " false [])) == 0
  /\ Service.needs_review
       (fst (Service.evaluate None true " " " " false [])) = true.
Proof.
  split; [reflexivity|]. split.
  - eexists. eexists. split; [vm_compute; reflexivity|].
    split; [reflexivity|]. repeat split; vm_compute; reflexivity.
  - split; vm_compute; reflexivity.
Qed.

(** C4, amended: for every text with a non-whitespace character,
    [ensemble_evaluate] on the text against itself returns all four signals
    equal to 1, weighted score 1, variance 0 and confidence 1; for every
    text with a word character, a period or a comma, the staged evaluation
    [enhanced_evaluate] of the text against itself sees these signals and
    returns similarity 1, final score 6.00 and needs_review false; and so
    does the endpoint when the enhanced components are available, which is
    when it runs the stages, for any embedding model; so it does for
    "the quick brown fox jumps". *)
Theorem identical_texts_full_score :
  (forall t : string,
      blank t = false ->
      exists r sig,
        ensemble_evaluate t t = Ok r
        /\ model_scores r = Some sig
        /\ semantic_similarity sig == 1
        /\ keyword_matching sig == 1
        /\ length_similarity sig == 1
        /\ structure_similarity sig == 1
        /\ weighted_score r == 1
        /\ variance r == 0
        /\ confidence r == 1)
  /\ (forall (t : string) (detailed : bool) (log : list string),
      has_content t = true ->
      exists st sig r,
        Service.run_stages t t log = (Ok st, log ++ Service.stage_names)
        /\ Service.enhanced_evaluate t t detailed log
           = (Ok r, log ++ Service.stage_names)
        /\ r = Service.build_response st detailed
        /\ Service.st_model_scores st = Some sig
        /\ semantic_similarity sig == 1
        /\ keyword_matching sig == 1
        /\ length_similarity sig == 1
        /\ structure_similarity sig == 1
        /\ Service.st_ensemble_score st == 1
        /\ Service.st_ensemble_confidence st == 1
        /\ Service.similarity r == 1
        /\ Service.score r == 6
        /\ Service.needs_review r = false)
  /\ (forall (model : option (string -> string -> result Q)) (t : string)
             (detailed : bool) (log : list string),
      has_content t = true ->
      exists st sig r,
        Service.evaluate model true t t detailed log
          = (r, (log ++ Service.stage_names) ++ ["total"])
        /\ r = Service.build_response st detailed
        /\ Service.st_model_scores st = Some sig
        /\ semantic_similarity sig == 1
        /\ keyword_matching sig == 1
        /\ length_similarity sig == 1
        /\ structure_similarity sig == 1
        /\ Service.st_ensemble_score st == 1
        /\ Service.st_ensemble_confidence st == 1
        /\ Service.similarity r == 1
        /\ Service.score r == 6
        /\ Service.needs_review r = false)
  /\ (let r := fst (Service.evaluate None true "the quick brown fox jumps"
                                     "the quick brown fox jumps" false []) in
      Service.score r == 6 /\ Service.needs_review r = false).
Proof.
  split; [exact ensemble_identical|]. split; [|split].
  - intros t detailed log Hcontent.
    destruct (enhanced_evaluate_identical t detailed log Hcontent)
      as (st & sig & Hrun & Hev & Hsig & H1 & H2 & H3 & H4 & Hws & Hconf & Hs
          & Hsc & _ & Hrev).
    exists st, sig, (Service.build_response st detailed).
    repeat (split; [first [assumption | reflexivity]|]). exact Hrev.
  - intros model t detailed log Hcontent.
    destruct (evaluate_identical model t detailed log Hcontent)
      as (st & sig & Hev & Hsig & H1 & H2 & H3 & H4 & Hws & Hconf & Hs & Hsc
          & _ & Hrev).
    exists st, sig, (Service.build_response st detailed).
    repeat (split; [first [assumption | reflexivity]|]). exact Hrev.
  - cbv zeta. split; vm_compute; reflexivity.
Qed.

Lemma identical_texts_full_score_witness :
  (exists r, ensemble_evaluate "fox" "fox" = Ok r /\ weighted_score r == 1)
  /\ (exists r log,
        Service.enhanced_evaluate "fox" "fox" false [] = (Ok r, log)
        /\ Service.score r == 6 /\ Service.needs_review r = false)
  /\ (exists r log,
        Service.evaluate None true "fox" "fox" false [] = (r, log)
        /\ Service.score r == 6 /\ Service.needs_review r = false).
Proof.
  split; [|split].
  - destruct (proj1 identical_texts_full_score "fox")
      as (r & sig & Hr & _ & _ & _ & _ & _ & Hws & _); [reflexivity|].
    exists r. split; [exact Hr | exact Hws].
  - destruct (proj1 (proj2 identical_texts_full_score) "fox" false [])
      as (st & sig & r & _ & Hev & _ & _ & _ & _ & _ & _ & _ & _ & _ & Hsc
          & Hrev);
      [reflexivity|].
    exists r. eexists. split; [exact Hev|]. split; [exact Hsc | exact Hrev].
  - destruct (proj1 (proj2 (proj2 identical_texts_full_score))
                None "fox" false [])
      as (st & sig & r & Hev & _ & _ & _ & _ & _ & _ & _ & _ & _ & Hsc & Hrev);
      [reflexivity|].
    exists r. eexists. split; [exact Hev|]. split; [exact Hsc | exact Hrev].
Defined.

End IdenticalTexts.

(* ================================================================= *)
(** * Further properties of the code *)
(* ================================================================= *)

(** As [case_Qminmax], also inside the hypotheses. *)
Ltac case_Qminmax_deep :=
  repeat match goal with
  | |- context [Qmin ?a ?b] =>
      let E := fresh "E" in
      destruct (Qmin_cases a b) as [[? E]|[? E]]; rewrite E in *; clear E
  | |- context [Qmax ?a ?b] =>
      let E := fresh "E" in
      destruct (Qmax_cases a b) as [[? E]|[? E]]; rewrite E in *; clear E
  | _ : context [Qmin ?a ?b] |- _ =>
      let E := fresh "E" in
      destruct (Qmin_cases a b) as [[? E]|[? E]]; rewrite E in *; clear E
  | _ : context [Qmax ?a ?b] |- _ =>
      let E := fresh "E" in
      destruct (Qmax_cases a b) as [[? E]|[? E]]; rewrite E in *; clear E
  end.

Lemma Qle_bool_false (a b : Q) : Qle_bool a b = false <-> (b < a)%Q.
Proof.
  split; intros H.
  - apply Qnot_le_lt. intros Hle. apply Qle_bool_iff in Hle. congruence.
  - apply not_true_is_false. intros Hle. apply Qle_bool_iff in Hle. lra.
Qed.

Section ScoringHelpers.
Import PyNum ScoringAlgorithm.
Local Open Scope Q_scope.


(** X2: in [calculate_score] a confidence of at most 0.5 counts as 0.5, and
    with the default weight and confidence a similarity in [0,1] is
    returned as it is. *)
Theorem calculate_score_confidence_floor :
  (forall (similarity : option Q) (context_weight confidence : Q),
      confidence <= 0.5 ->
      calculate_score similarity context_weight confidence
      == calculate_score similarity context_weight 0.5)
  /\ (forall s : Q,
      0 <= s -> s <= 1 -> calculate_score (Some s) 1.0 1.0 == s).
Proof.
  split.
  - intros similarity w c Hc. unfold calculate_score.
    destruct similarity as [s|]; [|reflexivity].
    destruct (Qltb s 0); [reflexivity|].
    assert (Hf : Qmax 0.5 c == Qmax 0.5 0.5) by (case_Qminmax_deep; lra).
    rewrite Hf. reflexivity.
  - intros s H0 H1. unfold calculate_score.
    destruct (Qltb s 0) eqn:E; [apply Qltb_lt in E; lra|].
    assert (Hf : Qmax 0.5 1.0 = 1.0) by reflexivity.
    rewrite Hf. clear Hf. case_Qminmax_deep; lra.
Qed.

Lemma calculate_score_confidence_floor_witness :
  calculate_score (Some 0.8) 1.0 0.2 == calculate_score (Some 0.8) 1.0 0.5
  /\ calculate_score (Some 0.8) 1.0 1.0 == 0.8.
Proof.
  split.
  - apply (proj1 calculate_score_confidence_floor (Some 0.8) 1.0 0.2). lra.
  - apply (proj2 calculate_score_confidence_floor 0.8); lra.
Defined.


(** X3: [get_score_category] names a category for every score in [0,1] and
    answers "unknown" exactly outside; a score on the border of two ranges
    gets the higher category, the ranges being tried from the top. *)
Theorem get_score_category_bands (score : Q) :
  (get_score_category score = "excellent" <-> 0.9 <= score <= 1)
  /\ (get_score_category score = "good" <-> 0.7 <= score < 0.9)
  /\ (get_score_category score = "average" <-> 0.5 <= score < 0.7)
  /\ (get_score_category score = "poor" <-> 0.3 <= score < 0.5)
  /\ (get_score_category score = "very_poor" <-> 0 <= score < 0.3)
  /\ (get_score_category score = "unknown" <-> score < 0 \/ 1 < score).
Proof.
  unfold get_score_category, score_ranges, find_category.
  repeat match goal with
  | |- context [Qle_bool ?a ?b] =>
      let E := fresh "E" in
      destruct (Qle_bool a b) eqn:E;
      [apply Qle_bool_iff in E | apply Qle_bool_false in E];
      try (exfalso; lra)
  end; cbn [andb];
    repeat split; intros; try discriminate; try reflexivity;
    try lra; try (exfalso; lra).
Qed.

(** X4: for a score in [0,1] and a non-negative factor, [apply_bonus] and
    [apply_penalty] stay in [0,1], the penalty never raising the score and
    the bonus never lowering it; the bonus gives 1 as soon as score plus
    factor reaches 1, and the penalty gives 0 as soon as the factor reaches
    the score. *)
Theorem bonus_and_penalty_bounds (score factor : Q) :
  0 <= score -> score <= 1 -> 0 <= factor ->
  0 <= apply_bonus score factor <= 1
  /\ 0 <= apply_penalty score factor <= 1
  /\ apply_penalty score factor <= score
  /\ score <= apply_bonus score factor
  /\ (1 <= score + factor -> apply_bonus score factor == 1)
  /\ (score <= factor -> apply_penalty score factor == 0).
Proof.
  intros H0 H1 Hf. unfold apply_bonus, apply_penalty.
  split; [|split; [|split; [|split; [|split; [intros Hcap|intros Hcap]]]]];
    case_Qminmax_deep; lra.
Qed.

Lemma bonus_and_penalty_bounds_witness :
  apply_bonus 0.95 0.1 == 1 /\ apply_penalty 0.05 0.1 == 0.
Proof.
  destruct (bonus_and_penalty_bounds 0.95 0.1 ltac:(lra) ltac:(lra) ltac:(lra))
    as (_ & _ & _ & _ & Hcap & _).
  destruct (bonus_and_penalty_bounds 0.05 0.1 ltac:(lra) ltac:(lra) ltac:(lra))
    as (_ & _ & _ & _ & _ & Hfloor).
  split; [apply Hcap; lra | apply Hfloor; lra].
Defined.






End ScoringHelpers.


Section EnsembleSignals.
Import PyStr PyNum EnsembleEvaluator.
Local Open Scope Q_scope.

(** X7: none of the four signal functions raises, for any two texts, and
    each returns a number in [0,1]. *)
Theorem signals_in_unit_interval (text1 text2 : string) :
  (exists q, _calculate_semantic_similarity text1 text2 = Ok q /\ 0 <= q <= 1)
  /\ (exists q, _calculate_keyword_similarity text1 text2 = Ok q
                /\ 0 <= q <= 1)
  /\ (exists q, _calculate_length_similarity text1 text2 = Ok q
                /\ 0 <= q <= 1)
  /\ (exists q, _calculate_structure_similarity text1 text2 = Ok q
                /\ 0 <= q <= 1).
Proof.
  split; [apply semantic_similarity_ok|].
  split; [apply keyword_similarity_ok|].
  split; [apply length_similarity_ok | apply structure_similarity_ok].
Qed.

Lemma count_ratio_comm (n1 n2 : nat) (both_zero one_zero : Q) :
  (if (n1 =? 0)%nat && (n2 =? 0)%nat then Ok both_zero
   else if (n1 =? 0)%nat || (n2 =? 0)%nat then Ok one_zero
   else truediv (of_nat (Nat.min n1 n2)) (of_nat (Nat.max n1 n2)))
  = (if (n2 =? 0)%nat && (n1 =? 0)%nat then Ok both_zero
     else if (n2 =? 0)%nat || (n1 =? 0)%nat then Ok one_zero
     else truediv (of_nat (Nat.min n2 n1)) (of_nat (Nat.max n2 n1))).
Proof.
  rewrite (andb_comm (n1 =? 0)%nat), (orb_comm (n1 =? 0)%nat).
  now rewrite (Nat.min_comm n1), (Nat.max_comm n1).
Qed.

(** X8: the semantic, the length and the structure signal do not depend on
    which text is the reference; the keyword signal does, as it counts the
    tokens of its first argument: "a a b" against "a" scores more than
    "a" against "a a b". *)
Theorem signals_symmetry :
  (forall text1 text2 : string,
      _calculate_semantic_similarity text1 text2
      = _calculate_semantic_similarity text2 text1
      /\ _calculate_length_similarity text1 text2
         = _calculate_length_similarity text2 text1
      /\ _calculate_structure_similarity text1 text2
         = _calculate_structure_similarity text2 text1)
  /\ (exists q1 q2,
        _calculate_keyword_similarity "a a b" "a" = Ok q1
        /\ _calculate_keyword_similarity "a" "a a b" = Ok q2
        /\ q2 < q1).
Proof.
  split.
  - intros text1 text2. split; [|split].
    + unfold _calculate_semantic_similarity.
      set (words1 := list_to_set (split (lower text1)) : gset string).
      set (words2 := list_to_set (split (lower text2)) : gset string).
      rewrite (orb_comm (bool_decide (words1 = ∅))).
      assert (Hi : words1 ∩ words2 = words2 ∩ words1).
      { apply set_eq. intros x. rewrite !elem_of_intersection. tauto. }
      assert (Hu : words1 ∪ words2 = words2 ∪ words1).
      { apply set_eq. intros x. rewrite !elem_of_union. tauto. }
      now rewrite Hi, Hu.
    + apply count_ratio_comm.
    + apply count_ratio_comm.
  - eexists. eexists. split; [vm_compute; reflexivity|].
    split; [vm_compute; reflexivity|]. reflexivity.
Qed.

Lemma unit_square_le (x : Q) : 0 <= x -> x <= 1 -> 0 <= x * (1 - x).
Proof. intros H0 H1. apply Qmult_le_0_compat; lra. Qed.

(** The population variance of four numbers of [0,1] is at most 1/4. *)
Lemma var_four_le_quarter (x1 x2 x3 x4 : Q) :
  0 <= x1 <= 1 -> 0 <= x2 <= 1 -> 0 <= x3 <= 1 -> 0 <= x4 <= 1 ->
  var [x1; x2; x3; x4] <= 1 # 4.
Proof.
  intros [L1 U1] [L2 U2] [L3 U3] [L4 U4].
  set (m := (x1 + x2 + x3 + x4) / 4).
  assert (Hvar : var [x1; x2; x3; x4]
                 == (1 # 4)
                    - (x1 * (1 - x1) + x2 * (1 - x2) + x3 * (1 - x3)
                       + x4 * (1 - x4)) / 4
                    - (m - (1 # 2)) * (m - (1 # 2))).
  { unfold var, PyNum.sum, m. cbn [map fold_left length].
    change (of_nat 4) with 4. field. }
  rewrite Hvar.
  pose proof (unit_square_le x1 L1 U1) as P1.
  pose proof (unit_square_le x2 L2 U2) as P2.
  pose proof (unit_square_le x3 L3 U3) as P3.
  pose proof (unit_square_le x4 L4 U4) as P4.
  pose proof (Qsquare_nonneg (m - (1 # 2))) as Pm.
  set (a1 := x1 * (1 - x1)) in *. set (a2 := x2 * (1 - x2)) in *.
  set (a3 := x3 * (1 - x3)) in *. set (a4 := x4 * (1 - x4)) in *.
  set (sq := (m - (1 # 2)) * (m - (1 # 2))) in *.
  assert (Hdiv : 0 <= (a1 + a2 + a3 + a4) / 4).
  { apply Qle_shift_div_l; lra. }
  lra.
Qed.

(** What [ensemble_evaluate] returns on two non-empty texts, in terms of the
    four signals. *)
Lemma ensemble_evaluate_nonempty (model_answer student_answer : string) :
  is_empty model_answer = false -> is_empty student_answer = false ->
  exists s1 s2 s3 s4 r,
    _calculate_semantic_similarity model_answer student_answer = Ok s1
    /\ _calculate_keyword_similarity model_answer student_answer = Ok s2
    /\ _calculate_length_similarity model_answer student_answer = Ok s3
    /\ _calculate_structure_similarity model_answer student_answer = Ok s4
    /\ (0 <= s1 <= 1) /\ (0 <= s2 <= 1) /\ (0 <= s3 <= 1) /\ (0 <= s4 <= 1)
    /\ ensemble_evaluate model_answer student_answer = Ok r
    /\ model_scores r = Some {| semantic_similarity := s1;
                                keyword_matching := s2;
                                length_similarity := s3;
                                structure_similarity := s4 |}
    /\ weighted_score r
       = Qmin (Qmax (s1 * 0.6 + s2 * 0.2 + s3 * 0.1 + s4 * 0.1) 0.0) 1.0
    /\ variance r = var [s1; s2; s3; s4]
    /\ confidence r = Qmax 0.5 (1.0 - Qmin (var [s1; s2; s3; s4]) 1.0).
Proof.
  intros Hm Hs.
  destruct (semantic_similarity_ok model_answer student_answer) as (s1 & E1 & R1).
  destruct (keyword_similarity_ok model_answer student_answer) as (s2 & E2 & R2).
  destruct (length_similarity_ok model_answer student_answer) as (s3 & E3 & R3).
  destruct (structure_similarity_ok model_answer student_answer) as (s4 & E4 & R4).
  exists s1, s2, s3, s4. eexists.
  repeat (split; [eassumption|]).
  unfold ensemble_evaluate. rewrite Hm, Hs, E1, E2, E3, E4. cbn [orb bind].
  split; [reflexivity|]. repeat split.
Qed.

(** X9: on two non-empty texts the weighted score is exactly
    0.6 semantic + 0.2 keyword + 0.1 length + 0.1 structure, the clamp to
    [0,1] never changing it, and the legacy [evaluate] returns this number;
    when a text is empty [evaluate] returns 0. *)
Theorem weighted_score_is_weighted_sum (model_answer student_answer : string) :
  (is_empty model_answer = false -> is_empty student_answer = false ->
   exists r sig w,
     ensemble_evaluate model_answer student_answer = Ok r
     /\ model_scores r = Some sig
     /\ evaluate model_answer student_answer = Ok w
     /\ w = weighted_score r
     /\ w == 0.6 * semantic_similarity sig + 0.2 * keyword_matching sig
            + 0.1 * length_similarity sig + 0.1 * structure_similarity sig)
  /\ (is_empty model_answer || is_empty student_answer = true ->
      evaluate model_answer student_answer = Ok 0.0).
Proof.
  split.
  - intros Hm Hs.
    destruct (ensemble_evaluate_nonempty model_answer student_answer Hm Hs)
      as (s1 & s2 & s3 & s4 & r & _ & _ & _ & _ & R1 & R2 & R3 & R4
          & Hr & Hsig & Hw & _).
    exists r. eexists. exists (weighted_score r).
    split; [exact Hr|]. split; [exact Hsig|].
    split; [unfold evaluate; now rewrite Hr|]. split; [reflexivity|].
    rewrite Hw. cbn [semantic_similarity keyword_matching length_similarity
                     structure_similarity].
    case_Qminmax_deep; lra.
  - intros He. unfold evaluate, ensemble_evaluate. now rewrite He.
Qed.

Lemma weighted_score_is_weighted_sum_witness :
  exists r w, ensemble_evaluate "loop code" "code" = Ok r
              /\ evaluate "loop code" "code" = Ok w /\ w = weighted_score r.
Proof.
  destruct (proj1 (weighted_score_is_weighted_sum "loop code" "code")
              eq_refl eq_refl)
    as (r & sig & w & Hr & _ & Hev & Hw & _).
  exists r, w. split; [exact Hr|]. split; [exact Hev | exact Hw].
Defined.

(** X10: on two non-empty texts the variance of the four signals is at most
    1/4, so the ensemble confidence is 1 minus the variance and at least
    0.75: neither the cap of the variance at 1 nor the floor of the
    confidence at 0.5 ever acts. *)
Theorem ensemble_confidence_at_least_075 (model_answer student_answer : string) :
  is_empty model_answer = false -> is_empty student_answer = false ->
  exists r,
    ensemble_evaluate model_answer student_answer = Ok r
    /\ 0 <= variance r <= 1 # 4
    /\ confidence r == 1 - variance r
    /\ 0.75 <= confidence r <= 1.
Proof.
  intros Hm Hs.
  destruct (ensemble_evaluate_nonempty model_answer student_answer Hm Hs)
    as (s1 & s2 & s3 & s4 & r & _ & _ & _ & _ & R1 & R2 & R3 & R4
        & Hr & _ & _ & Hv & Hc).
  exists r. split; [exact Hr|].
  pose proof (var_four_le_quarter s1 s2 s3 s4 R1 R2 R3 R4) as Hle.
  pose proof (var_nonneg [s1; s2; s3; s4]) as Hge.
  rewrite Hc, Hv.
  split; [lra|]. split; case_Qminmax; lra.
Qed.

Lemma ensemble_confidence_at_least_075_witness :
  exists r, ensemble_evaluate "a" "b" = Ok r /\ 0.75 <= confidence r <= 1.
Proof.
  destruct (ensemble_confidence_at_least_075 "a" "b" eq_refl eq_refl)
    as (r & Hr & _ & _ & Hc).
  exists r. split; [exact Hr | exact Hc].
Defined.

End EnsembleSignals.

Section PreprocessorOutput.
Import PyStr SpecWords Shapes TextPreprocessor.

Lemma length_lower (s : string) : String.length (lower s) = String.length s.
Proof. induction s as [|c s IH]; [reflexivity|]. cbn. now rewrite IH. Qed.

Lemma length_sub_special (s : string) :
  String.length (sub_special s) <= String.length s.
Proof.
  induction s as [|c s IH]; [reflexivity|].
  cbn [sub_special]. destruct (is_kept c); cbn [String.length]; lia.
Qed.

Lemma length_lstrip (s : string) : String.length (lstrip s) <= String.length s.
Proof.
  induction s as [|c s IH]; [reflexivity|].
  cbn [lstrip]. destruct (isspace c); cbn [String.length]; lia.
Qed.

Lemma length_rstrip (s : string) : String.length (rstrip s) <= String.length s.
Proof.
  induction s as [|c s IH]; [reflexivity|].
  cbn [rstrip]. destruct (isspace c && is_empty (rstrip s));
    cbn [String.length]; lia.
Qed.

Lemma length_strip (s : string) : String.length (strip s) <= String.length s.
Proof.
  unfold strip. pose proof (length_rstrip (lstrip s)).
  pose proof (length_lstrip s). lia.
Qed.

Lemma strip_fixed (s : string) :
  starts_nonspace s = true -> rstrip s = s -> strip s = s.
Proof. intros Hs Hr. unfold strip. now rewrite (lstrip_fixed s Hs). Qed.

Lemma strip_idempotent (s : string) : strip (strip s) = strip s.
Proof.
  apply strip_fixed.
  - unfold strip. apply starts_nonspace_rstrip, starts_nonspace_lstrip.
  - unfold strip. apply rstrip_idempotent.
Qed.

Lemma length_normalized_text (text : string) :
  String.length (normalized_text (preprocess text)) <= String.length text.
Proof.
  unfold preprocess. destruct (is_empty text); [cbn; lia|].
  cbn [normalized_text].
  pose proof (length_strip (sub_special (sub_whitespace (lower text)))).
  pose proof (length_sub_special (sub_whitespace (lower text))).
  pose proof (length_sub_whitespace_from false (lower text)).
  pose proof (length_lower text). unfold sub_whitespace in *. lia.
Qed.

(** X11: the text [preprocess] returns is in lowercase, holds only word
    characters, periods, commas and spaces (no other whitespace), has no
    whitespace at either end, is no longer than the input, and is empty
    exactly when the input has no word character, period or comma; no
    preserved term is ever reported. *)
Theorem normalized_text_properties (text : string) :
  let n := normalized_text (preprocess text) in
  all_chars is_lowered n = true
  /\ all_chars is_kept n = true
  /\ all_chars is_plain n = true
  /\ strip n = n
  /\ String.length n <= String.length text
  /\ is_empty n = negb (has_content text)
  /\ preserved_terms (preprocess text) = [].
Proof.
  cbv zeta.
  destruct (normalized_text_shape text) as (Hlow & Hplain & Hkept & Hstart & Hend).
  split; [exact Hlow|]. split; [exact Hkept|]. split; [exact Hplain|].
  split; [now apply strip_fixed|].
  split; [|split; [apply (normalized_text_blank text)|]].
  - apply length_normalized_text.
  - unfold preprocess. now destruct (is_empty text).
Qed.

Lemma eqb_refl_false (a b : string) : negb (String.eqb a b) = false <-> a = b.
Proof.
  rewrite negb_false_iff. apply String.eqb_eq.
Qed.

(** X12: [preprocess] reports no correction exactly when the lowercase, the
    whitespace and the punctuation step all leave the text as it is; the
    normalized text is then the input without the whitespace at its ends,
    a trim being never reported. *)
Theorem no_correction_means_trimmed (text : string) :
  (corrections (preprocess text) = [] <->
   lower text = text /\ sub_whitespace text = text /\ sub_special text = text)
  /\ (corrections (preprocess text) = [] ->
      normalized_text (preprocess text) = strip text).
Proof.
  unfold preprocess. destruct text as [|c text]; [now repeat split|].
  cbn [is_empty]. set (t := String c text). cbn [corrections normalized_text].
  destruct (String.eqb (lower t) t) eqn:E1; cbn [negb];
    [apply String.eqb_eq in E1; rewrite !E1|].
  - destruct (String.eqb (sub_whitespace t) t) eqn:E2; cbn [negb];
      [apply String.eqb_eq in E2; rewrite !E2|].
    + destruct (String.eqb (sub_special t) t) eqn:E3; cbn [negb];
        [apply String.eqb_eq in E3; rewrite !E3|].
      * now repeat split.
      * apply String.eqb_neq in E3. cbn [app].
        split; [split; [discriminate | tauto] | discriminate].
    + apply String.eqb_neq in E2. cbn [app].
      split; [split|].
      * intros H. destruct (negb _) in H; discriminate H.
      * tauto.
      * intros H. destruct (negb _) in H; discriminate H.
  - apply String.eqb_neq in E1. cbn [app].
    split; [split|].
    + intros H. repeat destruct (negb _) in H; discriminate H.
    + tauto.
    + intros H. repeat destruct (negb _) in H; discriminate H.
Qed.

Lemma no_correction_means_trimmed_witness :
  normalized_text (preprocess " a b ") = strip " a b "
  /\ strip " a b " = "a b".
Proof.
  split; [|reflexivity].
  apply (proj2 (no_correction_means_trimmed " a b ")). reflexivity.
Defined.

Lemma all_chars_sub_whitespace (p : ascii -> bool) (s : string) :
  p " "%char = true -> all_chars p s = true ->
  all_chars p (sub_whitespace s) = true.
Proof.
  intros Hsp Hall. apply all_chars_sub_whitespace_from; [exact Hsp|].
  apply (all_chars_weaken p); [|exact Hall].
  intros c ->. apply orb_true_r.
Qed.

(** X13: normalization settles with the second pass: the second pass
    returns the first normalized text with its runs of spaces collapsed,
    and every further pass returns its input unchanged, with no
    correction. *)
Theorem preprocess_settles_after_second_pass (text : string) :
  let n1 := normalized_text (preprocess text) in
  let n2 := normalized_text (preprocess n1) in
  n2 = sub_whitespace n1
  /\ single_spaced n2 = true
  /\ preprocess n2
     = {| normalized_text := n2; corrections := []; preserved_terms := [] |}.
Proof.
  cbv zeta.
  destruct (normalized_text_shape text) as (Hlow & Hplain & Hkept & Hstart & Hend).
  set (n1 := normalized_text (preprocess text)) in *.
  pose proof (preprocess_normalized n1 Hlow Hplain Hkept Hstart Hend) as Hpass.
  rewrite Hpass. cbn [normalized_text].
  assert (Hss : single_spaced (sub_whitespace n1) = true)
    by apply single_spaced_sub_whitespace_from.
  split; [reflexivity|]. split; [exact Hss|].
  rewrite preprocess_normalized.
  - rewrite Hss. f_equal.
    pose proof (sub_whitespace_fixed_iff (sub_whitespace n1)) as Hfix.
    rewrite Hss in Hfix. apply String.eqb_eq, Hfix.
    now apply all_chars_sub_whitespace.
  - now apply all_chars_sub_whitespace.
  - now apply all_chars_sub_whitespace.
  - now apply all_chars_sub_whitespace.
  - now apply starts_nonspace_sub_whitespace.
  - now apply rstrip_sub_whitespace_from.
Qed.

(** *** [clean_text] *)

Lemma isspace_not_word (c : ascii) : isspace c = true -> isword c = false.
Proof.
  destruct c as [[] [] [] [] [] [] [] []]; vm_compute; intros H;
    first [reflexivity | discriminate H].
Qed.

Lemma isspace_not_decimal (c : ascii) :
  isspace c = true -> isdecimal c = false.
Proof.
  destruct c as [[] [] [] [] [] [] [] []]; vm_compute; intros H;
    first [reflexivity | discriminate H].
Qed.

Lemma sub_single_from_nonword (b b' : bool) (s : string) :
  starts_word s = false -> sub_single_from b s = sub_single_from b' s.
Proof.
  destruct s as [|c s]; [reflexivity|]. cbn [starts_word]. intros Hc.
  cbn [sub_single_from]. now rewrite Hc.
Qed.

Lemma starts_word_sub_single (s : string) :
  starts_word s = true -> starts_word (sub_single_from true s) = true.
Proof.
  destruct s as [|c s]; [discriminate|]. cbn [starts_word]. intros Hc.
  cbn [sub_single_from]. rewrite Hc. cbn [negb andb starts_word]. exact Hc.
Qed.

Lemma has_single_sub_single_from (prev_word : bool) (s : string) :
  has_single_from prev_word (sub_single_from prev_word s) = false.
Proof.
  revert prev_word. induction s as [|c s IH]; intros prev_word; [reflexivity|].
  cbn [sub_single_from].
  destruct (isword c) eqn:Ec; [destruct prev_word;
                               [|destruct (starts_word s) eqn:Es]|];
    cbn [negb andb].
  - cbn [has_single_from]. rewrite Ec. cbn [negb andb orb]. apply IH.
  - cbn [has_single_from]. rewrite Ec, (starts_word_sub_single s Es).
    cbn [negb andb orb]. apply IH.
  - rewrite (sub_single_from_nonword true false s Es). apply IH.
  - cbn [has_single_from]. rewrite Ec. cbn [andb orb]. apply IH.
Qed.

Lemma has_single_lstrip (s : string) :
  has_single_from false (lstrip s) = has_single_from false s.
Proof.
  induction s as [|c s IH]; [reflexivity|].
  cbn [lstrip]. destruct (isspace c) eqn:E; [|reflexivity].
  cbn [has_single_from]. rewrite (isspace_not_word c E). exact IH.
Qed.

Lemma starts_word_rstrip (s : string) : starts_word (rstrip s) = starts_word s.
Proof.
  destruct s as [|c s]; [reflexivity|]. cbn [rstrip].
  destruct (isspace c && is_empty (rstrip s)) eqn:E; [|reflexivity].
  apply andb_prop in E as [E _]. cbn [starts_word].
  now rewrite (isspace_not_word c E).
Qed.

Lemma has_single_rstrip (prev_word : bool) (s : string) :
  has_single_from prev_word s = false ->
  has_single_from prev_word (rstrip s) = false.
Proof.
  revert prev_word. induction s as [|c s IH]; intros prev_word; [trivial|].
  cbn [rstrip has_single_from]. intros H.
  apply orb_false_iff in H as [H1 H2].
  destruct (isspace c && is_empty (rstrip s)); [reflexivity|].
  cbn [has_single_from]. rewrite starts_word_rstrip, H1. cbn [orb].
  now apply IH.
Qed.

Lemma has_digit_sub_digits (s : string) : has_digit (sub_digits s) = false.
Proof.
  induction s as [|c s IH]; [reflexivity|].
  cbn [sub_digits]. destruct (isdecimal c) eqn:E; [exact IH|].
  cbn [has_digit]. now rewrite E, IH.
Qed.

Lemma has_digit_sub_single_from (prev_word : bool) (s : string) :
  has_digit s = false -> has_digit (sub_single_from prev_word s) = false.
Proof.
  revert prev_word. induction s as [|c s IH]; intros prev_word; [trivial|].
  cbn [has_digit sub_single_from]. intros H.
  apply orb_false_iff in H as [H1 H2].
  destruct (isword c && negb prev_word && negb (starts_word s));
    [now apply IH|].
  cbn [has_digit]. rewrite H1. now apply IH.
Qed.

Lemma has_digit_lstrip (s : string) :
  has_digit s = false -> has_digit (lstrip s) = false.
Proof.
  induction s as [|c s IH]; [trivial|].
  cbn [lstrip]. destruct (isspace c); [|trivial].
  cbn [has_digit]. intros H. apply orb_false_iff in H as [_ H]. now apply IH.
Qed.

Lemma has_digit_rstrip (s : string) :
  has_digit s = false -> has_digit (rstrip s) = false.
Proof.
  induction s as [|c s IH]; [trivial|].
  cbn [rstrip has_digit]. intros H. apply orb_false_iff in H as [H1 H2].
  destruct (isspace c && is_empty (rstrip s)); [reflexivity|].
  cbn [has_digit]. rewrite H1. now apply IH.
Qed.

Lemma length_sub_digits (s : string) :
  String.length (sub_digits s) <= String.length s.
Proof.
  induction s as [|c s IH]; [reflexivity|].
  cbn [sub_digits]. destruct (isdecimal c); cbn [String.length]; lia.
Qed.

Lemma length_sub_single_from (prev_word : bool) (s : string) :
  String.length (sub_single_from prev_word s) <= String.length s.
Proof.
  revert prev_word. induction s as [|c s IH]; intros prev_word; [reflexivity|].
  cbn [sub_single_from].
  pose proof (IH (isword c)).
  destruct (isword c && negb prev_word && negb (starts_word s));
    cbn [String.length]; lia.
Qed.

(** X14: the text [clean_text] returns has no decimal digit, no
    one-character word (a word character with no word character next to
    it) and no whitespace at either end, and it is no longer than the
    input. *)
Theorem clean_text_properties (text : string) :
  has_digit (clean_text text) = false
  /\ has_single (clean_text text) = false
  /\ strip (clean_text text) = clean_text text
  /\ String.length (clean_text text) <= String.length text.
Proof.
  unfold clean_text. set (n := normalized_text (preprocess text)).
  split; [|split; [|split]].
  - unfold strip. apply has_digit_rstrip, has_digit_lstrip.
    apply has_digit_sub_single_from, has_digit_sub_digits.
  - unfold has_single, strip. apply has_single_rstrip.
    rewrite has_single_lstrip. apply has_single_sub_single_from.
  - apply strip_idempotent.
  - pose proof (length_strip (sub_single (sub_digits n))).
    pose proof (length_sub_single_from false (sub_digits n)).
    pose proof (length_sub_digits n).
    pose proof (length_normalized_text text) as Hlen.
    fold n in Hlen. unfold sub_single in *. lia.
Qed.

End PreprocessorOutput.

Section AnalyzerOutput.
Import PyStr PyNum SpecWords Shapes ContextAnalyzer.








End AnalyzerOutput.

Section ContextWeight.
Import PyNum ContextAnalyzer.
Local Open Scope Q_scope.

(** X16: [get_context_weight] returns 1.1 for the complexity "medium", 1.2
    for "high" and 1.0 in every other case: for "low", for a complexity it
    does not know and for a dict without the key; so the weight is always
    between 1 and 1.2. *)
Theorem context_weight_values (context_info : gmap string string) :
  (context_info !! "complexity" = None ->
   get_context_weight context_info = 1.0)
  /\ (forall v, context_info !! "complexity" = Some v ->
                get_context_weight context_info
                = if String.eqb v "medium" then 1.1
                  else if String.eqb v "high" then 1.2 else 1.0)
  /\ 1 <= get_context_weight context_info <= 1.2.
Proof.
  assert (Hv : forall v : string,
             default 1.0 (complexity_weights !! v)
             = if String.eqb v "medium" then 1.1
               else if String.eqb v "high" then 1.2 else 1.0).
  { intros v. unfold complexity_weights.
    destruct (String.eqb v "medium") eqn:Em.
    { apply String.eqb_eq in Em. subst v. reflexivity. }
    destruct (String.eqb v "high") eqn:Eh.
    { apply String.eqb_eq in Eh. subst v. reflexivity. }
    apply String.eqb_neq in Em, Eh.
    destruct (String.eqb v "low") eqn:El.
    { apply String.eqb_eq in El. subst v. reflexivity. }
    apply String.eqb_neq in El.
    rewrite lookup_insert_ne by congruence.
    rewrite lookup_insert_ne by congruence.
    rewrite lookup_singleton_ne by congruence. reflexivity. }
  unfold get_context_weight.
  destruct (context_info !! "complexity") as [v|] eqn:E; cbn [default].
  - split; [discriminate|]. split.
    + intros v' Hv'. injection Hv' as <-. apply Hv.
    + rewrite Hv. unfold id. destruct (String.eqb v "medium"); [lra|].
      destruct (String.eqb v "high"); lra.
  - split; [reflexivity|]. split; [discriminate|].
    change (default 1.0 (complexity_weights !! "low")) with 1.0. lra.
Qed.

Lemma context_weight_values_witness :
  get_context_weight {[ "complexity" := complexity_name medium ]} = 1.1
  /\ get_context_weight ∅ = 1.0.
Proof.
  split.
  - apply (proj1 (proj2 (context_weight_values
                           {[ "complexity" := complexity_name medium ]}))
             "medium").
    reflexivity.
  - apply (proj1 (context_weight_values ∅)). reflexivity.
Defined.

End ContextWeight.

Section ConceptCoverage.
Import PyNum ContextAnalyzer.
Local Open Scope Q_scope.

Lemma of_nat_eq (n m : nat) : of_nat n == of_nat m -> n = m.
Proof.
  unfold of_nat. intros H. unfold Qeq in H. cbn in H. lia.
Qed.

Lemma concept_coverage_value (student_concepts model_concepts : gset string) :
  model_concepts <> ∅ ->
  calculate_concept_coverage student_concepts model_concepts
  = Ok (of_nat (size (student_concepts ∩ model_concepts))
        / of_nat (size model_concepts))
  /\ (0 < size model_concepts)%nat.
Proof.
  intros Hne. unfold calculate_concept_coverage.
  destruct (bool_decide (model_concepts = ∅)) eqn:E.
  { apply bool_decide_eq_true in E. contradiction. }
  assert (Hm : (0 < size model_concepts)%nat).
  { apply Nat.neq_0_lt_0. apply size_non_empty_iff.
    intros Hempty. apply Hne. now apply leibniz_equiv. }
  split; [|exact Hm].
  apply truediv_counts; [|exact Hm].
  apply subseteq_size, intersection_subseteq_r.
Qed.

(** X17: [calculate_concept_coverage] never raises; with no expected
    concept it is 1.0 whatever the student's concepts are; otherwise it is
    the share of the expected concepts that the student has, which is 1
    exactly when the student has all of them and 0 exactly when the student
    has none of them; concepts the student has beyond the expected ones
    change nothing. *)
Theorem concept_coverage_extremes (student_concepts model_concepts : gset string) :
  exists q,
    calculate_concept_coverage student_concepts model_concepts = Ok q
    /\ (model_concepts = ∅ -> q = 1.0)
    /\ (model_concepts <> ∅ ->
        q = of_nat (size (student_concepts ∩ model_concepts))
            / of_nat (size model_concepts)
        /\ (q == 0 <-> student_concepts ∩ model_concepts = ∅))
    /\ (q == 1 <-> model_concepts ⊆ student_concepts)
    /\ calculate_concept_coverage (student_concepts ∩ model_concepts)
         model_concepts = Ok q.
Proof.
  destruct (decide (model_concepts = ∅)) as [He|Hne].
  - subst model_concepts. exists 1.0.
    split; [reflexivity|]. split; [reflexivity|]. split; [contradiction|].
    split; [|reflexivity]. split; [intros _; set_solver | intros _; lra].
  - destruct (concept_coverage_value student_concepts model_concepts Hne)
      as [Hq Hm].
    destruct (concept_coverage_value (student_concepts ∩ model_concepts)
                model_concepts Hne) as [Hq' _].
    assert (Hi : student_concepts ∩ model_concepts ∩ model_concepts
                 = student_concepts ∩ model_concepts).
    { apply set_eq. intros x. rewrite !elem_of_intersection. tauto. }
    rewrite Hi in Hq'.
    eexists. split; [exact Hq|]. split; [contradiction|].
    pose proof (of_nat_pos _ Hm) as Hp.
    set (matched := size (student_concepts ∩ model_concepts)) in *.
    assert (Hle : (matched <= size model_concepts)%nat).
    { apply subseteq_size, intersection_subseteq_r. }
    split; [|split].
    + intros _. split; [reflexivity|]. split.
      * intros H0.
        assert (Hz : of_nat matched == of_nat 0).
        { change (of_nat 0) with 0.
          rewrite <- (Qmult_div_r (of_nat matched) (of_nat (size model_concepts)))
            by lra.
          rewrite H0. ring. }
        apply of_nat_eq in Hz. apply leibniz_equiv.
        now apply size_empty_iff.
      * intros Hempty. unfold matched. rewrite Hempty, size_empty.
        change (of_nat 0) with 0. field. lra.
    + split.
      * intros H1.
        assert (Hz : of_nat matched == of_nat (size model_concepts)).
        { rewrite <- (Qmult_div_r (of_nat matched) (of_nat (size model_concepts)))
            by lra.
          rewrite H1. ring. }
        apply of_nat_eq in Hz.
        assert (Heq : student_concepts ∩ model_concepts ≡ model_concepts).
        { apply set_subseteq_size_equiv; [apply intersection_subseteq_r|].
          unfold matched in Hz. lia. }
        intros x Hx. apply Heq in Hx. apply elem_of_intersection in Hx.
        tauto.
      * intros Hsub.
        assert (Heq : student_concepts ∩ model_concepts = model_concepts).
        { apply set_eq. intros x. rewrite elem_of_intersection.
          split; [tauto|]. intros Hx. split; [now apply Hsub | exact Hx]. }
        unfold matched. rewrite Heq. field. lra.
    + exact Hq'.
Qed.

Lemma concept_coverage_extremes_witness :
  exists q,
    calculate_concept_coverage {[ "loop"; "beam" ]} {[ "loop"; "code" ]} = Ok q
    /\ q = of_nat (size (({[ "loop"; "beam" ]} : gset string)
                         ∩ {[ "loop"; "code" ]}))
           / of_nat (size ({[ "loop"; "code" ]} : gset string)).
Proof.
  destruct (concept_coverage_extremes {[ "loop"; "beam" ]} {[ "loop"; "code" ]})
    as (q & Hq & _ & Hval & _).
  exists q. split; [exact Hq|]. apply Hval.
  intros Hempty.
  apply (not_elem_of_empty (C := gset string) "loop"). rewrite <- Hempty.
  apply elem_of_union_l, elem_of_singleton. reflexivity.
Defined.

(** X18: the coverage can only grow when the student has more concepts. *)
Theorem concept_coverage_monotone
    (student_concepts more_concepts model_concepts : gset string) :
  student_concepts ⊆ more_concepts ->
  exists q q',
    calculate_concept_coverage student_concepts model_concepts = Ok q
    /\ calculate_concept_coverage more_concepts model_concepts = Ok q'
    /\ q <= q'.
Proof.
  intros Hsub.
  destruct (decide (model_concepts = ∅)) as [He|Hne].
  - subst model_concepts. exists 1.0, 1.0. repeat split; lra.
  - destruct (concept_coverage_value student_concepts model_concepts Hne)
      as [Hq Hm].
    destruct (concept_coverage_value more_concepts model_concepts Hne)
      as [Hq' _].
    eexists. eexists. split; [exact Hq|]. split; [exact Hq'|].
    pose proof (of_nat_pos _ Hm) as Hp.
    apply Qmult_le_r with (z := of_nat (size model_concepts)); [exact Hp|].
    rewrite !Qmult_comm with (y := of_nat (size model_concepts)).
    rewrite !Qmult_div_r by lra.
    apply of_nat_le. apply subseteq_size.
    intros x Hx. apply elem_of_intersection in Hx as [Hs Hm'].
    apply elem_of_intersection. split; [now apply Hsub | exact Hm'].
Qed.

Lemma concept_coverage_monotone_witness :
  exists q q',
    calculate_concept_coverage {[ "loop" ]} {[ "loop"; "code" ]} = Ok q
    /\ calculate_concept_coverage {[ "loop"; "code" ]} {[ "loop"; "code" ]}
       = Ok q'
    /\ q <= q'.
Proof.
  apply (concept_coverage_monotone {[ "loop" ]} {[ "loop"; "code" ]}).
  apply union_subseteq_l.
Defined.

End ConceptCoverage.

Section FallbackSimilarity.
Import PyStr PyNum SpecWords.
Local Open Scope Q_scope.

Lemma simple_similarity_range (text1 text2 : string) :
  0 <= Service.simple_similarity text1 text2 <= 1.
Proof.
  unfold Service.simple_similarity.
  destruct (is_empty text1 || is_empty text2); [lra|].
  set (words1 := filter _ _). set (words2 := filter _ _).
  destruct (bool_decide (words1 = ∅) || bool_decide (words2 = ∅)); [lra|].
  destruct (bool_decide (words1 ∪ words2 = ∅)) eqn:E; [lra|].
  apply bool_decide_eq_false in E.
  apply (truediv_counts (size (words1 ∩ words2)) (size (words1 ∪ words2))).
  - apply subseteq_size. intros x Hx. apply elem_of_intersection in Hx.
    apply elem_of_union. tauto.
  - now apply size_nonempty.
Qed.

(** X19: the word-overlap similarity behind every fallback answer lies in
    [0,1] and does not depend on the order of the two texts; of a text
    against itself it is 1 when the text has a word of more than three
    characters and 0 when it has none, however long the text is. *)
Theorem simple_similarity_properties (text1 text2 : string) :
  0 <= Service.simple_similarity text1 text2 <= 1
  /\ Service.simple_similarity text1 text2
     = Service.simple_similarity text2 text1
  /\ (let long_words : gset string :=
        filter (fun w => (3 < String.length w)%nat)
               (list_to_set (split (lower text1))) in
      (long_words = ∅ -> Service.simple_similarity text1 text1 = 0.0)
      /\ (long_words <> ∅ -> Service.simple_similarity text1 text1 == 1)).
Proof.
  split; [apply simple_similarity_range|]. split.
  - unfold Service.simple_similarity.
    rewrite (orb_comm (is_empty text1)).
    destruct (is_empty text2 || is_empty text1); [reflexivity|].
    set (words1 := filter _ (list_to_set (split (lower text1)))).
    set (words2 := filter _ (list_to_set (split (lower text2)))).
    rewrite (orb_comm (bool_decide (words1 = ∅))).
    assert (Hi : words1 ∩ words2 = words2 ∩ words1).
    { apply set_eq. intros x. rewrite !elem_of_intersection. tauto. }
    assert (Hu : words1 ∪ words2 = words2 ∪ words1).
    { apply set_eq. intros x. rewrite !elem_of_union. tauto. }
    now rewrite Hi, Hu.
  - cbv zeta. unfold Service.simple_similarity.
    set (words := filter _ (list_to_set (split (lower text1)))).
    split.
    + intros Hempty. rewrite Hempty.
      destruct (is_empty text1 || is_empty text1); [reflexivity|].
      rewrite bool_decide_eq_true_2 by reflexivity. reflexivity.
    + intros Hne.
      destruct (is_empty text1) eqn:He.
      { destruct text1; [|discriminate]. exfalso. apply Hne. reflexivity. }
      cbn [orb].
      rewrite (bool_decide_eq_false_2 (words = ∅)) by exact Hne. cbn [orb].
      rewrite set_intersection_self, set_union_self.
      rewrite (bool_decide_eq_false_2 (words = ∅)) by exact Hne.
      pose proof (of_nat_pos _ (size_nonempty words Hne)) as Hp.
      field. lra.
Qed.

Lemma simple_similarity_properties_witness :
  Service.simple_similarity "the cat sat" "the cat sat" = 0.0.
Proof.
  apply (proj1 (proj2 (proj2 (simple_similarity_properties
                                "the cat sat" "the cat sat")))).
  reflexivity.
Defined.

End FallbackSimilarity.

Section EndpointPaths.
Import PyStr PyNum SpecWords.
Local Open Scope Q_scope.

Lemma fallback_response_range (similarity : Q) :
  0 <= similarity <= 1 ->
  0 <= round similarity 4 <= 1 /\ 0 <= round (similarity * 6) 2 <= 6.
Proof.
  intros [H0 H1]. split.
  - apply (round_between similarity 4 0 1); unfold inject_Z; lra.
  - apply (round_between (similarity * 6) 2 0 6); unfold inject_Z; lra.
Qed.

Lemma basic_evaluate_range (model : option (string -> string -> result Q))
    (m s : string) (r : Service.Response) :
  Service.basic_evaluate model m s = Ok r ->
  0 <= Service.similarity r <= 1
  /\ 0 <= Service.score r <= 6
  /\ 0 <= Service.confidence r <= 1.
Proof.
  unfold Service.basic_evaluate. destruct model as [cos_sim|].
  - destruct (cos_sim m s) as [similarity|e]; [|discriminate].
    cbn [bind]. intros H. injection H as <-.
    cbn [Service.similarity Service.score Service.confidence].
    split; [|split; [|lra]].
    + apply (round_between _ 4 0 1); unfold inject_Z; case_Qminmax_deep; lra.
    + case_Qminmax_deep; lra.
  - intros H. injection H as <-.
    cbn [Service.similarity Service.score Service.confidence].
    destruct (fallback_response_range _ (simple_similarity_range m s)).
    split; [assumption|]. split; [assumption|lra].
Qed.

(** X20: whatever the embedding model returns or raises, and in either
    mode, the response of the endpoint has a similarity in [0,1], a score
    in [0,6] and a confidence in [0,1]. *)
Theorem endpoint_response_in_range
    (model : option (string -> string -> result Q)) (mode : bool)
    (model_answer student_answer : string) (detailed : bool)
    (log : list string) :
  let r := fst (Service.evaluate model mode model_answer student_answer
                                 detailed log) in
  0 <= Service.similarity r <= 1
  /\ 0 <= Service.score r <= 6
  /\ 0 <= Service.confidence r <= 1.
Proof.
  cbv zeta.
  destruct (blank model_answer) eqn:Hm.
  { rewrite (evaluate_empty_reference model mode _ _ detailed log Hm).
    cbn. lra. }
  destruct (blank student_answer) eqn:Hs.
  { rewrite (evaluate_empty_candidate model mode _ _ detailed log Hm Hs).
    cbn. lra. }
  destruct mode.
  - destruct (evaluate_enhanced model model_answer student_answer detailed log
                Hm Hs) as (st & _ & Hsound & ->).
    destruct Hsound as (Hcalc & [He0 He1] & _ & [Hc0 Hc1] & [Hk Hkt]).
    destruct (calculate_final_score_range _ _ _ _ He0 He1 Hc0 Hk Hkt)
      as (r & Hr & Hsim & Hc & [Hsc _] & _).
    rewrite Hcalc in Hr. injection Hr as <-.
    cbn [fst Service.build_response Service.similarity Service.confidence
         Service.score].
    tauto.
  - unfold Service.evaluate. rewrite !strip_blank, Hm, Hs.
    unfold Service.mbind, Service.ret, Service.lift,
      Service.record_evaluation_time.
    destruct (Service.basic_evaluate model (strip model_answer)
                (strip student_answer)) as [r|e] eqn:E.
    + cbn [fst]. exact (basic_evaluate_range model _ _ r E).
    + cbn [fst Service.similarity Service.score Service.confidence].
      destruct (fallback_response_range _
                  (simple_similarity_range model_answer student_answer)).
      split; [assumption|]. split; [assumption|lra].
Qed.

(** X21: without the enhanced components, an exception of the embedding
    model does not reach the caller: the endpoint answers from the word
    overlap of the two texts as they came in, not stripped, with
    confidence 0.5, the review flag and the fallback flag set and the
    exception as its message, and records no stage; when the model
    returns, the answer has its similarity clamped to [0,1] and rounded,
    confidence 0.8, no review flag, and the stage "total" is recorded. *)
Theorem endpoint_basic_mode
    (cos_sim : string -> string -> result Q)
    (model_answer student_answer : string) (detailed : bool)
    (log : list string) :
  blank model_answer = false -> blank student_answer = false ->
  (forall e,
      cos_sim (strip model_answer) (strip student_answer) = Raise e ->
      Service.evaluate (Some cos_sim) false model_answer student_answer
                       detailed log
      = ({| Service.similarity :=
              round (Service.simple_similarity model_answer student_answer) 4;
            Service.score :=
              round (Service.simple_similarity model_answer student_answer * 6)
                    2;
            Service.confidence := 0.5; Service.needs_review := true;
            Service.fallback := true; Service.message := Service.ErrorOf e;
            Service.breakdown := None |}, log))
  /\ (forall similarity,
      cos_sim (strip model_answer) (strip student_answer) = Ok similarity ->
      Service.evaluate (Some cos_sim) false model_answer student_answer
                       detailed log
      = ({| Service.similarity := round (Qmax 0.0 (Qmin 1.0 similarity)) 4;
            Service.score := Qmax 0.0 (Qmin 6.0 (round (similarity * 6) 2));
            Service.confidence := 0.8; Service.needs_review := false;
            Service.fallback := true; Service.message := Service.NoMessage;
            Service.breakdown := None |}, log ++ ["total"])).
Proof.
  intros Hm Hs. split.
  - intros e He. unfold Service.evaluate. rewrite !strip_blank, Hm, Hs.
    unfold Service.mbind, Service.ret, Service.lift,
      Service.record_evaluation_time, Service.basic_evaluate.
    rewrite He. reflexivity.
  - intros similarity Hsim. unfold Service.evaluate.
    rewrite !strip_blank, Hm, Hs.
    unfold Service.mbind, Service.ret, Service.lift,
      Service.record_evaluation_time, Service.basic_evaluate.
    rewrite Hsim. reflexivity.
Qed.

Lemma endpoint_basic_mode_witness :
  Service.similarity
    (fst (Service.evaluate (Some (fun _ _ => Raise RuntimeError)) false
                           " long words here " "long words there" false []))
  = round (Service.simple_similarity " long words here " "long words there") 4.
Proof.
  rewrite (proj1 (endpoint_basic_mode (fun _ _ => Raise RuntimeError)
                    " long words here " "long words there" false []
                    eq_refl eq_refl) RuntimeError eq_refl).
  reflexivity.
Defined.

End EndpointPaths.

Section Validation.
Import PyStr PyNum SpecWords ValidationFramework.
Local Open Scope Q_scope.

Lemma validate_score_range_iff (score : Q) :
  _validate_score_range score = true <-> 0 <= score <= 1.
Proof.
  unfold _validate_score_range, score_range.
  rewrite andb_true_iff, !Qle_bool_iff. split; intros [H0 H1]; split; lra.
Qed.

Lemma validate_fields (score : Q) (model_answer student_answer : option string) :
  let r := validate score model_answer student_answer in
  let student_blank :=
    match student_answer with
    | Some text => blank text
    | None => false
    end in
  is_valid r = _validate_score_range score && negb student_blank
  /\ errors r
     = (if _validate_score_range score then []
        else [ScoreOutsideRange score score_range])
       ++ (if student_blank then [StudentAnswerEmpty] else [])
  /\ (length (warnings r) <= 2)%nat.
Proof.
  cbv zeta. unfold validate.
  destruct (_validate_score_range score); cbn [negb];
    destruct model_answer as [m|];
    try destruct (_validate_text_length m); cbn [negb];
    destruct student_answer as [s|];
    try (rewrite (strip_blank s); destruct (blank s));
    try destruct (_validate_text_length s); cbn;
    (split; [reflexivity|]); (split; [reflexivity|]); lia.
Qed.

(** X22: [validate] calls a result valid exactly when it lists no error,
    which is exactly when the score lies in [0,1] and the student answer,
    if one is given, has a character that is not whitespace; the model
    answer never changes the verdict or the errors, and the length checks
    only add warnings, at most two. *)
Theorem validate_verdict (score : Q) (model_answer student_answer : option string) :
  let r := validate score model_answer student_answer in
  (is_valid r = true <-> errors r = [])
  /\ (is_valid r = true <->
      0 <= score <= 1
      /\ forall text, student_answer = Some text -> blank text = false)
  /\ is_valid r = is_valid (validate score None student_answer)
  /\ errors r = errors (validate score None student_answer)
  /\ (length (warnings r) <= 2)%nat.
Proof.
  cbv zeta.
  destruct (validate_fields score model_answer student_answer)
    as (Hv & He & Hw).
  destruct (validate_fields score None student_answer) as (Hv' & He' & _).
  pose proof (validate_score_range_iff score) as Hrange.
  cbv zeta in *. rewrite Hv, He, Hv', He'.
  split; [|split; [|split; [reflexivity|split; [reflexivity|exact Hw]]]].
  - destruct (_validate_score_range score);
      [|split; discriminate].
    destruct student_answer as [text|]; [destruct (blank text)|];
      split; first [reflexivity | discriminate].
  - rewrite andb_true_iff, Hrange, negb_true_iff.
    destruct student_answer as [text|].
    + split.
      * intros [Hs Hb]. split; [exact Hs|]. intros t Ht. now injection Ht as <-.
      * intros [Hs Hb]. split; [exact Hs|]. now apply Hb.
    + split.
      * intros [Hs _]. split; [exact Hs|]. discriminate.
      * intros [Hs _]. split; [exact Hs|reflexivity].
Qed.

Lemma validate_verdict_witness :
  is_valid (validate 0.5 None (Some "an answer")) = true.
Proof.
  apply (proj1 (proj2 (validate_verdict 0.5 None (Some "an answer")))).
  split; [lra|]. intros text Ht. injection Ht as <-. reflexivity.
Defined.


Lemma take_chars_all (n : nat) (s : string) :
  (String.length s <= n)%nat -> take_chars n s = s.
Proof.
  revert s. induction n as [|n IH]; intros [|c s]; cbn; try reflexivity.
  - lia.
  - intros H. rewrite IH; [reflexivity | lia].
Qed.









(** X24: [validate_input_format] accepts exactly the dicts in which both
    [model_answer] and [student_answer] are present and are texts, and it
    then answers "Valid input format"; anything that is not a dict is
    refused as such. *)
Theorem validate_input_format_accepts (data : Data) :
  (fst (validate_input_format data) = true <->
   exists d m s,
     data = Dict d
     /\ d !! "model_answer" = Some (Str m)
     /\ d !! "student_answer" = Some (Str s))
  /\ (fst (validate_input_format data) = true ->
      snd (validate_input_format data) = "Valid input format")
  /\ (data = NotDict ->
      validate_input_format data = (false, "Input must be a dictionary")).
Proof.
  destruct data as [d|].
  - unfold validate_input_format, required_fields. cbn [check_fields].
    destruct (d !! "model_answer") as [[m|]|] eqn:Em;
      [destruct (d !! "student_answer") as [[s|]|] eqn:Es| |]; cbn [fst snd].
    + split; [|split; [reflexivity | discriminate]].
      split; [intros _; now exists d, m, s | reflexivity].
    + split; [|split; discriminate].
      split; [discriminate|]. intros (d' & m' & s' & Hd & _ & Hs).
      injection Hd as <-. congruence.
    + split; [|split; discriminate].
      split; [discriminate|]. intros (d' & m' & s' & Hd & _ & Hs).
      injection Hd as <-. congruence.
    + split; [|split; discriminate].
      split; [discriminate|]. intros (d' & m' & s' & Hd & Hm & _).
      injection Hd as <-. congruence.
    + split; [|split; discriminate].
      split; [discriminate|]. intros (d' & m' & s' & Hd & Hm & _).
      injection Hd as <-. congruence.
  - cbn. split; [|split; [discriminate | reflexivity]].
    split; [discriminate|]. intros (d & m & s & Hd & _). discriminate.
Qed.

Lemma validate_input_format_accepts_witness :
  snd (validate_input_format
         (Dict {[ "model_answer" := Str "a"; "student_answer" := Str "b" ]}))
  = "Valid input format".
Proof.
  apply (proj1 (proj2 (validate_input_format_accepts _))). reflexivity.
Defined.

End Validation.

Section Rounding.
Import PyNum.
Local Open Scope Q_scope.




End Rounding.

Section MonitorWindow.
Import PyNum Shapes AccuracyMonitor.
Local Open Scope Q_scope.

Lemma deque_append_last_n {A : Type} (w : nat) (l : list A) (x : A) :
  deque_append w (last_n w l) x = last_n w (l ++ [x]).
Proof.
  unfold deque_append, last_n. rewrite length_app. cbn [length].
  destruct (w =? 0)%nat eqn:Ew.
  - apply Nat.eqb_eq in Ew. subst w.
    rewrite !Nat.sub_0_r.
    rewrite skipn_all. rewrite skipn_all2; [reflexivity|].
    rewrite length_app. cbn [length]. lia.
  - apply Nat.eqb_neq in Ew.
    rewrite length_app, length_skipn. cbn [length].
    destruct (w <? length l - (length l - w) + 1)%nat eqn:E.
    + apply Nat.ltb_lt in E.
      assert (Hlen : (w <= length l)%nat) by lia.
      rewrite skipn_app.
      replace (length l + 1 - w - length l)%nat with 0%nat by lia.
      cbn [skipn].
      replace (length l + 1 - w)%nat with (S (length l - w)) by lia.
      destruct (skipn (length l - w) l) as [|y rest] eqn:Es.
      { apply (f_equal (@length _)) in Es. rewrite length_skipn in Es.
        cbn [length] in Es. lia. }
      cbn [app tl].
      replace (skipn (S (length l - w)) l) with rest; [reflexivity|].
      change (S (length l - w)) with (1 + (length l - w))%nat.
      rewrite <- skipn_skipn, Es. reflexivity.
    + apply Nat.ltb_ge in E.
      assert (Hlen : (length l < w)%nat) by lia.
      replace (length l - w)%nat with 0%nat by lia.
      replace (length l + 1 - w)%nat with 0%nat by lia. reflexivity.
Qed.

Lemma monitor_all_snoc (inputs : list (Q * Q * Q)) (input : Q * Q * Q)
    (m : Monitor) :
  monitor_all (inputs ++ [input]) m
  = snd (monitor (fst (fst input)) (snd (fst input)) (snd input)
                 (monitor_all inputs m)).
Proof. unfold monitor_all. now rewrite fold_left_app. Qed.

Lemma monitor_all_state (w : nat) (inputs : list (Q * Q * Q)) :
  monitor_all inputs (init w)
  = {| window_size := w;
       scores := last_n w (map (fun i => snd (fst i)) inputs);
       timestamps := last_n w (map (fun i => fst (fst i)) inputs);
       confidence_scores := last_n w (map snd inputs) |}.
Proof.
  induction inputs as [|input inputs IH] using rev_ind.
  - unfold last_n. cbn. reflexivity.
  - rewrite monitor_all_snoc, IH. unfold monitor. cbn [snd window_size scores
      timestamps confidence_scores].
    rewrite !map_app. cbn [map].
    now rewrite !deque_append_last_n.
Qed.

Lemma length_last_n {A : Type} (n : nat) (l : list A) :
  length (last_n n l) = Nat.min (length l) n.
Proof. unfold last_n. rewrite length_skipn. lia. Qed.

(** *** Statistics *)







(** X25: a monitor built with window size [w] and fed any run of scores
    holds the last [w] scores, time stamps and confidences of the run, all
    of it while the run is shorter than [w]; so the three queues have the
    same length, at most [w], and with [w = 0] nothing is ever stored. *)
Theorem monitor_keeps_last_window (w : nat) (inputs : list (Q * Q * Q)) :
  let m := monitor_all inputs (init w) in
  window_size m = w
  /\ scores m = last_n w (map (fun i => snd (fst i)) inputs)
  /\ timestamps m = last_n w (map (fun i => fst (fst i)) inputs)
  /\ confidence_scores m = last_n w (map snd inputs)
  /\ length (scores m) = Nat.min (length inputs) w
  /\ length (timestamps m) = length (scores m)
  /\ length (confidence_scores m) = length (scores m).
Proof.
  cbv zeta. rewrite monitor_all_state.
  cbn [window_size scores timestamps confidence_scores].
  rewrite !length_last_n, !length_map. repeat split.
Qed.





(** *** Trend *)

Lemma slice_lengths (l : list Q) (n : Z) :
  (2 <= n <= Z.of_nat (length l))%Z ->
  let recent_scores := slice_from l (- n) in
  length recent_scores = Z.to_nat n
  /\ length (slice_to recent_scores (n / 2)) = Z.to_nat (n / 2)
  /\ length (slice_from recent_scores (n / 2)) = Z.to_nat (n - n / 2)
  /\ (1 <= n / 2 < n)%Z.
Proof.
  intros Hn. cbv zeta.
  assert (Hhalf : (1 <= n / 2 < n)%Z).
  { split; [apply Z.div_le_lower_bound; lia | apply Z.div_lt; lia]. }
  assert (Hrecent : length (slice_from l (- n)) = Z.to_nat n).
  { unfold slice_from, slice_bound. rewrite length_skipn.
    destruct (- n <? 0)%Z eqn:E; [|apply Z.ltb_ge in E]; lia. }
  split; [exact Hrecent|]. split; [|split; [|exact Hhalf]].
  - unfold slice_to, slice_bound. rewrite length_firstn, Hrecent.
    destruct (n / 2 <? 0)%Z eqn:E; [apply Z.ltb_lt in E|]; lia.
  - unfold slice_from at 1. unfold slice_bound. rewrite length_skipn, Hrecent.
    destruct (n / 2 <? 0)%Z eqn:E; [apply Z.ltb_lt in E|]; lia.
Qed.

Lemma slice_to_zero {A : Type} (l : list A) : slice_to l 0 = [].
Proof.
  unfold slice_to, slice_bound. cbn [Z.ltb Z.compare].
  rewrite Z.min_l by lia. reflexivity.
Qed.

(** X28: [get_recent_trend] answers "insufficient_data" when fewer than
    [n] scores are stored; with [n >= 2] stored scores it never divides by
    zero and answers "improving", "declining" or "stable"; asked for the
    trend of the last 0 scores, or of the last 1 score when one is stored,
    it raises [ZeroDivisionError], the first half being empty. *)
Theorem recent_trend_cases (n : Z) (m : Monitor) :
  ((Z.of_nat (length (scores m)) < n)%Z ->
   get_recent_trend n m = Ok "insufficient_data")
  /\ ((2 <= n <= Z.of_nat (length (scores m)))%Z ->
      exists trend,
        get_recent_trend n m = Ok trend
        /\ In trend ["improving"; "declining"; "stable"])
  /\ ((0 <= n <= 1)%Z -> (n <= Z.of_nat (length (scores m)))%Z ->
      get_recent_trend n m = Raise ZeroDivisionError).
Proof.
  split; [|split].
  - intros Hlt. unfold get_recent_trend.
    apply Z.ltb_lt in Hlt. now rewrite Hlt.
  - intros Hn. unfold get_recent_trend.
    destruct (Z.of_nat (length (scores m)) <? n)%Z eqn:E;
      [apply Z.ltb_lt in E; lia|].
    destruct (slice_lengths (scores m) n Hn) as (_ & H1 & H2 & Hhalf).
    cbv zeta in H1, H2.
    set (first_half := slice_to _ _) in *.
    set (second_half := slice_from (slice_from _ _) _) in *.
    rewrite (truediv_ok _ (of_nat (length first_half))).
    2:{ pose proof (of_nat_pos (length first_half)). rewrite H1 in *.
        assert (0 < of_nat (Z.to_nat (n / 2))) by (apply H; lia). lra. }
    rewrite (truediv_ok _ (of_nat (length second_half))).
    2:{ pose proof (of_nat_pos (length second_half)). rewrite H2 in *.
        assert (0 < of_nat (Z.to_nat (n - n / 2))) by (apply H; lia). lra. }
    cbn [bind].
    destruct (Qgtb _ _); [eexists; split; [reflexivity|cbn; tauto]|].
    destruct (Qltb _ _); eexists; (split; [reflexivity|cbn; tauto]).
  - intros Hn Hlen. unfold get_recent_trend.
    destruct (Z.of_nat (length (scores m)) <? n)%Z eqn:E;
      [apply Z.ltb_lt in E; lia|].
    assert (Hhalf : (n / 2 = 0)%Z).
    { assert (n = 0 \/ n = 1)%Z as [-> | ->] by lia; reflexivity. }
    rewrite Hhalf, slice_to_zero. reflexivity.
Qed.

Lemma recent_trend_cases_witness :
  get_recent_trend 1 {| window_size := 5; scores := [0.5];
                        timestamps := [1]; confidence_scores := [1] |}
  = Raise ZeroDivisionError.
Proof.
  apply (proj2 (proj2 (recent_trend_cases 1 _))); cbn; lia.
Defined.

End MonitorWindow.

Section ErrorCounts.
Import Shapes ErrorHandler.

Lemma handle_error_counts (error : exn) (context : string)
    (error_counts : gmap string nat) :
  let '(report, counts) := handle_error error context error_counts in
  report_error_type report = exn_name error
  /\ report_context report = context
  /\ report_count report = default 0 (error_counts !! exn_name error) + 1
  /\ counts !! exn_name error = Some (report_count report)
  /\ (forall name, name <> exn_name error ->
                   counts !! name = error_counts !! name).
Proof.
  unfold handle_error. cbn [report_error_type report_context report_count].
  rewrite lookup_insert_eq. cbn [default].
  split; [reflexivity|]. split; [reflexivity|]. split; [reflexivity|].
  split; [reflexivity|]. intros name Hne. now rewrite lookup_insert_ne.
Qed.

Lemma count_of_type_cons (name : string) (error : exn) (context : string)
    (errors : list (exn * string)) :
  count_of_type name ((error, context) :: errors)
  = (if String.eqb (exn_name error) name then 1 else 0)
    + count_of_type name errors.
Proof.
  unfold count_of_type. cbn [List.filter fst].
  destruct (String.eqb (exn_name error) name); reflexivity.
Qed.

Lemma handle_errors_counts (errors : list (exn * string))
    (error_counts : gmap string nat) (name : string) :
  default 0 (snd (handle_errors errors error_counts) !! name)
  = default 0 (error_counts !! name) + count_of_type name errors
  /\ (snd (handle_errors errors error_counts) !! name = None ->
      error_counts !! name = None /\ count_of_type name errors = 0)
  /\ ((forall n, error_counts !! name = Some n -> 0 < n) ->
      forall n, snd (handle_errors errors error_counts) !! name = Some n ->
                0 < n)
  /\ length (fst (handle_errors errors error_counts)) = length errors.
Proof.
  revert error_counts.
  induction errors as [|[error context] errors IH]; intros error_counts.
  - cbn [handle_errors snd fst length]. unfold count_of_type. cbn.
    split; [lia|]. split; [tauto|]. split; [tauto | reflexivity].
  - cbn [handle_errors].
    pose proof (handle_error_counts error context error_counts) as Hstep.
    destruct (handle_error error context error_counts) as [report counts].
    destruct Hstep as (_ & _ & Hcount & Hsame & Hother).
    specialize (IH counts).
    destruct (handle_errors errors counts) as [reports counts'].
    cbn [fst snd length] in *. destruct IH as (IH1 & IH2 & IH3 & IH4).
    rewrite count_of_type_cons.
    destruct (String.eqb (exn_name error) name) eqn:E; cbv iota.
    + apply String.eqb_eq in E. subst name.
      rewrite Hsame in IH1, IH2, IH3. cbn [default] in IH1.
      change (id (report_count report)) with (report_count report) in IH1.
      split; [lia|]. split; [|split; [|lia]].
      * intros Hnone. destruct (IH2 Hnone) as [Habs _]. discriminate.
      * intros _. apply IH3. intros n Hn. injection Hn as <-. lia.
    + apply String.eqb_neq in E.
      rewrite (Hother name) in IH1, IH2, IH3 by congruence.
      split; [lia|]. split; [exact IH2 | split; [exact IH3 | lia]].
Qed.

(** X29: [handle_error] reports, as the count of an error, one more than
    the count stored for its type, stores that count and leaves the counts
    of the other types alone; so after any run of [handle_error] calls on a
    new handler the statistics give, for every type, the number of errors
    of that type in the run, with no entry for a type that did not
    occur. *)
Theorem error_counts_count (errors : list (exn * string)) (name : string) :
  (forall error context error_counts,
      let '(report, counts) := handle_error error context error_counts in
      report_count report = default 0 (error_counts !! exn_name error) + 1
      /\ counts !! exn_name error = Some (report_count report)
      /\ (forall other, other <> exn_name error ->
                        counts !! other = error_counts !! other))
  /\ (let stats := get_error_stats (snd (handle_errors errors ∅)) in
      (count_of_type name errors = 0 -> stats !! name = None)
      /\ (0 < count_of_type name errors ->
          stats !! name = Some (count_of_type name errors)))
  /\ length (fst (handle_errors errors ∅)) = length errors.
Proof.
  split; [|split].
  - intros error context error_counts.
    pose proof (handle_error_counts error context error_counts) as H.
    destruct (handle_error error context error_counts) as [report counts].
    tauto.
  - cbv zeta. unfold get_error_stats.
    destruct (handle_errors_counts errors ∅ name) as (H1 & H2 & H3 & _).
    rewrite lookup_empty in H1. cbn [default] in H1.
    assert (Hpos : forall n, snd (handle_errors errors ∅) !! name = Some n ->
                             0 < n).
    { apply H3. intros n Hn. rewrite lookup_empty in Hn. discriminate. }
    destruct (snd (handle_errors errors ∅) !! name) as [n|] eqn:E;
      cbn [default] in H1.
    + specialize (Hpos n eq_refl). change (id n) with n in H1.
      split; intros Hc; [lia|]. f_equal. lia.
    + split; intros Hc; [reflexivity | lia].
  - apply (handle_errors_counts errors ∅ name).
Qed.

Lemma error_counts_count_witness :
  get_error_stats
    (snd (handle_errors [(ValueError, "a"); (RuntimeError, "b");
                         (ValueError, "c")] ∅)) !! "ValueError"
  = Some (count_of_type "ValueError"
            [(ValueError, "a"); (RuntimeError, "b"); (ValueError, "c")]).
Proof.
  apply (proj2 (proj1 (proj2 (error_counts_count
                                [(ValueError, "a"); (RuntimeError, "b");
                                 (ValueError, "c")] "ValueError")))).
  cbn. lia.
Defined.

End ErrorCounts.



Section Retry.
Import Shapes ErrorHandler.
Local Open Scope Q_scope.

Variable A : Type.
Variable max_retries : Z.
Variable delay : Q.
Variable func : Z -> result A.





End Retry.

